(** * maintenances: device getters and the per-circuit workflow

    A shallow embedding of [custom_napalm/junos.py] (the [CustomJunOSDriver]
    getters) and of [lib/getters.py] (the [Main] orchestrator), followed by
    the properties of the specification that concern them.

    Python values are a small universe of [None], booleans, integers, strings,
    lists, tuples and string-keyed dictionaries.  A dictionary is an
    association list in insertion order, as Python keeps it.  Exceptions are
    values of [exn]; code that logs, issues remote-procedure calls or reads the
    clock runs in a state-and-exception monad. *)

From Stdlib Require Import ZArith List String Ascii Bool Lia DecimalString.
Import ListNotations.
Open Scope string_scope.
Open Scope Z_scope.

(** ** Python values *)

Set Warnings "-register-all".

Inductive pyval : Type :=
| PNone
| PBool (b : bool)
| PInt (z : Z)
| PStr (s : string)
| PList (l : list pyval)
| PTuple (l : list pyval)
| PDict (d : list (string * pyval)).

(** A dictionary with string keys, in insertion order. *)
Definition dict : Type := list (string * pyval).

(** A PyEZ view's [items()]: pairs of field name and value, in view order. *)
Definition fields : Type := list (string * pyval).

(** A PyEZ table's [items()]: one pair of key and fields per entry. *)
Definition items (K : Type) : Type := list (K * fields).

(** [bool(v)] *)
Definition truthy (v : pyval) : bool :=
  match v with
  | PNone => false
  | PBool b => b
  | PInt z => negb (z =? 0)
  | PStr s => negb (s =? "")%string
  | PList l => match l with [] => false | _ => true end
  | PTuple l => match l with [] => false | _ => true end
  | PDict d => match d with [] => false | _ => true end
  end.

(** [v is None] *)
Definition is_none (v : pyval) : bool :=
  match v with PNone => true | _ => false end.

(** [type(v) is list] and [isinstance(v, list)] *)
Definition is_list (v : pyval) : bool :=
  match v with PList _ => true | _ => false end.

(** ** Strings *)

(** [s.split(sep)[0]] for a non-empty [sep]: the part before its first
    occurrence, the whole string when there is none. *)
Fixpoint split_head (sep s : string) : string :=
  match s with
  | EmptyString => EmptyString
  | String c s' =>
      if String.prefix sep s then EmptyString else String c (split_head sep s')
  end.

(** [s.replace(old, new)] for a non-empty [old]: occurrences are replaced from
    the left and do not overlap; [skip] counts the characters of a matched
    occurrence still to pass over. *)
Fixpoint replace_from (old new : string) (skip : nat) (s : string) : string :=
  match s with
  | EmptyString => EmptyString
  | String c s' =>
      match skip with
      | S k => replace_from old new k s'
      | O =>
          if String.prefix old s
          then new ++ replace_from old new (Nat.pred (String.length old)) s'
          else String c (replace_from old new O s')
      end
  end.

Definition replace (old new s : string) : string := replace_from old new O s.

(** [c.isspace()] on the ASCII range. *)
Definition is_space (c : ascii) : bool :=
  let n := nat_of_ascii c in
  ((9 <=? n) && (n <=? 13) || (28 <=? n) && (n <=? 32))%nat.

Fixpoint lstrip (s : string) : string :=
  match s with
  | EmptyString => EmptyString
  | String c s' => if is_space c then lstrip s' else s
  end.

Fixpoint rstrip (s : string) : string :=
  match s with
  | EmptyString => EmptyString
  | String c s' =>
      match rstrip s' with
      | EmptyString => if is_space c then EmptyString else String c EmptyString
      | r => String c r
      end
  end.

(** [s.strip()] *)
Definition strip (s : string) : string := rstrip (lstrip s).

(** The character [+], and whether a string holds one. *)
Definition plus_sign : ascii := "+"%char.

Fixpoint has_char (a : ascii) (s : string) : bool :=
  match s with
  | EmptyString => false
  | String c s' => Ascii.eqb a c || has_char a s'
  end.


Definition LF : string := String (ascii_of_nat 10) EmptyString.

(** ** Dictionaries *)

(** [d.get(k)], [None] of Python being [None] of [option] here. *)
Fixpoint dict_get {V : Type} (d : list (string * V)) (k : string) : option V :=
  match d with
  | [] => None
  | (k', v) :: d' => if (k' =? k)%string then Some v else dict_get d' k
  end.

(** [d[k] = v]: an existing key keeps its place, a new one goes last. *)
Fixpoint dict_set {V : Type} (d : list (string * V)) (k : string) (v : V)
  : list (string * V) :=
  match d with
  | [] => [(k, v)]
  | (k', v') :: d' =>
      if (k' =? k)%string then (k', v) :: d' else (k', v') :: dict_set d' k v
  end.

(** [d.update(e)] *)
Definition dict_update {V : Type} (d e : list (string * V)) : list (string * V) :=
  fold_left (fun acc kv => dict_set acc (fst kv) (snd kv)) e d.

(** [del d[k]], a no-op on a missing key. *)
Fixpoint dict_remove {V : Type} (d : list (string * V)) (k : string)
  : list (string * V) :=
  match d with
  | [] => []
  | (k', v) :: d' =>
      if (k' =? k)%string then dict_remove d' k else (k', v) :: dict_remove d' k
  end.

Definition keys {V : Type} (d : list (string * V)) : list string := map fst d.

(** [d.get(k)] as a Python value. *)
Definition dict_get_default (d : dict) (k : string) : pyval :=
  match dict_get d k with Some v => v | None => PNone end.

(** [{elem[0]: elem[1] for elem in fs}] *)
Definition dict_of_fields (fs : fields) : dict := dict_update [] fs.

(** ** Exceptions and the monad *)

Inductive exn : Type :=
| RpcError (msg : string)
| KeyError (key : string)
| IndexError
| TypeError (msg : string)
| ValueError (msg : string)
| AttributeError (msg : string)
| UnboundLocalError (name : string)
| AddrFormatError (msg : string)
| GaiError (msg : string).

(** What a call gives: an exception raised or a value returned. *)
Inductive result (A : Type) : Type :=
| Raise (e : exn)
| Ok (a : A).
Arguments Raise {A} e.
Arguments Ok {A} a.

Definition rbind {A B : Type} (r : result A) (k : A -> result B) : result B :=
  match r with
  | Raise e => Raise e
  | Ok a => k a
  end.

(** State [S] threaded through, exceptions keeping the state reached. *)
Definition M (S A : Type) : Type := S -> result A * S.

Definition ret {S A : Type} (a : A) : M S A := fun s => (Ok a, s).

Definition raise {S A : Type} (e : exn) : M S A := fun s => (Raise e, s).

Definition bind {S A B : Type} (m : M S A) (k : A -> M S B) : M S B :=
  fun s =>
    match m s with
    | (Raise e, s') => (Raise e, s')
    | (Ok a, s') => k a s'
    end.

Definition lift {S A : Type} (r : result A) : M S A := fun s => (r, s).

Definition get_state {S : Type} : M S S := fun s => (Ok s, s).

Definition modify {S : Type} (f : S -> S) : M S unit := fun s => (Ok tt, f s).

(** [try: m] followed by [except AttributeError: pass] *)
Definition except_attribute_error {S : Type} (m : M S unit) : M S unit :=
  fun s =>
    match m s with
    | (Raise (AttributeError _), s') => (Ok tt, s')
    | r => r
    end.

Declare Scope py_scope.
Delimit Scope py_scope with py.
Notation "x <- c ;; k" := (bind c (fun x => k))
  (at level 100, c at next level, right associativity) : py_scope.
Notation "c ;;; k" := (bind c (fun _ => k))
  (at level 100, right associativity) : py_scope.
Notation "x <~ c ;; k" := (rbind c (fun x => k))
  (at level 100, c at next level, right associativity) : py_scope.
Open Scope py_scope.

(** [for x in l: acc = body(acc, x)] *)
Fixpoint for_each {S A B : Type} (l : list B) (acc : A) (body : A -> B -> M S A)
  : M S A :=
  match l with
  | [] => ret acc
  | x :: l' => acc' <- body acc x ;; for_each l' acc' body
  end.

(** The same loop for code that raises and has no other effect. *)
Fixpoint rfor_each {A B : Type} (l : list B) (acc : A) (body : A -> B -> result A)
  : result A :=
  match l with
  | [] => Ok acc
  | x :: l' => acc' <~ body acc x ;; rfor_each l' acc' body
  end.

(** [d[k]] *)
Definition subscript {V : Type} (d : list (string * V)) (k : string) : result V :=
  match dict_get d k with
  | Some v => Ok v
  | None => Raise (KeyError k)
  end.

(** [t[i]] on a tuple or list. *)
Definition index {A : Type} (l : list A) (i : nat) : result A :=
  match nth_error l i with
  | Some a => Ok a
  | None => Raise IndexError
  end.

(** [d.pop(k)], with no default. *)
Definition dict_pop (d : dict) (k : string) : result (pyval * dict) :=
  match dict_get d k with
  | Some v => Ok (v, dict_remove d k)
  | None => Raise (KeyError k)
  end.

(** [d.pop(k, default)] *)
Definition dict_pop_default (d : dict) (k : string) (default : pyval)
  : pyval * dict :=
  match dict_get d k with
  | Some v => (v, dict_remove d k)
  | None => (default, d)
  end.

(** [int(v)]: an integer as it is, a boolean as 0 or 1, a string through
    Python's decimal syntax (surrounding blanks, a sign, digits with single
    underscores between them). *)
Definition is_digit (c : ascii) : bool :=
  let n := nat_of_ascii c in ((48 <=? n) && (n <=? 57))%nat.

Definition digit_value (c : ascii) : Z := Z.of_nat (nat_of_ascii c) - 48.

Fixpoint digits_value (acc : Z) (after_digit : bool) (s : string) : option Z :=
  match s with
  | EmptyString => if after_digit then Some acc else None
  | String c s' =>
      if is_digit c then digits_value (10 * acc + digit_value c) true s'
      else if Ascii.eqb c "_"%char && after_digit then
        match s' with
        | String d _ => if is_digit d then digits_value acc false s' else None
        | EmptyString => None
        end
      else None
  end.

(** The blanks [int] skips around a literal: tab to carriage return, and the
    space.  The separators U+001C to U+001F, which [str.strip] removes, are
    not among them: [int] raises on a literal that has one. *)
Definition is_blank (c : ascii) : bool :=
  let n := nat_of_ascii c in
  ((9 <=? n) && (n <=? 13) || (n =? 32))%nat.

Fixpoint skip_blanks (s : string) : string :=
  match s with
  | EmptyString => EmptyString
  | String c s' => if is_blank c then skip_blanks s' else s
  end.

Fixpoint drop_trailing_blanks (s : string) : string :=
  match s with
  | EmptyString => EmptyString
  | String c s' =>
      match drop_trailing_blanks s' with
      | EmptyString => if is_blank c then EmptyString else String c EmptyString
      | r => String c r
      end
  end.

Definition int_of_string (s : string) : option Z :=
  match drop_trailing_blanks (skip_blanks s) with
  | String "-"%char t => option_map Z.opp (digits_value 0 false t)
  | String "+"%char t => digits_value 0 false t
  | t => digits_value 0 false t
  end.

Definition py_int (v : pyval) : result Z :=
  match v with
  | PInt z => Ok z
  | PBool b => Ok (if b then 1 else 0)
  | PStr s =>
      match int_of_string s with
      | Some z => Ok z
      | None => Raise (ValueError "invalid literal for int()")
      end
  | _ => Raise (TypeError "int() argument must be a string or a number")
  end.

(** [str(v)], as an f-string formats a value; [repr] is Python's rendering of
    a list, tuple or dict, which this development does not look into. *)
Definition py_str (repr : pyval -> string) (v : pyval) : string :=
  match v with
  | PNone => "None"
  | PBool true => "True"
  | PBool false => "False"
  | PInt z => NilZero.string_of_int (Z.to_int z)
  | PStr s => s
  | _ => repr v
  end.

(** [v.split("+")[0]]; only a string has [split]. *)
Definition split_plus (v : pyval) : result pyval :=
  match v with
  | PStr s => Ok (PStr (split_head "+" s))
  | _ => Raise (AttributeError "split")
  end.

(** [v.items()]; only a dict has [items]. *)
Definition py_items (v : pyval) : result dict :=
  match v with
  | PDict d => Ok d
  | _ => Raise (AttributeError "items")
  end.

(** [dict(v)]: a copy of a dict, or a dict built from a sequence of
    two-element sequences whose first elements are strings (a string of two
    characters being such a sequence, and a dict of two keys another: it is
    iterated over its keys). *)
Definition pair_of (v : pyval) : result (string * pyval) :=
  match v with
  | PTuple [PStr k; x] | PList [PStr k; x] => Ok (k, x)
  | PStr (String a (String b EmptyString)) =>
      Ok (String a EmptyString, PStr (String b EmptyString))
  | PDict [(a, _); (b, _)] => Ok (a, PStr b)
  | PTuple [_; _] | PList [_; _] => Raise (TypeError "key is not a string")
  | PTuple _ | PList _ | PStr _ | PDict _ =>
      Raise (ValueError "dictionary update sequence element has wrong length")
  | _ => Raise (TypeError "cannot convert dictionary update sequence element")
  end.

Definition py_dict (v : pyval) : result dict :=
  match v with
  | PDict d => Ok d
  | PList l | PTuple l =>
      rfor_each l [] (fun d x => kv <~ pair_of x ;; Ok (dict_set d (fst kv) (snd kv)))
  | PStr EmptyString => Ok []
  | PStr _ => Raise (ValueError "dictionary update sequence element has wrong length")
  | _ => Raise (TypeError "object is not iterable")
  end.

(** ** External collaborators of the driver *)

(** The [netaddr] library, as far as the driver calls it. *)
Record netaddr : Type := {
  (** [str(netaddr.EUI(v))]: the MAC in dash-separated form, or the exception
      the constructor raises ([AddrFormatError] on a string it cannot parse). *)
  EUI : pyval -> result string;
  (** [netaddr.IPAddress(peer).version] *)
  IPAddress_version : string -> result Z;
  (** [netaddr.IPNetwork(route).version] *)
  IPNetwork_version : pyval -> result Z
}.

(** What the device answers to each table's [get]: the entries, or the
    exception the transport raises.  The views of [junos_cust_views] give the
    IS-IS and MPLS tables composite (tuple) keys, whose first component is the
    interface name, and the other tables a single string key. *)
Record device : Type := {
  ISISAdjacencyTable : result (items (list string));
  ISISInterfaceTable : result (items (list string));
  MPLSInterfaceTable : result (items (list string));
  MSDPNeighborTable : result (items string);
  PIMNeighborTable : result (items string);
  ARPTable : result (items string);
  NDTable : result (items string);
  junos_bgp_neighbors_table : result (items string);
  (** [get(peer=..., table=...)] *)
  junos_bgp_rx_route_table : string -> string -> result (items string);
  (** [get(route, table=...)] *)
  junos_bgp_route_table : pyval -> string -> result (items string)
}.

(** The driver's observable state: the error log and the calls sent to the
    device, both oldest first. *)
Record driver : Type := {
  log : list string;
  rpc_calls : list (string * list pyval)
}.

Definition log_error (msg : string) : M driver unit :=
  modify (fun s => {| log := log s ++ [msg]; rpc_calls := rpc_calls s |}).

Definition send_rpc (table : string) (args : list pyval) : M driver unit :=
  modify (fun s => {| log := log s; rpc_calls := rpc_calls s ++ [(table, args)] |}).

(** What [rpc_get] hands back: the table that was filled, or [{}]. *)
Inductive rpc_reply (K : Type) : Type :=
| Table (t : items K)
| EmptyDict.
Arguments Table {K} t.
Arguments EmptyDict {K}.

(** [.items()] and [.keys()] of either. *)
Definition reply_items {K : Type} (r : rpc_reply K) : items K :=
  match r with Table t => t | EmptyDict => [] end.

Definition reply_keys {K : Type} (r : rpc_reply K) : list K :=
  map fst (reply_items r).

(** ** [custom_napalm/junos.py]: class [CustomJunOSDriver] *)

Module CustomJunOSDriver.

(** [rpc_get]: the call goes out; a failure of the remote-procedure kind is
    logged and [{}] returned, any other exception is not caught. *)
Definition rpc_get {K : Type} (table : string) (rpc_input : result (items K))
  (msg : string) : M driver (rpc_reply K) :=
  send_rpc table [] ;;;
  match rpc_input with
  | Ok t => ret (Table t)
  | Raise (RpcError rpcerr) =>
      log_error ("Unable to retrieve " ++ msg ++ " information:") ;;;
      log_error rpcerr ;;;
      ret EmptyDict
  | Raise e => raise e
  end.

(** One adjacency of [get_isis_interfaces_custom]: the record is keyed by
    [neighbor[0][0]] and its metric looked up under that name in [int_dict]. *)
Definition isis_entry (int_dict isis : dict) (neighbor : list string * fields)
  : result dict :=
  name <~ index (fst neighbor) 0 ;;
  f0 <~ index (snd neighbor) 0 ;;
  f1 <~ index (snd neighbor) 1 ;;
  f3 <~ index (snd neighbor) 3 ;;
  f2 <~ index (snd neighbor) 2 ;;
  metric <~ subscript int_dict name ;;
  metric <~ py_int metric ;;
  Ok (dict_set isis name
        (PDict [("isis_neighbor", snd f0);
                ("isis_state", snd f1);
                ("isis_nh", snd f3);
                ("isis_ipv6", snd f2);
                ("isis_metric", PInt metric)])).

Definition isis_int_entry (int_dict : dict) (interface : list string * fields)
  : result dict :=
  name <~ index (fst interface) 0 ;;
  f0 <~ index (snd interface) 0 ;;
  Ok (dict_set int_dict name (snd f0)).

Definition get_isis_interfaces_custom (dev : device) : M driver dict :=
  rpc_adj <- rpc_get "ISISAdjacencyTable" (ISISAdjacencyTable dev) "IS-IS neighbors" ;;
  let isis_adjacencies := reply_items rpc_adj in
  rpc_int <- rpc_get "ISISInterfaceTable" (ISISInterfaceTable dev) "IS-IS neighbors" ;;
  let isis_interfaces := reply_items rpc_int in
  int_dict <- lift (rfor_each isis_interfaces [] isis_int_entry) ;;
  lift (rfor_each isis_adjacencies [] (isis_entry int_dict)).

Definition mpls_entry (mpls : dict) (port : list string * fields) : result dict :=
  name <~ index (fst port) 0 ;;
  f0 <~ index (snd port) 0 ;;
  Ok (dict_set mpls name (PDict [("mpls_enabled", snd f0)])).

Definition get_mpls_interfaces_custom (dev : device) : M driver dict :=
  rpc <- rpc_get "MPLSInterfaceTable" (MPLSInterfaceTable dev) "MPLS Interfaces" ;;
  lift (rfor_each (reply_items rpc) [] mpls_entry).

Definition get_msdp_neighbrs_custom (dev : device) : M driver (list string) :=
  rpc <- rpc_get "MSDPNeighborTable" (MSDPNeighborTable dev) "MSDP Neighbors" ;;
  ret (reply_keys rpc).

Definition get_pim_neighbors_custom (dev : device) : M driver (list string) :=
  rpc <- rpc_get "PIMNeighborTable" (PIMNeighborTable dev) "PIM Interfaces" ;;
  ret (reply_keys rpc).

(** [try: mac = str(netaddr.EUI(v)).replace("-", ":")
     except netaddr.core.AddrFormatError: mac = None] *)
Definition normalized_mac (net : netaddr) (v : pyval) : result pyval :=
  match EUI net v with
  | Ok s => Ok (PStr (replace "-" ":" s))
  | Raise (AddrFormatError _) => Ok PNone
  | Raise e => Raise e
  end.

Definition arp_entry (net : netaddr) (arp : dict) (neighbor : string * fields)
  : result dict :=
  f1 <~ index (snd neighbor) 1 ;;
  mac <~ normalized_mac net (snd f1) ;;
  f0 <~ index (snd neighbor) 0 ;;
  Ok (dict_set arp (fst neighbor)
        (PDict [("arp_nh_mac", mac); ("arp_nh", snd f0)])).

Definition get_arp_table_custom (net : netaddr) (dev : device) : M driver dict :=
  rpc <- rpc_get "ARPTable" (ARPTable dev) "ARP" ;;
  lift (rfor_each (reply_items rpc) [] (arp_entry net)).

Definition nd_entry (net : netaddr) (nd : dict) (neighbor : string * fields)
  : result dict :=
  f1 <~ index (snd neighbor) 1 ;;
  mac <~ normalized_mac net (snd f1) ;;
  f0 <~ index (snd neighbor) 0 ;;
  Ok (dict_set nd (fst neighbor)
        (PDict [("nd_nh", snd f0); ("nd_nh_mac", mac)])).

Definition get_nd_table_custom (net : netaddr) (dev : device) : M driver dict :=
  rpc <- rpc_get "NDTable" (NDTable dev) "IPv6 ND" ;;
  lift (rfor_each (reply_items rpc) [] (nd_entry net)).

Definition default_neighbor_details : dict :=
  [("up", PBool false);
   ("local_as", PInt 0);
   ("remote_as", PInt 0);
   ("router_id", PStr "");
   ("local_address", PStr "");
   ("routing_table", PStr "");
   ("import_policy", PStr "");
   ("export_policy", PStr "")].

(** [{elem[0]: elem[1] for elem in neighbor[1] if elem[1] is not None}] *)
Definition non_null_fields (fs : fields) : dict :=
  dict_of_fields (filter (fun elem => negb (is_none (snd elem))) fs).

(** The defaults with the entry's non-null fields written over them. *)
Definition source_details (fs : fields) : dict :=
  dict_update default_neighbor_details (non_null_fields fs).

(** One round of the loop over [["local_as", "remote_as"]]. *)
Definition reconcile_as (neighbor_details : dict) (i : string) : result dict :=
  v <~ subscript neighbor_details i ;;
  if negb (truthy v) then
    p <~ dict_pop neighbor_details (i ++ "_2") ;;
    Ok (dict_set (snd p) i (fst p))
  else
    p <~ dict_pop neighbor_details (i ++ "_2") ;;
    Ok (snd p).

(** [neighbor_details.update({rib_table[0]: dict(rib_table[1])})] *)
Definition append_rib (neighbor_details : dict) (rib_table : string * pyval)
  : result dict :=
  t <~ py_dict (snd rib_table) ;;
  Ok (dict_set neighbor_details (fst rib_table) (PDict t)).

(** The body of the loop over the neighbors, up to the record it stores. *)
Definition neighbor_record (fs : fields) : result dict :=
  let neighbor_details := source_details fs in
  neighbor_details <~ rfor_each ["local_as"; "remote_as"] neighbor_details reconcile_as ;;
  addr <~ subscript neighbor_details "local_address" ;;
  addr <~ split_plus addr ;;
  let neighbor_details := dict_set neighbor_details "local_address" addr in
  p <~ dict_pop neighbor_details "rib" ;;
  neighbors_rib <~ py_items (fst p) ;;
  rfor_each neighbors_rib (snd p) append_rib.

Definition bgp_detail_entry (bgp_detail : dict) (neighbor : string * fields)
  : result dict :=
  neighbor_details <~ neighbor_record (snd neighbor) ;;
  Ok (dict_set bgp_detail (split_head "+" (fst neighbor)) (PDict neighbor_details)).

Definition get_bgp_neighbors_detail (dev : device) : M driver dict :=
  rpc <- rpc_get "junos_bgp_neighbors_table" (junos_bgp_neighbors_table dev) "BGP Neighbors" ;;
  lift (rfor_each (reply_items rpc) [] bgp_detail_entry).

(** [as_path.split(" I ")[0].replace("AS path:", "").replace("I", "")
     .replace("\n Recorded", "").strip()] *)
Definition trim_as_path (as_path : string) : string :=
  strip
    (replace (LF ++ " Recorded") ""
       (replace "I" "" (replace "AS path:" "" (split_head " I " as_path)))).

Definition _bgp_routes_format (repr : pyval -> string) (route_dict : dict)
  (destination : pyval) : result dict :=
  let (prefix_length, route_dict) :=
    dict_pop_default route_dict "prefix_length" (PInt 32) in
  let destination := py_str repr destination ++ "/" ++ py_str repr prefix_length in
  as_path <~ match dict_get_default route_dict "as_path" with
             | PNone => Ok PNone
             | PStr s => Ok (PStr (trim_as_path s))
             | _ => Raise (AttributeError "split")
             end ;;
  let communities := dict_get_default route_dict "communities" in
  let communities :=
    if negb (is_none communities) && negb (is_list communities)
    then PList [communities] else communities in
  next_hop <~ subscript route_dict "next_hop" ;;
  local_preference <~ subscript route_dict "local_preference" ;;
  metric <~ subscript route_dict "metric" ;;
  Ok [(destination,
       PDict [("Next-Hop", next_hop);
              ("Local Preference", local_preference);
              ("AS-Path", as_path);
              ("MED", metric);
              ("Communities", communities)])].

Definition inet_table (version : Z) : string :=
  "inet" ++ (if version =? 4 then "" else "6") ++ ".0".

Definition get_bgp_neighbor_routes (repr : pyval -> string) (net : netaddr)
  (dev : device) (peer : string) : M driver dict :=
  version <- lift (IPAddress_version net peer) ;;
  let table := inet_table version in
  send_rpc "junos_bgp_rx_route_table" [PStr peer; PStr table] ;;;
  routes_table <-
    match junos_bgp_rx_route_table dev peer table with
    | Ok t => ret (Table t)
    | Raise (RpcError rpcerr) =>
        log_error "Unable to retrieve BGP Rx Routes information:" ;;;
        log_error rpcerr ;;;
        ret EmptyDict
    | Raise e => raise e
    end ;;
  lift (rfor_each (reply_items routes_table) []
          (fun routes route =>
             r <~ _bgp_routes_format repr (dict_of_fields (snd route)) (PStr (fst route)) ;;
             Ok (dict_update routes r))).

(** The local variables of [get_route_to] that live across its loop:
    [routes_table] is the table object until a failure rebinds the name to
    [{}]; [route_output] is unbound until a [get] has succeeded. *)
Record route_to_locals : Type := {
  routes : dict;
  routes_table_is_table : bool;
  route_output : option (items string)
}.

Definition route_to_body (repr : pyval -> string) (net : netaddr) (dev : device)
  (l : route_to_locals) (route : pyval) : M driver route_to_locals :=
  version <- lift (IPNetwork_version net route) ;;
  let table := inet_table version in
  l <-
    (if routes_table_is_table l then
       send_rpc "junos_bgp_route_table" [route; PStr table] ;;;
       match junos_bgp_route_table dev route table with
       | Ok t =>
           ret {| routes := routes l;
                  routes_table_is_table := true;
                  route_output := Some t |}
       | Raise (RpcError rpcerr) =>
           log_error "Unable to retrieve BGP Rx Routes information:" ;;;
           log_error rpcerr ;;;
           ret {| routes := routes l;
                  routes_table_is_table := false;
                  route_output := route_output l |}
       | Raise e => raise e
       end
     else raise (TypeError "get() takes no keyword arguments")) ;;
  output <-
    match route_output l with
    | Some t => ret t
    | None => raise (UnboundLocalError "route_output")
    end ;;
  first <- lift (index output 0) ;;
  let (destination, route_dict) :=
    dict_pop_default (dict_of_fields (snd first)) "destination" (PStr "") in
  r <- lift (_bgp_routes_format repr route_dict destination) ;;
  ret {| routes := dict_update (routes l) r;
         routes_table_is_table := routes_table_is_table l;
         route_output := route_output l |}.

Definition get_route_to (repr : pyval -> string) (net : netaddr) (dev : device)
  (routes_list : pyval) : M driver dict :=
  match routes_list with
  | PList l =>
      locals <- for_each l
                  {| routes := []; routes_table_is_table := true; route_output := None |}
                  (route_to_body repr net dev) ;;
      ret (routes locals)
  | _ => raise (TypeError "Please a valid list of destinations")
  end.

End CustomJunOSDriver.

(** ** [lib/getters.py]: class [Main] *)

Module Main.

(** Interface name to interface record, as [get_interfaces] and the tables
    merged onto it are shaped. *)
Definition table : Type := list (string * dict).

(** One entry of [data["circuits"]], after schema validation has added the
    neighbor keys. *)
Record circuit : Type := {
  port : string;
  clr : string;
  v4_neighbor : pyval;
  v6_neighbor : pyval
}.

Record run_data : Type := {
  hostname : string;
  device_type : string;
  global_router : string;
  circuits : list circuit
}.

(** [napalm_connection] and [juniper_connection]. *)
Inductive session_id : Type := Primary | Secondary.

(** What a device session answers to the getters the workflows call.  The
    drivers behind them are chosen at run time by device type. *)
Record session : Type := {
  get_interfaces : result table;
  get_interfaces_ip : result pyval;
  get_interfaces_counters : result table;
  get_mpls_interfaces_custom : result table;
  get_isis_interfaces_custom : result table;
  get_arp_table_custom : result table;
  get_nd_table_custom : result table;
  get_bgp_neighbor_routes_custom : pyval -> result pyval;
  get_route_to_custom : pyval -> result pyval;
  (** What [close()] raises on this session, if it raises. *)
  close_raises : option exn
}.

(** Code the class calls that lies outside it. *)
Record externals : Type := {
  (** [parsers.format_ip_int] *)
  format_ip_int : pyval -> result table;
  (** [socket.gethostbyaddr(ipaddress)[0]] *)
  gethostbyaddr : string -> result string
}.

Inductive event : Type :=
| OneTimeCode (who : session_id) (at_time : Z)
| Opened (who : session_id) (at_time : Z)
| Slept (requested : Z) (from until : Z)
| Asked (who : session_id) (getter : string) (arg : pyval)
| Closed (who : session_id).

(** The object and its surroundings.  [clock] is what [time.time()] reads, in
    milliseconds; [pending] says how long each coming external operation
    takes; [trace] lists what has happened, oldest first;
    [juniper_connection] says whether that attribute has been set. *)
Record main : Type := {
  clock : Z;
  pending : list N;
  trace : list event;
  start_time : Z;
  juniper_connection : bool
}.

Definition thirty_seconds : Z := 30000.

(** An external operation takes the time the surroundings give it. *)
Definition pass_time : M main unit :=
  modify (fun s =>
            match pending s with
            | [] => s
            | d :: rest =>
                {| clock := clock s + Z.of_N d;
                   pending := rest;
                   trace := trace s;
                   start_time := start_time s;
                   juniper_connection := juniper_connection s |}
            end).

Definition emit (e : event) : M main unit :=
  modify (fun s =>
            {| clock := clock s;
               pending := pending s;
               trace := (trace s ++ [e])%list;
               start_time := start_time s;
               juniper_connection := juniper_connection s |}).

(** [time.time()] *)
Definition time_time : M main Z := fun s => (Ok (clock s), s).

(** [time.sleep(d)]: at least [d] goes by. *)
Definition sleep (d : Z) : M main unit :=
  if d <? 0 then raise (ValueError "sleep length must be non-negative")
  else
    from <- time_time ;;
    modify (fun s =>
              {| clock := clock s + d;
                 pending := pending s;
                 trace := trace s;
                 start_time := start_time s;
                 juniper_connection := juniper_connection s |}) ;;;
    pass_time ;;;
    now <- time_time ;;
    emit (Slept d from now).

(** [self.logins.napalm_connect(...)]: the driver class is looked up, then the
    password is built from the one-time code of that moment. *)
Definition napalm_connect (who : session_id) : M main unit :=
  pass_time ;;;
  now <- time_time ;;
  emit (OneTimeCode who now).

Definition open (who : session_id) : M main unit :=
  pass_time ;;;
  now <- time_time ;;
  emit (Opened who now).

(** [close()] on a session is a call into the driver, which may raise. *)
Definition close (who : session_id) (conn : session) : M main unit :=
  pass_time ;;;
  emit (Closed who) ;;;
  match close_raises conn with
  | Some e => raise e
  | None => ret tt
  end.

(** A getter called on a session. *)
Definition ask {A : Type} (who : session_id) (getter : string) (arg : pyval)
  (answer : result A) : M main A :=
  pass_time ;;;
  emit (Asked who getter arg) ;;;
  lift answer.

Definition __init__ (data : run_data) : M main unit :=
  pass_time ;;;
  pass_time ;;;
  now <- time_time ;;
  modify (fun s =>
            {| clock := clock s;
               pending := pending s;
               trace := trace s;
               start_time := now;
               juniper_connection := juniper_connection s |}) ;;;
  napalm_connect Primary ;;;
  open Primary.

Definition _get_dns_name (ext : externals) (ipaddress : string) : M main string :=
  pass_time ;;;
  match gethostbyaddr ext ipaddress with
  | Ok name => ret (split_head "." name)
  | Raise (GaiError _) => ret ("A record not configured for " ++ ipaddress)
  | Raise e => raise e
  end.

(** [{ifaces_all[k].update(v) for (k, v) in i.items() if ifaces_all.get(k)}] *)
Definition collapse_onto (ifaces_all i : table) : table :=
  fold_left
    (fun acc kv =>
       match dict_get acc (fst kv) with
       | Some r =>
           if truthy (PDict r)
           then dict_set acc (fst kv) (dict_update r (snd kv))
           else acc
       | None => acc
       end)
    i ifaces_all.

(** [for i in ifaces_all: if not ifaces_all[i].get("mpls_enabled"): ...] *)
Definition fill_mpls (ifaces_all : table) : result table :=
  rfor_each (keys ifaces_all) ifaces_all
    (fun acc i =>
       r <~ subscript acc i ;;
       if negb (truthy (dict_get_default r "mpls_enabled"))
       then
         r <~ subscript acc i ;;
         Ok (dict_set acc i (dict_update r [("mpls_enabled", PBool false)]))
       else Ok acc).

(** The two loops that follow the getters. *)
Definition collapse_all (ifaces_all : table) (sources : list table) : result table :=
  fill_mpls (fold_left collapse_onto sources ifaces_all).

Definition _interface_common_getters (ext : externals) (conn : session)
  (extra_inputs : list table) : M main table :=
  ifaces_all <- ask Primary "get_interfaces" PNone (get_interfaces conn) ;;
  raw <- ask Primary "get_interfaces_ip" PNone (get_interfaces_ip conn) ;;
  ip_ifaces <- lift (format_ip_int ext raw) ;;
  mpls <- ask Primary "get_mpls_interfaces_custom" PNone (get_mpls_interfaces_custom conn) ;;
  isis <- ask Primary "get_isis_interfaces_custom" PNone (get_isis_interfaces_custom conn) ;;
  arp <- ask Primary "get_arp_table_custom" PNone (get_arp_table_custom conn) ;;
  nd <- ask Primary "get_nd_table_custom" PNone (get_nd_table_custom conn) ;;
  lift (collapse_all ifaces_all
          ([ip_ifaces; ip_ifaces; mpls; isis; arp; nd] ++ extra_inputs)%list).

(** [v.split(sep)[0]] on a Python value. *)
Definition py_split_head (sep : string) (v : pyval) : result string :=
  match v with
  | PStr s => Ok (split_head sep s)
  | _ => Raise (AttributeError "split")
  end.

(** [d[k].update(e)] *)
Definition update_at (d : dict) (k : string) (e : dict) : result dict :=
  v <~ subscript d k ;;
  match v with
  | PDict r => Ok (dict_set d k (PDict (dict_update r e)))
  | _ => Raise (AttributeError "update")
  end.

(** What [list.extend] iterates over. *)
Fixpoint chars (s : string) : list pyval :=
  match s with
  | EmptyString => []
  | String c s' => PStr (String c EmptyString) :: chars s'
  end.

Definition py_iter (v : pyval) : result (list pyval) :=
  match v with
  | PList l | PTuple l => Ok l
  | PDict d => Ok (map (fun kv => PStr (fst kv)) d)
  | PStr s => Ok (chars s)
  | _ => Raise (TypeError "object is not iterable")
  end.

(** The ["Interface"] value of a circuit's record. *)
Definition interface_block (ext : externals) (c : circuit) (circuit_data : dict)
  : M main pyval :=
  description <- lift (subscript circuit_data "description") ;;
  is_enabled <- lift (subscript circuit_data "is_enabled") ;;
  is_up <- lift (subscript circuit_data "is_up") ;;
  mtu <- lift (subscript circuit_data "mtu") ;;
  tx_errors <- lift (subscript circuit_data "tx_errors") ;;
  tx_discards <- lift (subscript circuit_data "tx_discards") ;;
  rx_errors <- lift (subscript circuit_data "rx_errors") ;;
  rx_discards <- lift (subscript circuit_data "rx_discards") ;;
  mac_address <- lift (subscript circuit_data "mac_address") ;;
  ipv4_address <- lift (subscript circuit_data "ipv4_address") ;;
  let ipv6_address := dict_get_default circuit_data "ipv6_address" in
  address <- lift (py_split_head "/" ipv4_address) ;;
  dns <- _get_dns_name ext address ;;
  arp_nh <- lift (subscript circuit_data "arp_nh") ;;
  arp_nh_mac <- lift (subscript circuit_data "arp_nh_mac") ;;
  ret (PDict
         [("Name", PStr (port c));
          ("Description", description);
          ("Enabled", is_enabled);
          ("Up", is_up);
          ("MTU", mtu);
          ("Counters",
           PDict [("TX Errors", tx_errors);
                  ("TX Discards", tx_discards);
                  ("RX Errors", rx_errors);
                  ("RX Discards", rx_discards)]);
          ("IPv4/IPv6",
           PDict [("MAC", mac_address);
                  ("IPv4 Address", ipv4_address);
                  ("IPv6 Address", ipv6_address);
                  ("DNS", PStr dns);
                  ("ARP/ND",
                   PDict [("ARP Next-Hop", arp_nh);
                          ("ARP NH MAC", arp_nh_mac);
                          ("IPv6 ND Next-Hop", dict_get_default circuit_data "nd_nh");
                          ("ND NH MAC", dict_get_default circuit_data "nd_mac")])])]).

(** The ["IS-IS"] value of a circuit's record. *)
Definition isis_block (circuit_data : dict) : result pyval :=
  neighbor <~ subscript circuit_data "isis_neighbor" ;;
  nh <~ subscript circuit_data "isis_nh" ;;
  metric <~ subscript circuit_data "isis_metric" ;;
  mpls <~ subscript circuit_data "mpls_enabled" ;;
  Ok (PDict [("Neighbor", neighbor); ("NH", nh); ("Metric", metric); ("MPLS", mpls)]).

(** The [else] branch: neighbor addresses the caller left empty are taken from
    the ARP and ND next-hops of the interface. *)
Definition infer_neighbors (c : circuit) (circuit_data : dict) : circuit :=
  let c :=
    if negb (truthy (v4_neighbor c))
    then {| port := port c; clr := clr c;
            v4_neighbor := dict_get_default circuit_data "arp_nh";
            v6_neighbor := v6_neighbor c |}
    else c in
  if negb (truthy (v6_neighbor c))
  then {| port := port c; clr := clr c;
          v4_neighbor := v4_neighbor c;
          v6_neighbor := dict_get_default circuit_data "nd_nh" |}
  else c.

(** The block under [if counter == 0]. *)
Definition open_global_router : M main unit :=
  now <- time_time ;;
  s <- get_state ;;
  let elapsed_time := now - start_time s in
  (if elapsed_time <? thirty_seconds
   then sleep (thirty_seconds - elapsed_time)
   else ret tt) ;;;
  napalm_connect Secondary ;;;
  modify (fun s =>
            {| clock := clock s;
               pending := pending s;
               trace := trace s;
               start_time := start_time s;
               juniper_connection := true |}) ;;;
  open Secondary.

(** The routes of a circuit on a Junos device. *)
Definition junos_routes (conn : session) (c : circuit) : M main pyval :=
  routes_dict <-
    for_each [v4_neighbor c; v6_neighbor c] []
      (fun routes_dict i =>
         if truthy i then
           r <- ask Primary "get_bgp_neighbor_routes_custom" i
                  (get_bgp_neighbor_routes_custom conn i) ;;
           e <- lift (py_dict r) ;;
           ret (dict_update routes_dict e)
         else ret routes_dict) ;;
  ret (PDict routes_dict).

(** The routes of a circuit on any other device, by way of the global router. *)
Definition global_routes (conn global : session) (counter : nat) (c : circuit)
  : M main pyval :=
  routes_list <-
    for_each [v4_neighbor c; v6_neighbor c] []
      (fun routes_list i =>
         if truthy i then
           r <- ask Primary "get_bgp_neighbor_routes_custom" i
                  (get_bgp_neighbor_routes_custom conn i) ;;
           e <- lift (py_iter r) ;;
           ret (routes_list ++ e)%list
         else ret routes_list) ;;
  (if (counter =? 0)%nat then open_global_router else ret tt) ;;;
  s <- get_state ;;
  if juniper_connection s
  then ask Secondary "get_route_to_custom" (PList routes_list)
         (get_route_to_custom global (PList routes_list))
  else raise (AttributeError "juniper_connection").

(** The body of the loop over [enumerate(self.data["circuits"])]. *)
Definition circuit_body (ext : externals) (conn global : session) (data : run_data)
  (interfaces_all : table) (output_dict : dict) (item : nat * circuit)
  : M main dict :=
  let (counter, c) := item in
  circuit_data <- lift (subscript interfaces_all (port c)) ;;
  let label := "CLR-" ++ clr c in
  interface <- interface_block ext c circuit_data ;;
  let output_dict := dict_set output_dict label (PDict [("Interface", interface)]) in
  st <-
    (if truthy (dict_get_default circuit_data "isis_state") then
       isis <- lift (isis_block circuit_data) ;;
       output_dict <- lift (update_at output_dict label [("IS-IS", isis)]) ;;
       ret (output_dict, c)
     else ret (output_dict, infer_neighbors c circuit_data)) ;;
  let (output_dict, c) := st in
  routes_dict <-
    (if (device_type data =? "junos")%string
     then junos_routes conn c
     else global_routes conn global counter c) ;;
  lift (update_at output_dict label [("BGP", routes_dict)]).

(** [enumerate(l)] *)
Definition enumerate {A : Type} (l : list A) : list (nat * A) :=
  combine (seq 0 (List.length l)) l.

(** The sessions are closed once the loop has ended.  Of the secondary
    session's [close()] an [AttributeError] is passed over, the one the unset
    attribute gives as well as one the call itself raises. *)
Definition circuits_pms (ext : externals) (conn global : session) (data : run_data)
  : M main dict :=
  iface_counters <- ask Primary "get_interfaces_counters" PNone
                      (get_interfaces_counters conn) ;;
  interfaces_all <- _interface_common_getters ext conn [iface_counters] ;;
  output_dict <- for_each (enumerate (circuits data)) []
                   (circuit_body ext conn global data interfaces_all) ;;
  close Primary conn ;;;
  s <- get_state ;;
  (if juniper_connection s
   then except_attribute_error (close Secondary global)
   else ret tt) ;;;
  ret output_dict.

(** A run of the per-circuit workflow: the object is built, then asked. *)
Definition run (ext : externals) (conn global : session) (data : run_data)
  : M main dict :=
  __init__ data ;;;
  circuits_pms ext conn global data.

End Main.

(** ** Sample inputs *)

Module Sample.

(** Renders nothing for containers; the samples format scalars only. *)
Definition repr : pyval -> string := fun _ => "".

(** A [netaddr] that knows one MAC spelling and tells IPv6 by a colon. *)
Definition net : netaddr :=
  {| EUI := fun v =>
              match v with
              | PStr s =>
                  if (s =? "00:11:22:33:44:55")%string
                  then Ok "00-11-22-33-44-55"
                  else Raise (AddrFormatError "failed to detect EUI version")
              | _ => Raise (TypeError "not str() or int()")
              end;
     IPAddress_version := fun s => Ok (if has_char ":"%char s then 6 else 4);
     IPNetwork_version := fun v =>
                            match v with
                            | PStr s => Ok (if has_char ":"%char s then 6 else 4)
                            | _ => Raise (AddrFormatError "invalid IPNetwork")
                            end |}.

Definition fresh : driver := {| log := []; rpc_calls := [] |}.

(** A device whose transport fails on every call. *)
Definition unreachable : device :=
  {| ISISAdjacencyTable := Raise (RpcError "timeout");
     ISISInterfaceTable := Raise (RpcError "timeout");
     MPLSInterfaceTable := Raise (RpcError "timeout");
     MSDPNeighborTable := Raise (RpcError "timeout");
     PIMNeighborTable := Raise (RpcError "timeout");
     ARPTable := Raise (RpcError "timeout");
     NDTable := Raise (RpcError "timeout");
     junos_bgp_neighbors_table := Raise (RpcError "timeout");
     junos_bgp_rx_route_table := fun _ _ => Raise (RpcError "timeout");
     junos_bgp_route_table := fun _ _ => Raise (RpcError "timeout") |}.



(** Two ARP entries, the second with a MAC that does not parse. *)
Definition arp_entries : items string :=
  [("ge-0/0/0", [("ip_address", PStr "192.0.2.1");
                 ("mac_address", PStr "00:11:22:33:44:55")]);
   ("ge-0/0/1", [("ip_address", PStr "192.0.2.2");
                 ("mac_address", PStr "not-a-mac")])].

(** A device that answers the ARP table and fails on the rest. *)
Definition lan : device :=
  {| ISISAdjacencyTable := Raise (RpcError "timeout");
     ISISInterfaceTable := Raise (RpcError "timeout");
     MPLSInterfaceTable := Raise (RpcError "timeout");
     MSDPNeighborTable := Raise (RpcError "timeout");
     PIMNeighborTable := Raise (RpcError "timeout");
     ARPTable := Ok arp_entries;
     NDTable := Raise (RpcError "timeout");
     junos_bgp_neighbors_table := Raise (RpcError "timeout");
     junos_bgp_rx_route_table := fun _ _ => Raise (RpcError "timeout");
     junos_bgp_route_table := fun _ _ => Raise (RpcError "timeout") |}.

(** One adjacency on ge-0/0/0, and two interface tables: one that lists that
    interface and one that lists another. *)
Definition adjacencies : items (list string) :=
  [(["ge-0/0/0.0"; "core1"],
    [("system_name", PStr "core1");
     ("adjacency_state", PBool true);
     ("ipv6", PBool true);
     ("ip_address", PStr "192.0.2.9")])].

Definition isis_interfaces : items (list string) :=
  [(["ge-0/0/0.0"; "2"], [("metric", PStr "10")])].

Definition other_interfaces : items (list string) :=
  [(["ge-0/0/5.0"; "2"], [("metric", PStr "10")])].

Definition isis_device (ints : items (list string)) : device :=
  {| ISISAdjacencyTable := Ok adjacencies;
     ISISInterfaceTable := Ok ints;
     MPLSInterfaceTable := Raise (RpcError "timeout");
     MSDPNeighborTable := Raise (RpcError "timeout");
     PIMNeighborTable := Raise (RpcError "timeout");
     ARPTable := Raise (RpcError "timeout");
     NDTable := Raise (RpcError "timeout");
     junos_bgp_neighbors_table := Raise (RpcError "timeout");
     junos_bgp_rx_route_table := fun _ _ => Raise (RpcError "timeout");
     junos_bgp_route_table := fun _ _ => Raise (RpcError "timeout") |}.

(** BGP neighbors as the neighbors view lists them: the first takes its AS
    numbers from the fallback fields, the second lacks [remote_as_2], the
    third has a routing table that goes by the name of a fallback field. *)
Definition neighbor_fields : fields :=
  [("up", PBool true);
   ("local_as", PNone);
   ("remote_as", PNone);
   ("local_as_2", PInt 64512);
   ("remote_as_2", PInt 65000);
   ("local_address", PStr "192.0.2.1+179");
   ("rib", PDict [("inet.0", PDict [("received_prefix_count", PInt 5)])])].

Definition incomplete_fields : fields :=
  [("up", PBool true);
   ("local_as", PInt 64512);
   ("remote_as", PInt 65000);
   ("local_as_2", PInt 64512);
   ("remote_as_2", PNone);
   ("local_address", PStr "192.0.2.1+179");
   ("rib", PDict [])].

Definition clashing_fields : fields :=
  [("up", PBool true);
   ("local_as", PInt 64512);
   ("remote_as", PInt 65000);
   ("local_as_2", PInt 64512);
   ("remote_as_2", PInt 65000);
   ("local_address", PStr "192.0.2.1+179");
   ("rib", PDict [("local_as_2", PDict [("received_prefix_count", PInt 5)])])].

Definition bgp_device (fs : fields) : device :=
  {| ISISAdjacencyTable := Raise (RpcError "timeout");
     ISISInterfaceTable := Raise (RpcError "timeout");
     MPLSInterfaceTable := Raise (RpcError "timeout");
     MSDPNeighborTable := Raise (RpcError "timeout");
     PIMNeighborTable := Raise (RpcError "timeout");
     ARPTable := Raise (RpcError "timeout");
     NDTable := Raise (RpcError "timeout");
     junos_bgp_neighbors_table := Ok [("192.0.2.2+52000", fs)];
     junos_bgp_rx_route_table := fun _ _ => Raise (RpcError "timeout");
     junos_bgp_route_table := fun _ _ => Raise (RpcError "timeout") |}.

End Sample.

(** ** Vocabulary of the properties *)


Definition logged (s : driver) (lines : list string) : driver :=
  {| log := log s ++ lines; rpc_calls := rpc_calls s |}.

Definition called (s : driver) (table : string) (args : list pyval) : driver :=
  {| log := log s; rpc_calls := rpc_calls s ++ [(table, args)] |}.


(** [netaddr.EUI] given a string: it parses it or raises [AddrFormatError]. *)
Definition strings_parse_or_fail (net : netaddr) : Prop :=
  forall mac,
    (exists s, EUI net (PStr mac) = Ok s) \/
    (exists msg, EUI net (PStr mac) = Raise (AddrFormatError msg)).

(** Every entry of an ARP or ND table has the two fields of its view, the
    next-hop and then the MAC, and the MAC is a string. *)
Definition mac_string_entries (table : items string) : Prop :=
  Forall
    (fun entry =>
       exists n0 nh n1 mac rest, snd entry = (n0, nh) :: (n1, PStr mac) :: rest)
    table.

(** What a loop leaves that stores [val e] under [key e] for each entry. *)
Definition stored {B : Type} (key : B -> string) (val : B -> pyval)
  (l : list B) (acc : dict) : dict :=
  fold_left (fun a e => dict_set a (key e) (val e)) l acc.

(** The MAC field a string gives: normalized, or null when it does not parse. *)
Definition mac_field (net : netaddr) (mac : string) : pyval :=
  match EUI net (PStr mac) with
  | Ok s => PStr (replace "-" ":" s)
  | Raise _ => PNone
  end.

(** The records the ARP and ND getters store for an entry of that shape. *)
Definition arp_record (net : netaddr) (entry : string * fields) : pyval :=
  match snd entry with
  | (_, nh) :: (_, PStr mac) :: _ =>
      PDict [("arp_nh_mac", mac_field net mac); ("arp_nh", nh)]
  | _ => PNone
  end.

Definition nd_record (net : netaddr) (entry : string * fields) : pyval :=
  match snd entry with
  | (_, nh) :: (_, PStr mac) :: _ =>
      PDict [("nd_nh", nh); ("nd_nh_mac", mac_field net mac)]
  | _ => PNone
  end.

(** An IS-IS adjacency entry has a key with the interface name first and the
    four fields of its view; an IS-IS interface entry has such a key and the
    metric as its first field. *)
Definition adjacency_shaped (entry : list string * fields) : bool :=
  match entry with
  | (_ :: _, _ :: _ :: _ :: _ :: _) => true
  | _ => false
  end.

Definition interface_shaped (entry : list string * fields) : bool :=
  match entry with
  | (_ :: _, _ :: _) => true
  | _ => false
  end.

Definition entry_name (entry : list string * fields) : string :=
  hd "" (fst entry).

(** [int_dict]: interface name to the metric the interface table lists. *)
Definition interface_metrics (ints : items (list string)) : dict :=
  stored entry_name
    (fun e => match snd e with f0 :: _ => snd f0 | [] => PNone end) ints [].

(** An adjacency joins when the interface table has its interface, with a
    metric that [int] accepts. *)
Definition joins (int_dict : dict) (entry : list string * fields) : bool :=
  match dict_get int_dict (entry_name entry) with
  | Some m => match py_int m with Ok _ => true | Raise _ => false end
  | None => false
  end.

(** The record of an adjacency that joins. *)
Definition isis_record (int_dict : dict) (entry : list string * fields) : pyval :=
  match snd entry, dict_get int_dict (entry_name entry) with
  | f0 :: f1 :: f2 :: f3 :: _, Some m =>
      match py_int m with
      | Ok z =>
          PDict [("isis_neighbor", snd f0);
                 ("isis_state", snd f1);
                 ("isis_nh", snd f3);
                 ("isis_ipv6", snd f2);
                 ("isis_metric", PInt z)]
      | Raise _ => PNone
      end
  | _, _ => PNone
  end.

(** A raw neighbor entry supplies field [k] when it lists it with a value that
    is not null. *)
Definition supplies (fs : fields) (k : string) : bool :=
  existsb (fun elem => (fst elem =? k)%string && negb (is_none (snd elem))) fs.

(** The first of the two fallback fields an entry fails to supply. *)
Definition missing_fallback (fs : fields) : string :=
  if supplies fs "local_as_2" then "remote_as_2" else "local_as_2".

(** The value reconciliation keeps of an unsuffixed field and its fallback. *)
Definition kept (unsuffixed fallback : pyval) : pyval :=
  if truthy unsuffixed then unsuffixed else fallback.

(** The names reconciliation and port stripping work on. *)
Definition reconciled_name (k : string) : bool :=
  (k =? "local_as")%string || (k =? "remote_as")%string
  || (k =? "local_as_2")%string || (k =? "remote_as_2")%string
  || (k =? "local_address")%string.

(** No routing table of the entry's [rib] goes by one of those names. *)
Definition rib_names_apart (fs : fields) : bool :=
  match dict_get (CustomJunOSDriver.source_details fs) "rib" with
  | Some (PDict rib) => forallb (fun t => negb (reconciled_name (fst t))) rib
  | _ => true
  end.

(** Some table reported field [f] for interface [k]: the base inventory or
    one of the tables merged onto it has it in its record for [k]. *)
Definition reported (base : Main.table) (sources : list Main.table)
  (k f : string) : Prop :=
  (exists r, dict_get base k = Some r /\ In f (keys r)) \/
  (exists src r, In src sources /\ In (k, r) src /\ In f (keys r)).

(** What the fill-in pass may do to a record. *)
Definition filled (r0 r : dict) : Prop :=
  (forall f, In f (keys r) -> In f (keys r0) \/ f = "mpls_enabled") /\
  (forall v, dict_get r "mpls_enabled" = Some v ->
             v = PBool false \/ dict_get r0 "mpls_enabled" = Some v) /\
  (dict_get r0 "mpls_enabled" <> None -> dict_get r "mpls_enabled" <> None).

(** What the merge pass promises of its result [out], given the base
    inventory and the tables merged onto it: the same interfaces; in every
    record an [mpls_enabled] field, which is [False] unless some table
    reported the field for that interface; and no other field but those some
    table reported for that interface. *)
Definition merged (base : Main.table) (sources : list Main.table)
  (out : Main.table) : Prop :=
  keys out = keys base /\
  forall k r,
    dict_get out k = Some r ->
    (exists v, dict_get r "mpls_enabled" = Some v /\
               (~ reported base sources k "mpls_enabled" -> v = PBool false)) /\
    (forall f, In f (keys r) -> f = "mpls_enabled" \/ reported base sources k f).

(** ** A sample run of the per-circuit workflow *)

Module SampleRun.

Import Main.

(** Two interfaces: ge-0/0/0 faces the core and runs IS-IS, ge-0/0/1 faces
    a customer. *)
Definition inventory : table :=
  [("ge-0/0/0",
    [("is_enabled", PBool true); ("is_up", PBool true);
     ("description", PStr "core1"); ("mtu", PInt 9192);
     ("mac_address", PStr "00:11:22:33:44:00")]);
   ("ge-0/0/1",
    [("is_enabled", PBool true); ("is_up", PBool true);
     ("description", PStr "customer"); ("mtu", PInt 1500);
     ("mac_address", PStr "00:11:22:33:44:01")])].

Definition counters : table :=
  [("ge-0/0/0",
    [("tx_errors", PInt 0); ("tx_discards", PInt 0);
     ("rx_errors", PInt 0); ("rx_discards", PInt 0)]);
   ("ge-0/0/1",
    [("tx_errors", PInt 0); ("tx_discards", PInt 3);
     ("rx_errors", PInt 0); ("rx_discards", PInt 0)])].

Definition addresses : table :=
  [("ge-0/0/0", [("ipv4_address", PStr "192.0.2.1/31")]);
   ("ge-0/0/1", [("ipv4_address", PStr "192.0.2.5/30");
                 ("ipv6_address", PStr "2001:db8::5/64")])].

(** The MPLS table also lists an interface the inventory does not have. *)
Definition mpls_table : table :=
  [("ge-0/0/0", [("mpls_enabled", PBool true)]);
   ("ge-0/0/9", [("mpls_enabled", PBool true)])].

Definition isis_table : table :=
  [("ge-0/0/0",
    [("isis_neighbor", PStr "core1"); ("isis_state", PBool true);
     ("isis_nh", PStr "192.0.2.0"); ("isis_ipv6", PBool true);
     ("isis_metric", PInt 10)])].

Definition arp_table : table :=
  [("ge-0/0/0", [("arp_nh_mac", PStr "00:aa:bb:cc:dd:00"); ("arp_nh", PStr "192.0.2.0")]);
   ("ge-0/0/1", [("arp_nh_mac", PStr "00:aa:bb:cc:dd:01"); ("arp_nh", PStr "192.0.2.6")])].

Definition nd_table : table :=
  [("ge-0/0/1", [("nd_nh", PStr "2001:db8::6"); ("nd_nh_mac", PStr "00:aa:bb:cc:dd:01")])].

Definition route : pyval :=
  PDict [("Next-Hop", PStr "192.0.2.6"); ("Local Preference", PInt 100);
         ("AS-Path", PStr "65000"); ("MED", PInt 0); ("Communities", PNone)].

(** The device under maintenance: not a Junos device, so a neighbor's routes
    come back as a list of prefixes. *)
Definition edge : session :=
  {| get_interfaces := Ok inventory;
     get_interfaces_ip := Ok PNone;
     get_interfaces_counters := Ok counters;
     get_mpls_interfaces_custom := Ok mpls_table;
     get_isis_interfaces_custom := Ok isis_table;
     get_arp_table_custom := Ok arp_table;
     get_nd_table_custom := Ok nd_table;
     get_bgp_neighbor_routes_custom := fun _ => Ok (PList [PStr "198.51.100.0/24"]);
     get_route_to_custom := fun _ => Raise (AttributeError "get_route_to_custom");
     close_raises := None |}.

(** The global router, asked for routes to destinations only. *)
Definition core : session :=
  {| get_interfaces := Ok [];
     get_interfaces_ip := Ok PNone;
     get_interfaces_counters := Ok [];
     get_mpls_interfaces_custom := Ok [];
     get_isis_interfaces_custom := Ok [];
     get_arp_table_custom := Ok [];
     get_nd_table_custom := Ok [];
     get_bgp_neighbor_routes_custom := fun _ => Ok (PDict []);
     get_route_to_custom :=
       fun l => match l with
                | PList [] => Ok (PDict [])
                | _ => Ok (PDict [("198.51.100.0/24", route)])
                end;
     close_raises := None |}.

Definition ext : externals :=
  {| format_ip_int := fun _ => Ok addresses;
     gethostbyaddr := fun _ => Ok "edge1.example.net" |}.

Definition interior : circuit :=
  {| port := "ge-0/0/0"; clr := "1001"; v4_neighbor := PNone; v6_neighbor := PNone |}.

Definition exterior : circuit :=
  {| port := "ge-0/0/1"; clr := "1002"; v4_neighbor := PNone; v6_neighbor := PNone |}.

Definition data : run_data :=
  {| hostname := "edge1"; device_type := "iosxr"; global_router := "core1";
     circuits := [interior; exterior] |}.

(** The surroundings before the object is built.  The name lookup and the
    keyring take 20 ms and 30 ms; finding the driver class, which comes
    between the reading of the start time and the one-time code, takes 400 ms;
    every later operation takes 100 ms. *)
Definition start : main :=
  {| clock := 1700000000000;
     pending := [20; 30; 400] ++ repeat 100 40;
     trace := [];
     start_time := 0;
     juniper_connection := false |}%N.

(** The interface table of the run, as the merge pass leaves it. *)
Definition collected : table :=
  Eval vm_compute in
    match collapse_all inventory
            [addresses; addresses; mpls_table; isis_table; arp_table; nd_table; counters]
    with
    | Ok t => t
    | Raise _ => []
    end.

End SampleRun.

(** ** Vocabulary of the pacing properties *)

Definition is_secondary_open (e : Main.event) : bool :=
  match e with
  | Main.Opened Main.Secondary _ => true
  | _ => false
  end.





(** The neighbor addresses the primary session was asked routes of. *)
Definition asked_routes (tr : list Main.event) : list pyval :=
  flat_map
    (fun e =>
       match e with
       | Main.Asked Main.Primary getter arg =>
           if (getter =? "get_bgp_neighbor_routes_custom")%string then [arg] else []
       | _ => []
       end)
    tr.

(** [m], when it returns, has asked the primary session the routes of the
    neighbors [l], in that order, and of no other. *)
Definition asking {A : Type} (l : list pyval) (m : M Main.main A) : Prop :=
  forall s a s',
    m s = (Ok a, s') ->
    asked_routes (Main.trace s') = (asked_routes (Main.trace s) ++ l)%list.

(** The neighbor address a circuit's route lookup uses: the caller's when it
    is not empty, the interface's next-hop otherwise. *)
Definition or_next_hop (supplied : pyval) (circuit_data : dict) (field : string)
  : pyval :=
  if truthy supplied then supplied else dict_get_default circuit_data field.

(** The routes stored for a circuit whose route lookup uses the neighbor
    addresses [addresses], an empty address being passed over.  On the Junos
    device type they are the answers of the device under maintenance for
    these addresses, merged into one dict; on any other type, what the global
    router says of the prefixes the device lists for these addresses. *)
Definition neighbor_routes (conn global : Main.session) (data : Main.run_data)
  (addresses : list pyval) : result pyval :=
  if (Main.device_type data =? "junos")%string then
    routes_dict <~ rfor_each (filter truthy addresses) []
                     (fun routes_dict i =>
                        r <~ Main.get_bgp_neighbor_routes_custom conn i ;;
                        e <~ py_dict r ;;
                        Ok (dict_update routes_dict e)) ;;
    Ok (PDict routes_dict)
  else
    routes_list <~ rfor_each (filter truthy addresses) []
                     (fun routes_list i =>
                        r <~ Main.get_bgp_neighbor_routes_custom conn i ;;
                        e <~ Main.py_iter r ;;
                        Ok (routes_list ++ e)%list) ;;
    Main.get_route_to_custom global (PList routes_list).

(** The record of circuit [c] in [out], given the interface record
    [circuit_data] collected for its port.  With a truthy [isis_state]: the
    "Interface" block, an "IS-IS" block made of the interface record's
    neighbor, next-hop, metric and MPLS flag, and a "BGP" block that holds the
    routes of the addresses the caller supplied, whatever the ARP and ND
    next-hops of the interface are.  Otherwise: the "Interface" block and a
    "BGP" block that holds the routes of the caller's addresses, each empty
    one replaced by the interface's [arp_nh] or [nd_nh]. *)
Definition circuit_record (conn global : Main.session) (data : Main.run_data)
  (circuit_data : dict) (c : Main.circuit) (out : dict) : Prop :=
  (truthy (dict_get_default circuit_data "isis_state") = true ->
   exists interface neighbor nh metric mpls routes,
     dict_get circuit_data "isis_neighbor" = Some neighbor /\
     dict_get circuit_data "isis_nh" = Some nh /\
     dict_get circuit_data "isis_metric" = Some metric /\
     dict_get circuit_data "mpls_enabled" = Some mpls /\
     neighbor_routes conn global data [Main.v4_neighbor c; Main.v6_neighbor c] =
     Ok routes /\
     dict_get out ("CLR-" ++ Main.clr c) =
     Some (PDict [("Interface", interface);
                  ("IS-IS", PDict [("Neighbor", neighbor); ("NH", nh);
                                   ("Metric", metric); ("MPLS", mpls)]);
                  ("BGP", routes)])) /\
  (truthy (dict_get_default circuit_data "isis_state") = false ->
   exists interface routes,
     neighbor_routes conn global data
       [or_next_hop (Main.v4_neighbor c) circuit_data "arp_nh";
        or_next_hop (Main.v6_neighbor c) circuit_data "nd_nh"] = Ok routes /\
     dict_get out ("CLR-" ++ Main.clr c) =
     Some (PDict [("Interface", interface); ("BGP", routes)])).

(** The neighbor addresses whose routes the workflow asks for a circuit: on
    a link with a truthy [isis_state], the addresses the caller supplied; on
    any other link, the caller's address where it is not empty and the
    interface's [arp_nh] (IPv4) or [nd_nh] (IPv6) where it is.  An address
    that is empty in the end is passed over. *)
Definition lookup_neighbors (interfaces_all : Main.table) (c : Main.circuit)
  : list pyval :=
  match dict_get interfaces_all (Main.port c) with
  | Some circuit_data =>
      if truthy (dict_get_default circuit_data "isis_state")
      then filter truthy [Main.v4_neighbor c; Main.v6_neighbor c]
      else filter truthy
             [or_next_hop (Main.v4_neighbor c) circuit_data "arp_nh";
              or_next_hop (Main.v6_neighbor c) circuit_data "nd_nh"]
  | None => []
  end.

(** ** Vocabulary of the further properties of the driver *)

(** The two lines a caught remote-procedure failure leaves in the log. *)
Definition failure_lines (msg rpcerr : string) : list string :=
  ["Unable to retrieve " ++ msg ++ " information:"; rpcerr].

(** What the route-to-destinations getter makes of one destination whose
    call is answered: the record of the first route listed, keyed by its
    destination; [None] when the prefix does not parse, the call raises, no
    route is listed or the route cannot be formatted. *)
Definition destination_record (repr : pyval -> string) (net : netaddr)
  (dev : device) (route : pyval) : option dict :=
  match IPNetwork_version net route with
  | Ok version =>
      match junos_bgp_route_table dev route (CustomJunOSDriver.inet_table version) with
      | Ok (first :: _) =>
          let (destination, route_dict) :=
            dict_pop_default (dict_of_fields (snd first)) "destination" (PStr "") in
          match CustomJunOSDriver._bgp_routes_format repr route_dict destination with
          | Ok r => Some r
          | Raise _ => None
          end
      | _ => None
      end
  | Raise _ => None
  end.

(** The call sent for a destination. *)
Definition destination_call (net : netaddr) (route : pyval) : string * list pyval :=
  ("junos_bgp_route_table",
   [route;
    PStr (CustomJunOSDriver.inet_table
            (match IPNetwork_version net route with Ok v => v | Raise _ => 0 end))]).

(** The records of a list of destinations, merged in order. *)
Definition destination_records (repr : pyval -> string) (net : netaddr)
  (dev : device) (l : list pyval) (routes : dict) : dict :=
  fold_left
    (fun acc route =>
       match destination_record repr net dev route with
       | Some r => dict_update acc r
       | None => acc
       end)
    l routes.

(** The record the received-routes getter stores for a route it can format. *)
Definition received_route_key (repr : pyval -> string) (route : string * fields)
  : string :=
  match CustomJunOSDriver._bgp_routes_format repr (dict_of_fields (snd route))
          (PStr (fst route)) with
  | Ok ((k, _) :: _) => k
  | _ => ""
  end.

Definition received_route_record (repr : pyval -> string) (route : string * fields)
  : pyval :=
  match CustomJunOSDriver._bgp_routes_format repr (dict_of_fields (snd route))
          (PStr (fst route)) with
  | Ok ((_, v) :: _) => v
  | _ => PNone
  end.

(** The record stored for a BGP neighbor entry. *)
Definition neighbor_value (entry : string * fields) : pyval :=
  match CustomJunOSDriver.neighbor_record (snd entry) with
  | Ok r => PDict r
  | Raise _ => PNone
  end.

Definition neighbor_key (entry : string * fields) : string :=
  split_head "+" (fst entry).

(** The device lists a first route for the destination and the route's
    fields format. *)
Definition answered (repr : pyval -> string) (net : netaddr) (dev : device)
  (route : pyval) : bool :=
  match destination_record repr net dev route with
  | Some _ => true
  | None => false
  end.

(** The driver after the calls for the destinations [l]. *)
Definition after_calls (net : netaddr) (s : driver) (l : list pyval) : driver :=
  {| log := log s; rpc_calls := rpc_calls s ++ map (destination_call net) l |}.

(** The first route of the last answer, formatted, is already in [routes]. *)
Definition settled (repr : pyval -> string)
  (l : CustomJunOSDriver.route_to_locals) : Prop :=
  forall t, CustomJunOSDriver.route_output l = Some t ->
    exists first rest r,
      t = first :: rest /\
      (let (destination, route_dict) :=
         dict_pop_default (dict_of_fields (snd first)) "destination" (PStr "") in
       CustomJunOSDriver._bgp_routes_format repr route_dict destination) = Ok r /\
      dict_update (CustomJunOSDriver.routes l) r = CustomJunOSDriver.routes l.

(** A device that is reachable and answers with an exception of another
    kind, and one that lists one route for every destination but one. *)
Module SampleRoutes.

Definition closed : device :=
  {| ISISAdjacencyTable := Raise (TypeError "session closed");
     ISISInterfaceTable := Raise (TypeError "session closed");
     MPLSInterfaceTable := Raise (TypeError "session closed");
     MSDPNeighborTable := Raise (TypeError "session closed");
     PIMNeighborTable := Raise (TypeError "session closed");
     ARPTable := Raise (TypeError "session closed");
     NDTable := Raise (TypeError "session closed");
     junos_bgp_neighbors_table := Raise (TypeError "session closed");
     junos_bgp_rx_route_table := fun _ _ => Raise (TypeError "session closed");
     junos_bgp_route_table := fun _ _ => Raise (TypeError "session closed") |}.

Definition listed (destination : string) : items string :=
  [(destination,
    [("destination", PStr destination);
     ("prefix_length", PInt 24);
     ("next_hop", PStr "192.0.2.1");
     ("local_preference", PInt 100);
     ("metric", PInt 0);
     ("as_path", PStr "AS path: 65000 I");
     ("communities", PNone)])].

(** Routes to 198.51.100.0 and 203.0.113.0 are listed, 192.0.2.128/25 is
    unknown, and the call for 10.0.0.0/8 fails. *)
Definition router : device :=
  {| ISISAdjacencyTable := Ok [];
     ISISInterfaceTable := Ok [];
     MPLSInterfaceTable := Ok [];
     MSDPNeighborTable := Ok [];
     PIMNeighborTable := Ok [];
     ARPTable := Ok [];
     NDTable := Ok [];
     junos_bgp_neighbors_table := Ok [];
     junos_bgp_rx_route_table :=
       fun peer _ =>
         if (peer =? "192.0.2.1")%string
         then Ok (listed "198.51.100.0" ++ listed "203.0.113.0")%list
         else Raise (RpcError "peer not found");
     junos_bgp_route_table :=
       fun route _ =>
         match route with
         | PStr "198.51.100.0/24" => Ok (listed "198.51.100.0")
         | PStr "203.0.113.0/24" => Ok (listed "203.0.113.0")
         | PStr "10.0.0.0/8" => Raise (RpcError "timeout")
         | _ => Ok []
         end |}.

End SampleRoutes.

(** A device answering with a given table of BGP neighbors, an entry whose
    [rib] is null, one whose local address is a number, and a device whose
    IS-IS interface table cannot be retrieved. *)
Module SampleNeighbors.

Definition peers (table : items string) : device :=
  {| ISISAdjacencyTable := Ok [];
     ISISInterfaceTable := Ok [];
     MPLSInterfaceTable := Ok [];
     MSDPNeighborTable := Ok [];
     PIMNeighborTable := Ok [];
     ARPTable := Ok [];
     NDTable := Ok [];
     junos_bgp_neighbors_table := Ok table;
     junos_bgp_rx_route_table := fun _ _ => Ok [];
     junos_bgp_route_table := fun _ _ => Ok [] |}.

Definition no_rib_fields : fields :=
  [("up", PBool true);
   ("local_as", PInt 64512);
   ("remote_as", PInt 65000);
   ("local_as_2", PInt 64512);
   ("remote_as_2", PInt 65000);
   ("local_address", PStr "192.0.2.1+179");
   ("rib", PNone)].

Definition numeric_address_fields : fields :=
  [("local_as", PInt 64512);
   ("remote_as", PInt 65000);
   ("local_as_2", PInt 64512);
   ("remote_as_2", PInt 65000);
   ("local_address", PInt 3221225985);
   ("rib", PDict [])].

(** A device that lists its adjacencies and fails on the interface table. *)
Definition adjacent : device :=
  {| ISISAdjacencyTable := Ok Sample.adjacencies;
     ISISInterfaceTable := Raise (RpcError "timeout");
     MPLSInterfaceTable := Ok [];
     MSDPNeighborTable := Ok [];
     PIMNeighborTable := Ok [];
     ARPTable := Ok [];
     NDTable := Ok [];
     junos_bgp_neighbors_table := Ok [];
     junos_bgp_rx_route_table := fun _ _ => Ok [];
     junos_bgp_route_table := fun _ _ => Ok [] |}.

(** Two sessions with the same neighbor, on different ports. *)
Definition two_sessions : items string :=
  [("192.0.2.2+52000", Sample.neighbor_fields);
   ("192.0.2.2+179", Sample.clashing_fields)].

End SampleNeighbors.

(** ** Vocabulary of the further properties of the orchestrator *)

(** An event that leaves the secondary session alone and is no sleep. *)
Definition primary_only (e : Main.event) : Prop :=
  match e with
  | Main.OneTimeCode Main.Secondary _ => False
  | Main.Opened Main.Secondary _ => False
  | Main.Asked Main.Secondary _ _ => False
  | Main.Closed Main.Secondary => False
  | Main.Slept _ _ _ => False
  | _ => True
  end.

Definition not_closed (e : Main.event) : Prop :=
  match e with
  | Main.Closed _ => False
  | _ => True
  end.

(** From [s] to [s']: the events added all satisfy [P], and with [fixed] the
    attribute [juniper_connection] is as it was. *)
Definition confined (P : Main.event -> Prop) (fixed : bool) (s s' : Main.main)
  : Prop :=
  (fixed = true -> Main.juniper_connection s' = Main.juniper_connection s) /\
  exists new, Main.trace s' = (Main.trace s ++ new)%list /\ Forall P new.

(** [m] stays within that, whether it returns or raises. *)
Definition within {A : Type} (P : Main.event -> Prop) (fixed : bool)
  (m : M Main.main A) : Prop :=
  forall s r s', m s = (r, s') -> confined P fixed s s'.

(** The events with which a workflow that returns hands its sessions back. *)
Definition closing (s' : Main.main) : list Main.event :=
  Main.Closed Main.Primary ::
  (if Main.juniper_connection s' then [Main.Closed Main.Secondary] else []).

(** The per-circuit workflow up to the end of its loop, before it closes the
    sessions. *)
Definition circuits_collected (ext : Main.externals) (conn global : Main.session)
  (data : Main.run_data) : M Main.main dict :=
  iface_counters <- Main.ask Main.Primary "get_interfaces_counters" PNone
                      (Main.get_interfaces_counters conn) ;;
  interfaces_all <- Main._interface_common_getters ext conn [iface_counters] ;;
  for_each (Main.enumerate (Main.circuits data)) []
    (Main.circuit_body ext conn global data interfaces_all).

(** Further runs: a Junos device under maintenance, a circuit on a port the
    inventory does not have, and a session whose [close()] raises. *)
Module SampleSessions.

Import Main.

Definition junos_edge : session :=
  {| get_interfaces := Ok SampleRun.inventory;
     get_interfaces_ip := Ok PNone;
     get_interfaces_counters := Ok SampleRun.counters;
     get_mpls_interfaces_custom := Ok SampleRun.mpls_table;
     get_isis_interfaces_custom := Ok SampleRun.isis_table;
     get_arp_table_custom := Ok SampleRun.arp_table;
     get_nd_table_custom := Ok SampleRun.nd_table;
     get_bgp_neighbor_routes_custom :=
       fun _ => Ok (PDict [("198.51.100.0/24", SampleRun.route)]);
     get_route_to_custom := fun _ => Raise (AttributeError "get_route_to_custom");
     close_raises := None |}.

(** The device of the sample run, with a session that is lost by the time it
    is closed. *)
Definition lost_edge : session :=
  {| get_interfaces := get_interfaces SampleRun.edge;
     get_interfaces_ip := get_interfaces_ip SampleRun.edge;
     get_interfaces_counters := get_interfaces_counters SampleRun.edge;
     get_mpls_interfaces_custom := get_mpls_interfaces_custom SampleRun.edge;
     get_isis_interfaces_custom := get_isis_interfaces_custom SampleRun.edge;
     get_arp_table_custom := get_arp_table_custom SampleRun.edge;
     get_nd_table_custom := get_nd_table_custom SampleRun.edge;
     get_bgp_neighbor_routes_custom := get_bgp_neighbor_routes_custom SampleRun.edge;
     get_route_to_custom := get_route_to_custom SampleRun.edge;
     close_raises := Some (RpcError "connection lost") |}.

Definition junos_data : run_data :=
  {| hostname := "edge2"; device_type := "junos"; global_router := "core1";
     circuits := [SampleRun.interior; SampleRun.exterior] |}.

Definition stray : circuit :=
  {| port := "ge-0/0/7"; clr := "1003"; v4_neighbor := PNone; v6_neighbor := PNone |}.

Definition stray_data : run_data :=
  {| hostname := "edge1"; device_type := "iosxr"; global_router := "core1";
     circuits := [SampleRun.exterior; stray] |}.

End SampleSessions.

(** ** [lib/getters.py]: the interfaces [get_migration_data_full] plans with *)

Module MigrationData.

Definition unneeded_prefixes : list string := ["Mgmt"; "Null"; "nVFab"; "Loop"; "PTP"].

(** [s.startswith(prefixes)], [prefixes] a tuple. *)
Definition startswith (prefixes : list string) (s : string) : bool :=
  existsb (fun p => String.prefix p s) prefixes.

(** One round of the loop that removes the un-needed interfaces: [and] and
    [or] read their right operand only when the left one has not decided. *)
Definition keep_interface (interfaces_all interfaces : Main.table) (iface : string)
  : result Main.table :=
  if negb (startswith unneeded_prefixes iface) then
    r <~ subscript interfaces_all iface ;;
    is_enabled <~ subscript r "is_enabled" ;;
    wanted <~ (if truthy is_enabled then Ok true
               else
                 r <~ subscript interfaces_all iface ;;
                 is_up <~ subscript r "is_up" ;;
                 Ok (truthy is_up)) ;;
    if (wanted : bool) then
      r <~ subscript interfaces_all iface ;;
      Ok (dict_update interfaces [(iface, r)])
    else Ok interfaces
  else Ok interfaces.

(** [interfaces], as the loop over [interfaces_all.keys()] leaves it. *)
Definition interfaces (interfaces_all : Main.table) : result Main.table :=
  rfor_each (keys interfaces_all) [] (keep_interface interfaces_all).

End MigrationData.

(** An interface the planning keeps: its name has none of the un-needed
    prefixes and it is enabled or up. *)
Definition needed (entry : string * dict) : bool :=
  negb (MigrationData.startswith MigrationData.unneeded_prefixes (fst entry))
  && (truthy (dict_get_default (snd entry) "is_enabled")
      || truthy (dict_get_default (snd entry) "is_up")).

(** An interface the loop gets past: un-needed by its name, or with the
    fields the condition reads. *)
Definition readable (entry : string * dict) : bool :=
  MigrationData.startswith MigrationData.unneeded_prefixes (fst entry)
  || match dict_get (snd entry) "is_enabled" with
     | Some v =>
         truthy v
         || match dict_get (snd entry) "is_up" with Some _ => true | None => false end
     | None => false
     end.

(** An interface table with a management port that has no fields at all, a
    port that is down and disabled, and two ports in use. *)
Module SamplePlanning.

Definition ports : Main.table :=
  [("MgmtEth0/RP0/CPU0/0", []);
   ("TenGigE0/0/0/0", [("is_enabled", PBool true); ("is_up", PBool false)]);
   ("TenGigE0/0/0/1", [("is_enabled", PBool false); ("is_up", PBool false)]);
   ("Bundle-Ether1", [("is_enabled", PBool false); ("is_up", PBool true)])].

Definition unread : Main.table :=
  [("TenGigE0/0/0/0", [("is_enabled", PBool true)]);
   ("TenGigE0/0/0/1", [("is_enabled", PBool false)])].

End SamplePlanning.

(** ** Vocabulary of the values the merge pass leaves *)

(** A table of records as a Python dict of dicts has it: no key twice. *)
Definition well_keyed (t : Main.table) : Prop :=
  NoDup (keys t) /\ forall k v, In (k, v) t -> NoDup (keys v).

(** What the fill-in loop makes of a record: a falsy or missing
    [mpls_enabled] becomes [False]. *)
Definition fill_record (r : dict) : dict :=
  if negb (truthy (dict_get_default r "mpls_enabled"))
  then dict_update r [("mpls_enabled", PBool false)]
  else r.

(** An inventory with an interface that has no fields, and two tables that
    disagree with the inventory and with each other. *)
Module SampleMerge.

Definition bare_inventory : Main.table :=
  [("ge-0/0/0", [("description", PStr "core1"); ("mtu", PInt 9192)]);
   ("ge-0/0/5", [])].

Definition relabel : Main.table :=
  [("ge-0/0/0", [("description", PStr "core1 100G"); ("mtu", PInt 9000)]);
   ("ge-0/0/5", [("description", PStr "spare")])].

Definition overrides : Main.table :=
  [("ge-0/0/0", [("mtu", PInt 1500)])].

End SampleMerge.

(** ** Vocabulary of the use of the global router *)

(** How many events of a stretch of the trace [f] picks out. *)
Definition occurrences (f : Main.event -> bool) (tr : list Main.event) : nat :=
  List.length (filter f tr).

(** [m], when it returns, has added [n] events that [f] picks out. *)
Definition adds {A : Type} (f : Main.event -> bool) (n : nat) (m : M Main.main A)
  : Prop :=
  forall s a s',
    m s = (Ok a, s') ->
    occurrences f (Main.trace s') = (occurrences f (Main.trace s) + n)%nat.

(** The route-to-destinations getter asked of the secondary session. *)
Definition is_route_lookup (e : Main.event) : bool :=
  match e with
  | Main.Asked Main.Secondary getter _ => (getter =? "get_route_to_custom")%string
  | _ => false
  end.

(** The character [.], which separates the labels of a name. *)
Definition dot : ascii := "."%char.
(** * Properties *)

(** ** Dictionaries *)

Section DictFacts.

Context {V : Type}.
Implicit Types (d e : list (string * V)) (k : string) (v : V).

Lemma dict_get_set_same d k v : dict_get (dict_set d k v) k = Some v.
Proof.
  induction d as [|[k' v'] d IH]; simpl.
  - now rewrite String.eqb_refl.
  - destruct (k' =? k)%string eqn:E; simpl; rewrite E; auto.
Qed.

Lemma dict_get_set_other d k k' v :
  k <> k' -> dict_get (dict_set d k v) k' = dict_get d k'.
Proof.
  intros Hne. induction d as [|[k0 v0] d IH]; simpl.
  - destruct (k =? k')%string eqn:E; auto.
    apply String.eqb_eq in E. contradiction.
  - destruct (k0 =? k)%string eqn:E; simpl.
    + apply String.eqb_eq in E. subst k0.
      destruct (k =? k')%string eqn:E'; auto.
      apply String.eqb_eq in E'. contradiction.
    + now rewrite IH.
Qed.

Lemma dict_get_in_keys d k : dict_get d k <> None <-> In k (keys d).
Proof.
  induction d as [|[k' v'] d IH]; simpl.
  - split; [congruence | tauto].
  - destruct (k' =? k)%string eqn:E.
    + apply String.eqb_eq in E. split; [auto | congruence].
    + apply String.eqb_neq in E. rewrite IH. split; [auto | intros [H|H]; congruence].
Qed.

Lemma dict_get_some_in_keys d k v : dict_get d k = Some v -> In k (keys d).
Proof. intros H. apply dict_get_in_keys. congruence. Qed.

Lemma dict_get_none_not_in d k : dict_get d k = None <-> ~ In k (keys d).
Proof.
  rewrite <- dict_get_in_keys. destruct (dict_get d k); split; try congruence.
  intros H. exfalso. apply H. congruence.
Qed.

Lemma dict_get_in d k v : dict_get d k = Some v -> In (k, v) d.
Proof.
  induction d as [|[k' v'] d IH]; simpl; [congruence|].
  destruct (k' =? k)%string eqn:E.
  - apply String.eqb_eq in E. intros H. left. congruence.
  - auto.
Qed.

Lemma keys_set_present d k v : In k (keys d) -> keys (dict_set d k v) = keys d.
Proof.
  induction d as [|[k' v'] d IH]; simpl; [tauto|].
  destruct (k' =? k)%string eqn:E; simpl; auto.
  apply String.eqb_neq in E. intros [H|H]; [congruence|]. now rewrite IH.
Qed.

Lemma keys_set d k v : forall k', In k' (keys (dict_set d k v)) <-> k' = k \/ In k' (keys d).
Proof.
  intros k'. induction d as [|[k0 v0] d IH]; simpl.
  - intuition.
  - destruct (k0 =? k)%string eqn:E; simpl.
    + apply String.eqb_eq in E. subst. intuition.
    + rewrite IH. intuition.
Qed.

Lemma dict_get_remove_same d k : dict_get (dict_remove d k) k = None.
Proof.
  induction d as [|[k' v'] d IH]; simpl; auto.
  destruct (k' =? k)%string eqn:E; simpl; auto. now rewrite E.
Qed.

Lemma dict_get_remove_other d k k' :
  k <> k' -> dict_get (dict_remove d k) k' = dict_get d k'.
Proof.
  intros Hne. induction d as [|[k0 v0] d IH]; simpl; auto.
  destruct (k0 =? k)%string eqn:E; simpl.
  - apply String.eqb_eq in E. subst k0.
    destruct (k =? k')%string eqn:E'; auto.
    apply String.eqb_eq in E'. contradiction.
  - now rewrite IH.
Qed.

Lemma keys_remove d k : forall k', In k' (keys (dict_remove d k)) <-> k' <> k /\ In k' (keys d).
Proof.
  intros k'. induction d as [|[k0 v0] d IH]; simpl.
  - intuition.
  - destruct (k0 =? k)%string eqn:E; simpl.
    + apply String.eqb_eq in E. subst. rewrite IH. intuition congruence.
    + apply String.eqb_neq in E. rewrite IH. intuition congruence.
Qed.

Lemma keys_update d e : forall k, In k (keys (dict_update d e)) <-> In k (keys d) \/ In k (keys e).
Proof.
  unfold dict_update. revert d.
  induction e as [|[k0 v0] e IH]; intros d k; simpl.
  - intuition.
  - rewrite IH, keys_set. simpl. intuition.
Qed.

(** Updating never hides a key of [d] that [e] does not mention. *)
Lemma dict_get_update_absent d e k :
  ~ In k (keys e) -> dict_get (dict_update d e) k = dict_get d k.
Proof.
  unfold dict_update. revert d.
  induction e as [|[k0 v0] e IH]; intros d Hk; simpl; auto.
  simpl in Hk. rewrite IH by tauto.
  apply dict_get_set_other. intros ->. tauto.
Qed.

(** A value read after an update was in [d] or is one of the updates. *)
Lemma dict_get_update_cases d e k v :
  dict_get (dict_update d e) k = Some v -> dict_get d k = Some v \/ In (k, v) e.
Proof.
  unfold dict_update. revert d.
  induction e as [|[k0 v0] e IH]; intros d H; simpl in *; auto.
  apply IH in H. destruct H as [H|H]; auto.
  destruct (String.eqb_spec k0 k) as [->|Hne].
  - rewrite dict_get_set_same in H. right. left. congruence.
  - rewrite dict_get_set_other in H by assumption. auto.
Qed.

End DictFacts.

(** ** The route-formatting routine *)

Section RouteFormat.

Import CustomJunOSDriver.

Variable repr : pyval -> string.


Lemma trim_as_path_example : trim_as_path "AS path: 65000 I Recorded" = "65000".
Proof. reflexivity. Qed.


End RouteFormat.



(** ** Remote-procedure failures *)

Section RpcFailures.

Import CustomJunOSDriver.

Variables (repr : pyval -> string) (net : netaddr) (dev : device).

(** [rpc_get] turns a remote-procedure failure into two log lines and [{}]. *)
Lemma rpc_get_failure {K : Type} table (rpc_input : result (items K)) msg rpcerr s :
  rpc_input = Raise (RpcError rpcerr) ->
  rpc_get table rpc_input msg s =
  (Ok EmptyDict,
   logged (called s table [])
     ["Unable to retrieve " ++ msg ++ " information:"; rpcerr]).
Proof.
  intros ->. unfold rpc_get, bind, send_rpc, log_error, modify, ret, logged, called.
  simpl. now rewrite <- app_assoc.
Qed.

Lemma get_mpls_interfaces_custom_failure rpcerr s :
  MPLSInterfaceTable dev = Raise (RpcError rpcerr) ->
  exists s', get_mpls_interfaces_custom dev s = (Ok [], s').
Proof.
  intros H. unfold get_mpls_interfaces_custom, bind.
  rewrite (rpc_get_failure _ _ _ _ _ H). simpl. eexists; reflexivity.
Qed.

Lemma get_msdp_neighbrs_custom_failure rpcerr s :
  MSDPNeighborTable dev = Raise (RpcError rpcerr) ->
  exists s', get_msdp_neighbrs_custom dev s = (Ok [], s').
Proof.
  intros H. unfold get_msdp_neighbrs_custom, bind.
  rewrite (rpc_get_failure _ _ _ _ _ H). simpl. eexists; reflexivity.
Qed.

Lemma get_pim_neighbors_custom_failure rpcerr s :
  PIMNeighborTable dev = Raise (RpcError rpcerr) ->
  exists s', get_pim_neighbors_custom dev s = (Ok [], s').
Proof.
  intros H. unfold get_pim_neighbors_custom, bind.
  rewrite (rpc_get_failure _ _ _ _ _ H). simpl. eexists; reflexivity.
Qed.

Lemma get_arp_table_custom_failure rpcerr s :
  ARPTable dev = Raise (RpcError rpcerr) ->
  exists s', get_arp_table_custom net dev s = (Ok [], s').
Proof.
  intros H. unfold get_arp_table_custom, bind.
  rewrite (rpc_get_failure _ _ _ _ _ H). simpl. eexists; reflexivity.
Qed.

Lemma get_nd_table_custom_failure rpcerr s :
  NDTable dev = Raise (RpcError rpcerr) ->
  exists s', get_nd_table_custom net dev s = (Ok [], s').
Proof.
  intros H. unfold get_nd_table_custom, bind.
  rewrite (rpc_get_failure _ _ _ _ _ H). simpl. eexists; reflexivity.
Qed.

Lemma get_bgp_neighbors_detail_failure rpcerr s :
  junos_bgp_neighbors_table dev = Raise (RpcError rpcerr) ->
  exists s', get_bgp_neighbors_detail dev s = (Ok [], s').
Proof.
  intros H. unfold get_bgp_neighbors_detail, bind.
  rewrite (rpc_get_failure _ _ _ _ _ H). simpl. eexists; reflexivity.
Qed.

Lemma get_bgp_neighbor_routes_failure peer version rpcerr s :
  IPAddress_version net peer = Ok version ->
  junos_bgp_rx_route_table dev peer (inet_table version) = Raise (RpcError rpcerr) ->
  exists s', get_bgp_neighbor_routes repr net dev peer s = (Ok [], s').
Proof.
  intros Hv H. unfold get_bgp_neighbor_routes, bind, lift.
  rewrite Hv, H. simpl. eexists; reflexivity.
Qed.

(** C1 fails on the route-to-destinations getter.  When the call for the
    first destination raises the remote-procedure error, the getter logs the
    failure as its siblings do, and then reads [route_output], which the
    failed call never bound: it raises instead of returning an empty result. *)
Theorem get_route_to_first_failure route rest version rpcerr s :
  IPNetwork_version net route = Ok version ->
  junos_bgp_route_table dev route (inet_table version) = Raise (RpcError rpcerr) ->
  get_route_to repr net dev (PList (route :: rest)) s =
  (Raise (UnboundLocalError "route_output"),
   logged (called s "junos_bgp_route_table" [route; PStr (inet_table version)])
     ["Unable to retrieve BGP Rx Routes information:"; rpcerr]).
Proof.
  intros Hv H. unfold get_route_to. simpl.
  unfold bind at 1. unfold bind at 1. unfold route_to_body.
  unfold bind at 1. unfold lift at 1. rewrite Hv.
  unfold bind at 1. simpl. rewrite H.
  unfold bind, send_rpc, log_error, modify, ret, raise, logged, called. simpl.
  now rewrite <- app_assoc.
Qed.

(** The IS-IS getter does not return either when only its second call fails:
    the adjacencies then find no interface to join. *)
Lemma get_isis_interfaces_custom_second_failure adj rpcerr name ks fs rest s :
  ISISAdjacencyTable dev = Ok adj ->
  ISISInterfaceTable dev = Raise (RpcError rpcerr) ->
  adj = ((name :: ks, fs) :: rest) ->
  adjacency_shaped (name :: ks, fs) = true ->
  exists s', get_isis_interfaces_custom dev s = (Raise (KeyError name), s').
Proof.
  intros Hadj Hint -> Hshape.
  unfold get_isis_interfaces_custom, bind.
  unfold rpc_get at 1, bind, send_rpc, modify, ret. rewrite Hadj. simpl.
  rewrite (rpc_get_failure _ _ _ _ _ Hint). simpl.
  unfold lift, isis_entry, subscript.
  destruct fs as [|f0 [|f1 [|f2 [|f3 fs]]]]; try discriminate.
  simpl. eexists; reflexivity.
Qed.

(** C5. Given anything but a list, the route-to-destinations getter raises
    the type error at once: no call has gone to the device and nothing has
    been logged. *)
Theorem get_route_to_non_list (routes_list : pyval) (s : driver) :
  is_list routes_list = false ->
  get_route_to repr net dev routes_list s =
  (Raise (TypeError "Please a valid list of destinations"), s) /\
  rpc_calls (snd (get_route_to repr net dev routes_list s)) = rpc_calls s.
Proof.
  intros H. destruct routes_list; try discriminate; split; reflexivity.
Qed.

End RpcFailures.

Lemma get_route_to_non_list_witness :
  is_list (PStr "198.51.100.0/24") = false /\
  CustomJunOSDriver.get_route_to Sample.repr Sample.net Sample.unreachable
    (PStr "198.51.100.0/24") Sample.fresh =
  (Raise (TypeError "Please a valid list of destinations"), Sample.fresh).
Proof.
  split; [reflexivity|].
  apply (get_route_to_non_list Sample.repr Sample.net Sample.unreachable
           (PStr "198.51.100.0/24") Sample.fresh).
  reflexivity.
Defined.

Lemma get_route_to_first_failure_witness :
  CustomJunOSDriver.get_route_to Sample.repr Sample.net Sample.unreachable
    (PList [PStr "198.51.100.0/24"]) Sample.fresh =
  (Raise (UnboundLocalError "route_output"),
   {| log := ["Unable to retrieve BGP Rx Routes information:"; "timeout"];
      rpc_calls := [("junos_bgp_route_table",
                     [PStr "198.51.100.0/24"; PStr "inet.0"])] |}).
Proof.
  exact (get_route_to_first_failure Sample.repr Sample.net Sample.unreachable
           (PStr "198.51.100.0/24") [] 4 "timeout" Sample.fresh eq_refl eq_refl).
Defined.

(** ** Loops that store one record per entry *)

Section StoringLoops.

Context {B : Type}.
Variables (key : B -> string) (val : B -> pyval).

Lemma rfor_each_stores (body : dict -> B -> result dict) (l : list B) :
  forall acc,
    (forall e, In e l -> forall a, body a e = Ok (dict_set a (key e) (val e))) ->
    rfor_each l acc body = Ok (stored key val l acc).
Proof.
  induction l as [|e l IH]; intros acc H; simpl; auto.
  rewrite H by (now left). simpl. apply IH. intros e' He'. apply H. now right.
Qed.

Lemma stored_absent (l : list B) k :
  forall acc, ~ In k (map key l) -> dict_get (stored key val l acc) k = dict_get acc k.
Proof.
  unfold stored. induction l as [|e l IH]; intros acc H; simpl in *; auto.
  rewrite IH by tauto. apply dict_get_set_other. intros E. apply H. now left.
Qed.

(** The last entry stored under a key is the one read back. *)
Lemma stored_last (before after : list B) (e : B) acc :
  ~ In (key e) (map key after) ->
  dict_get (stored key val (before ++ e :: after) acc) (key e) = Some (val e).
Proof.
  intros H. unfold stored. rewrite fold_left_app. simpl.
  fold (stored key val after (dict_set (fold_left (fun a e0 => dict_set a (key e0) (val e0)) before acc) (key e) (val e))).
  rewrite stored_absent by assumption. apply dict_get_set_same.
Qed.

End StoringLoops.

(** ** ARP and ND tables *)

Section ArpNd.

Import CustomJunOSDriver.

Variables (net : netaddr) (dev : device).
Hypothesis Hnet : strings_parse_or_fail net.

Lemma normalized_mac_string mac : normalized_mac net (PStr mac) = Ok (mac_field net mac).
Proof.
  unfold normalized_mac, mac_field.
  destruct (Hnet mac) as [[s ->]|[msg ->]]; reflexivity.
Qed.

Lemma mac_field_malformed mac msg :
  EUI net (PStr mac) = Raise (AddrFormatError msg) -> mac_field net mac = PNone.
Proof. unfold mac_field. now intros ->. Qed.

Lemma arp_entry_stores table :
  mac_string_entries table ->
  forall e, In e table -> forall a, arp_entry net a e = Ok (dict_set a (fst e) (arp_record net e)).
Proof.
  intros Hshape e He a. unfold mac_string_entries in Hshape.
  rewrite Forall_forall in Hshape.
  destruct (Hshape e He) as (n0 & nh & n1 & mac & rest & E).
  destruct e as [k fs]. simpl in E. subst fs.
  unfold arp_entry, arp_record. simpl.
  rewrite normalized_mac_string. reflexivity.
Qed.

Lemma nd_entry_stores table :
  mac_string_entries table ->
  forall e, In e table -> forall a, nd_entry net a e = Ok (dict_set a (fst e) (nd_record net e)).
Proof.
  intros Hshape e He a. unfold mac_string_entries in Hshape.
  rewrite Forall_forall in Hshape.
  destruct (Hshape e He) as (n0 & nh & n1 & mac & rest & E).
  destruct e as [k fs]. simpl in E. subst fs.
  unfold nd_entry, nd_record. simpl.
  rewrite normalized_mac_string. reflexivity.
Qed.

(** C7. On a table whose entries carry a MAC string, the ARP getter and the
    ND getter return.  An entry whose MAC string [netaddr] rejects has its
    record stored all the same, with a null MAC and the next-hop of the
    source; that record is what the result holds under the entry's key unless
    a later entry of the table has the same key. *)
Theorem arp_nd_malformed_mac (table : items string) (s : driver) :
  mac_string_entries table ->
  (ARPTable dev = Ok table ->
   exists arp s',
     get_arp_table_custom net dev s = (Ok arp, s') /\
     forall before key n0 nh n1 mac rest after msg,
       table = (before ++ (key, (n0, nh) :: (n1, PStr mac) :: rest) :: after)%list ->
       EUI net (PStr mac) = Raise (AddrFormatError msg) ->
       ~ In key (keys after) ->
       dict_get arp key = Some (PDict [("arp_nh_mac", PNone); ("arp_nh", nh)])) /\
  (NDTable dev = Ok table ->
   exists nd s',
     get_nd_table_custom net dev s = (Ok nd, s') /\
     forall before key n0 nh n1 mac rest after msg,
       table = (before ++ (key, (n0, nh) :: (n1, PStr mac) :: rest) :: after)%list ->
       EUI net (PStr mac) = Raise (AddrFormatError msg) ->
       ~ In key (keys after) ->
       dict_get nd key = Some (PDict [("nd_nh", nh); ("nd_nh_mac", PNone)])).
Proof.
  intros Hshape. split; intros Htable.
  - unfold get_arp_table_custom, rpc_get, bind, send_rpc, modify, ret, lift.
    rewrite Htable. simpl.
    rewrite (rfor_each_stores fst (arp_record net) _ _ _ (arp_entry_stores table Hshape)).
    do 2 eexists. split; [reflexivity|].
    intros before key n0 nh n1 mac rest after msg -> Hmac Hlast.
    pose proof (stored_last fst (arp_record net) before after
                  (key, (n0, nh) :: (n1, PStr mac) :: rest) [] Hlast) as L.
    simpl in L. eapply eq_trans; [exact L|].
    unfold arp_record. simpl. now rewrite (mac_field_malformed _ _ Hmac).
  - unfold get_nd_table_custom, rpc_get, bind, send_rpc, modify, ret, lift.
    rewrite Htable. simpl.
    rewrite (rfor_each_stores fst (nd_record net) _ _ _ (nd_entry_stores table Hshape)).
    do 2 eexists. split; [reflexivity|].
    intros before key n0 nh n1 mac rest after msg -> Hmac Hlast.
    pose proof (stored_last fst (nd_record net) before after
                  (key, (n0, nh) :: (n1, PStr mac) :: rest) [] Hlast) as L.
    simpl in L. eapply eq_trans; [exact L|].
    unfold nd_record. simpl. now rewrite (mac_field_malformed _ _ Hmac).
Qed.

End ArpNd.

Lemma sample_net_strings : strings_parse_or_fail Sample.net.
Proof.
  intros mac. simpl. destruct (mac =? "00:11:22:33:44:55")%string; eauto.
Qed.

Lemma arp_nd_malformed_mac_witness :
  mac_string_entries Sample.arp_entries /\
  exists arp s',
    CustomJunOSDriver.get_arp_table_custom Sample.net Sample.lan Sample.fresh
    = (Ok arp, s') /\
    dict_get arp "ge-0/0/1"
    = Some (PDict [("arp_nh_mac", PNone); ("arp_nh", PStr "192.0.2.2")]).
Proof.
  assert (Hshape : mac_string_entries Sample.arp_entries).
  { repeat constructor; simpl; eauto 10. }
  split; [exact Hshape|].
  destruct (arp_nd_malformed_mac Sample.net Sample.lan sample_net_strings
              Sample.arp_entries Sample.fresh Hshape) as [Harp _].
  destruct (Harp eq_refl) as (arp & s' & Hrun & Hrec).
  exists arp, s'. split; [exact Hrun|].
  apply (Hrec [("ge-0/0/0", [("ip_address", PStr "192.0.2.1");
                            ("mac_address", PStr "00:11:22:33:44:55")])]
           "ge-0/0/1" "ip_address" (PStr "192.0.2.2") "mac_address" "not-a-mac"
           [] [] "failed to detect EUI version").
  - reflexivity.
  - reflexivity.
  - simpl. tauto.
Defined.

(** ** The IS-IS join *)

Section IsisJoin.

Import CustomJunOSDriver.

Lemma isis_int_entry_stores ints :
  forallb interface_shaped ints = true ->
  forall e, In e ints -> forall a,
      isis_int_entry a e =
      Ok (dict_set a (entry_name e)
            (match snd e with f0 :: _ => snd f0 | [] => PNone end)).
Proof.
  intros Hshape e He a. rewrite forallb_forall in Hshape.
  specialize (Hshape e He). destruct e as [[|name ks] [|f0 fs]]; try discriminate.
  reflexivity.
Qed.

Lemma isis_entry_joins int_dict isis e :
  adjacency_shaped e = true -> joins int_dict e = true ->
  isis_entry int_dict isis e = Ok (dict_set isis (entry_name e) (isis_record int_dict e)).
Proof.
  unfold joins, isis_record, isis_entry, entry_name, subscript.
  destruct e as [[|name ks] [|f0 [|f1 [|f2 [|f3 fs]]]]]; try discriminate.
  intros _. simpl.
  destruct (dict_get int_dict name) as [m|]; try discriminate.
  simpl. destruct (py_int m); try discriminate. reflexivity.
Qed.

(** A shaped adjacency whose interface the table lacks: the lookup raises. *)
Lemma isis_entry_missing int_dict isis name ks fs :
  adjacency_shaped (name :: ks, fs) = true ->
  dict_get int_dict name = None ->
  isis_entry int_dict isis (name :: ks, fs) = Raise (KeyError name).
Proof.
  unfold isis_entry, subscript.
  destruct fs as [|f0 [|f1 [|f2 [|f3 fs]]]]; try discriminate.
  intros _ H. simpl. now rewrite H.
Qed.

Lemma isis_entry_not_joining int_dict isis e :
  joins int_dict e = false -> exists err, isis_entry int_dict isis e = Raise err.
Proof.
  unfold joins, isis_entry, entry_name, subscript.
  destruct e as [[|name ks] fs]; simpl; [eauto|].
  destruct fs as [|f0 [|f1 [|f2 [|f3 fs]]]]; simpl; eauto.
  destruct (dict_get int_dict name) as [m|]; simpl; eauto.
  destruct (py_int m); simpl; eauto. discriminate.
Qed.

Lemma isis_loop_joins int_dict adj :
  forall isis,
    forallb adjacency_shaped adj = true ->
    forallb (joins int_dict) adj = true ->
    rfor_each adj isis (isis_entry int_dict) =
    Ok (stored entry_name (isis_record int_dict) adj isis).
Proof.
  intros isis Hshape Hjoin. apply rfor_each_stores.
  rewrite forallb_forall in Hshape, Hjoin.
  intros e He a. apply isis_entry_joins; auto.
Qed.

Lemma isis_loop_raises int_dict adj :
  forall isis,
    forallb (joins int_dict) adj = false ->
    exists err, rfor_each adj isis (isis_entry int_dict) = Raise err.
Proof.
  induction adj as [|e adj IH]; intros isis H; simpl in *; [discriminate|].
  destruct (joins int_dict e) eqn:E; simpl in H.
  - destruct (isis_entry int_dict isis e) as [err|isis']; simpl; eauto.
  - destruct (isis_entry_not_joining int_dict isis e E) as [err ->]. simpl. eauto.
Qed.

Lemma joins_missing int_dict before name ks fs after :
  dict_get int_dict name = None ->
  forallb (joins int_dict) (before ++ (name :: ks, fs) :: after) = false.
Proof.
  intros H. rewrite forallb_app.
  assert (E : joins int_dict (name :: ks, fs) = false).
  { unfold joins, entry_name. simpl. now rewrite H. }
  simpl. rewrite E. apply andb_false_r.
Qed.

(** C8. With both tables answered in the shape of their views, the IS-IS
    getter joins them on the interface name.  When every adjacency finds its
    interface with a metric [int] accepts, the getter returns one record per
    adjacency, the metric an integer.  When an adjacency's interface is not in
    the interface table, the getter returns nothing: it raises, and the
    exception is the key error of that interface name once the adjacencies
    before it have joined. *)
Theorem isis_join (dev : device) (s : driver) (adj ints : items (list string)) :
  ISISAdjacencyTable dev = Ok adj ->
  ISISInterfaceTable dev = Ok ints ->
  forallb adjacency_shaped adj = true ->
  forallb interface_shaped ints = true ->
  let int_dict := interface_metrics ints in
  (forallb (joins int_dict) adj = true ->
   exists s',
     get_isis_interfaces_custom dev s =
     (Ok (stored entry_name (isis_record int_dict) adj []), s')) /\
  (forall before name ks fs after,
      adj = (before ++ (name :: ks, fs) :: after)%list ->
      dict_get int_dict name = None ->
      (exists err s', get_isis_interfaces_custom dev s = (Raise err, s')) /\
      (forallb (joins int_dict) before = true ->
       exists s', get_isis_interfaces_custom dev s = (Raise (KeyError name), s'))).
Proof.
  intros Hadj Hints Hashape Hishape int_dict.
  assert (Hrun : exists s',
             get_isis_interfaces_custom dev s =
             (rfor_each adj [] (isis_entry int_dict), s')).
  { unfold get_isis_interfaces_custom, rpc_get, bind, send_rpc, modify, ret, lift.
    rewrite Hadj, Hints. simpl.
    rewrite (rfor_each_stores entry_name _ _ _ _ (isis_int_entry_stores ints Hishape)).
    eexists. reflexivity. }
  destruct Hrun as [s' Hrun]. split.
  - intros Hjoin. exists s'. rewrite Hrun.
    apply (f_equal (fun r => (r, s'))). apply isis_loop_joins; assumption.
  - intros before name ks fs after -> Hmissing. split.
    + destruct (isis_loop_raises int_dict _ [] (joins_missing _ before name ks fs after Hmissing))
        as [err Herr].
      exists err, s'. rewrite Hrun. apply (f_equal (fun r => (r, s'))). exact Herr.
    + intros Hbefore. exists s'. rewrite Hrun. apply (f_equal (fun r => (r, s'))).
      rewrite forallb_app in Hashape. apply andb_prop in Hashape.
      destruct Hashape as [Hb Ha]. simpl in Ha. apply andb_prop in Ha.
      destruct Ha as [He _].
      clear Hrun Hadj.
      generalize (@nil (string * pyval)) as isis.
      induction before as [|b before IH]; intros isis; simpl.
      * now rewrite (isis_entry_missing int_dict isis name ks fs He Hmissing).
      * simpl in Hb, Hbefore. apply andb_prop in Hb. apply andb_prop in Hbefore.
        destruct Hb as [Hb1 Hb2]. destruct Hbefore as [Hj1 Hj2].
        rewrite (isis_entry_joins int_dict isis b Hb1 Hj1). simpl. now apply IH.
Qed.

End IsisJoin.

Lemma isis_join_witness :
  (exists s',
      CustomJunOSDriver.get_isis_interfaces_custom
        (Sample.isis_device Sample.isis_interfaces) Sample.fresh =
      (Ok [("ge-0/0/0.0",
            PDict [("isis_neighbor", PStr "core1");
                   ("isis_state", PBool true);
                   ("isis_nh", PStr "192.0.2.9");
                   ("isis_ipv6", PBool true);
                   ("isis_metric", PInt 10)])], s')) /\
  (exists s',
      CustomJunOSDriver.get_isis_interfaces_custom
        (Sample.isis_device Sample.other_interfaces) Sample.fresh =
      (Raise (KeyError "ge-0/0/0.0"), s')).
Proof.
  split.
  - apply (proj1 (isis_join (Sample.isis_device Sample.isis_interfaces) Sample.fresh
                    Sample.adjacencies Sample.isis_interfaces
                    eq_refl eq_refl eq_refl eq_refl)).
    reflexivity.
  - apply (proj2 (isis_join (Sample.isis_device Sample.other_interfaces) Sample.fresh
                    Sample.adjacencies Sample.other_interfaces
                    eq_refl eq_refl eq_refl eq_refl)
             [] "ge-0/0/0.0" ["core1"]
             [("system_name", PStr "core1");
              ("adjacency_state", PBool true);
              ("ipv6", PBool true);
              ("ip_address", PStr "192.0.2.9")] []).
    + reflexivity.
    + reflexivity.
    + reflexivity.
Defined.

(** ** Loops that raise *)

Section RaisingLoops.

Context {A B : Type}.
Variable body : A -> B -> result A.

Lemma rfor_each_app (l1 l2 : list B) :
  forall acc,
    rfor_each (l1 ++ l2) acc body =
    rbind (rfor_each l1 acc body) (fun acc' => rfor_each l2 acc' body).
Proof.
  induction l1 as [|x l1 IH]; intros acc; simpl; auto.
  destruct (body acc x); simpl; auto.
Qed.

(** An entry the body always raises on keeps the loop from returning. *)
Lemma rfor_each_raises_within (before after : list B) (e : B) :
  (forall acc, exists err, body acc e = Raise err) ->
  forall acc, exists err, rfor_each (before ++ e :: after) acc body = Raise err.
Proof.
  intros He acc. rewrite rfor_each_app.
  destruct (rfor_each before acc body) as [err|acc']; simpl; eauto.
  destruct (He acc') as [err ->]. simpl. eauto.
Qed.

(** When the entries before it pass, its exception is the loop's. *)
Lemma rfor_each_first_raise (before after : list B) (e : B) (err : exn) :
  (forall b, In b before -> forall acc, exists acc', body acc b = Ok acc') ->
  (forall acc, body acc e = Raise err) ->
  forall acc, rfor_each (before ++ e :: after) acc body = Raise err.
Proof.
  intros Hb He. induction before as [|b before IH]; intros acc; simpl.
  - now rewrite He.
  - destruct (Hb b (or_introl eq_refl) acc) as [acc' ->]. simpl.
    apply IH. intros b' Hb'. apply Hb. now right.
Qed.

(** A loop that returned went through every entry. *)
Lemma rfor_each_ok_each (l : list B) :
  forall acc out,
    rfor_each l acc body = Ok out ->
    forall e, In e l -> exists a a', body a e = Ok a'.
Proof.
  induction l as [|x l IH]; intros acc out H e He; simpl in *; [tauto|].
  destruct (body acc x) as [err|acc'] eqn:E; simpl in H; [discriminate|].
  destruct He as [<-|He]; eauto.
Qed.

End RaisingLoops.

(** ** BGP neighbor detail *)

Section BgpDetail.

Import CustomJunOSDriver.

Lemma supplies_in_keys fs k :
  supplies fs k = true <-> In k (keys (non_null_fields fs)).
Proof.
  unfold supplies, non_null_fields, dict_of_fields.
  rewrite keys_update, existsb_exists. simpl. unfold keys. rewrite in_map_iff.
  split.
  - intros [[k' v] [Hin H]]. apply andb_prop in H. destruct H as [Hk Hv].
    simpl in Hk, Hv. apply String.eqb_eq in Hk. subst k'.
    right. exists (k, v). split; auto. apply filter_In. auto.
  - intros [[]|[[k' v] [Hk Hin]]]. simpl in Hk. subst k'.
    apply filter_In in Hin. destruct Hin as [Hin Hv].
    exists (k, v). split; auto. simpl. now rewrite String.eqb_refl.
Qed.

Lemma source_details_keys fs k :
  In k (keys (source_details fs)) <->
  In k (keys default_neighbor_details) \/ supplies fs k = true.
Proof. unfold source_details. now rewrite keys_update, supplies_in_keys. Qed.

Lemma source_details_unsupplied fs k :
  ~ In k (keys default_neighbor_details) ->
  supplies fs k = false -> dict_get (source_details fs) k = None.
Proof.
  intros Hd Hs. apply dict_get_none_not_in. rewrite source_details_keys.
  intros [H|H]; [tauto | congruence].
Qed.

Lemma source_details_supplied fs k :
  supplies fs k = true -> exists v, dict_get (source_details fs) k = Some v.
Proof.
  intros Hs.
  destruct (dict_get (source_details fs) k) as [v|] eqn:E; eauto.
  apply dict_get_none_not_in in E. exfalso. apply E.
  apply source_details_keys. now right.
Qed.

Lemma source_details_default fs k :
  In k (keys default_neighbor_details) ->
  exists v, dict_get (source_details fs) k = Some v.
Proof.
  intros Hd.
  destruct (dict_get (source_details fs) k) as [v|] eqn:E; eauto.
  apply dict_get_none_not_in in E. exfalso. apply E.
  apply source_details_keys. now left.
Qed.

(** One round of reconciliation, by what the record holds. *)
Lemma reconcile_as_missing d i u :
  dict_get d i = Some u -> dict_get d (i ++ "_2") = None ->
  reconcile_as d i = Raise (KeyError (i ++ "_2")).
Proof.
  intros Hi H2. unfold reconcile_as, subscript, dict_pop. rewrite Hi, H2. simpl.
  destruct (truthy u); reflexivity.
Qed.

Lemma reconcile_as_present d i u v2 :
  dict_get d i = Some u -> dict_get d (i ++ "_2") = Some v2 ->
  reconcile_as d i =
  Ok (if truthy u then dict_remove d (i ++ "_2")
      else dict_set (dict_remove d (i ++ "_2")) i v2).
Proof.
  intros Hi H2. unfold reconcile_as, subscript, dict_pop. rewrite Hi, H2. simpl.
  destruct (truthy u); reflexivity.
Qed.

Lemma reconcile_as_get d i u v2 d1 :
  i <> i ++ "_2" ->
  dict_get d i = Some u -> dict_get d (i ++ "_2") = Some v2 ->
  reconcile_as d i = Ok d1 ->
  dict_get d1 i = Some (kept u v2) /\
  dict_get d1 (i ++ "_2") = None /\
  forall k, k <> i -> k <> i ++ "_2" -> dict_get d1 k = dict_get d k.
Proof.
  intros Hne Hi H2 H. rewrite (reconcile_as_present d i u v2 Hi H2) in H.
  injection H as <-. unfold kept. destruct (truthy u).
  - repeat split.
    + rewrite dict_get_remove_other by congruence. assumption.
    + apply dict_get_remove_same.
    + intros k Hk Hk2. apply dict_get_remove_other. congruence.
  - repeat split.
    + apply dict_get_set_same.
    + rewrite dict_get_set_other by assumption. apply dict_get_remove_same.
    + intros k Hk Hk2. rewrite dict_get_set_other by congruence.
      apply dict_get_remove_other. congruence.
Qed.

(** One entry: without a non-null [local_as_2] and [remote_as_2] the record
    is never built; the unconditional [pop] raises. *)
Lemma neighbor_record_missing fs :
  supplies fs "local_as_2" && supplies fs "remote_as_2" = false ->
  neighbor_record fs = Raise (KeyError (missing_fallback fs)).
Proof.
  intros H. unfold neighbor_record, missing_fallback. simpl.
  destruct (source_details_default fs "local_as") as [u Hu]; [simpl; tauto|].
  destruct (source_details_default fs "remote_as") as [w Hw]; [simpl; tauto|].
  destruct (supplies fs "local_as_2") eqn:E1.
  - simpl in H.
    destruct (source_details_supplied fs "local_as_2" E1) as [v2 Hv2].
    pose proof (reconcile_as_present _ "local_as" u v2 Hu Hv2) as R1.
    destruct (reconcile_as (source_details fs) "local_as") as [|d1] eqn:Ed1;
      [discriminate|]. simpl.
    destruct (reconcile_as_get _ "local_as" u v2 d1 ltac:(discriminate) Hu Hv2 Ed1)
      as (_ & _ & Hrest).
    rewrite (reconcile_as_missing d1 "remote_as" w); [reflexivity| |].
    + rewrite Hrest by discriminate. exact Hw.
    + simpl. rewrite Hrest by discriminate.
      apply source_details_unsupplied; [|assumption].
      simpl. intuition discriminate.
  - rewrite (reconcile_as_missing _ "local_as" u Hu); [reflexivity|].
    apply source_details_unsupplied; [|assumption].
    simpl. intuition discriminate.
Qed.

(** C10. A raw neighbor entry that does not supply a non-null [local_as_2]
    and a non-null [remote_as_2] keeps the getter from returning: it raises,
    and what it raises is the key error of the missing fallback field once the
    entries before that one have been processed. *)
Theorem bgp_detail_requires_fallback_fields (dev : device) (s : driver)
  (before after : items string) (key : string) (fs : fields) :
  junos_bgp_neighbors_table dev = Ok (before ++ (key, fs) :: after)%list ->
  supplies fs "local_as_2" && supplies fs "remote_as_2" = false ->
  (exists err s', get_bgp_neighbors_detail dev s = (Raise err, s')) /\
  ((forall b, In b before -> exists r, neighbor_record (snd b) = Ok r) ->
   exists s',
     get_bgp_neighbors_detail dev s = (Raise (KeyError (missing_fallback fs)), s')).
Proof.
  intros Htable Hmiss.
  assert (Hrun : exists s',
             get_bgp_neighbors_detail dev s =
             (rfor_each (before ++ (key, fs) :: after)%list [] bgp_detail_entry, s')).
  { unfold get_bgp_neighbors_detail, rpc_get, bind, send_rpc, modify, ret, lift.
    rewrite Htable. simpl. eexists. reflexivity. }
  destruct Hrun as [s' Hrun].
  assert (He : forall acc, bgp_detail_entry acc (key, fs) =
                           Raise (KeyError (missing_fallback fs))).
  { intros acc. unfold bgp_detail_entry. simpl.
    now rewrite (neighbor_record_missing fs Hmiss). }
  split.
  - destruct (rfor_each_raises_within bgp_detail_entry before after (key, fs)
                (fun acc => ex_intro _ _ (He acc)) []) as [err Herr].
    exists err, s'. rewrite Hrun. apply (f_equal (fun r => (r, s'))). exact Herr.
  - intros Hbefore. exists s'. rewrite Hrun. apply (f_equal (fun r => (r, s'))).
    apply rfor_each_first_raise.
    + intros b Hb acc. destruct (Hbefore b Hb) as [r Hr].
      unfold bgp_detail_entry. rewrite Hr. simpl. eauto.
    + exact He.
Qed.

End BgpDetail.

Lemma bgp_detail_requires_fallback_fields_witness :
  supplies Sample.incomplete_fields "local_as_2"
  && supplies Sample.incomplete_fields "remote_as_2" = false /\
  exists s',
    CustomJunOSDriver.get_bgp_neighbors_detail
      (Sample.bgp_device Sample.incomplete_fields) Sample.fresh =
    (Raise (KeyError "remote_as_2"), s').
Proof.
  split; [reflexivity|].
  apply (proj2 (bgp_detail_requires_fallback_fields
                  (Sample.bgp_device Sample.incomplete_fields) Sample.fresh
                  [] [] "192.0.2.2+52000" Sample.incomplete_fields
                  eq_refl eq_refl)).
  intros b [].
Defined.

Section BgpReconciliation.

Import CustomJunOSDriver.

Lemma prefix_plus c s : String.prefix "+" (String c s) = Ascii.eqb plus_sign c.
Proof.
  change (String.prefix "+" (String c s))
    with (if ascii_dec "+" c then String.prefix "" s else false).
  destruct (ascii_dec "+" c) as [E|Hne].
  - rewrite <- E. now destruct s.
  - symmetry. apply Ascii.eqb_neq. exact Hne.
Qed.

(** What is left of [split("+")[0]] holds no [+]. *)
Lemma has_char_split_head s : has_char plus_sign (split_head "+" s) = false.
Proof.
  induction s as [|c s IH]; [reflexivity|].
  cbn [split_head]. rewrite prefix_plus.
  destruct (Ascii.eqb plus_sign c) eqn:E; [reflexivity|].
  cbn [has_char]. now rewrite E, IH.
Qed.

(** Appending the rib tables leaves alone every key that is no table's name. *)
Lemma append_rib_elsewhere rib :
  forall d out,
    rfor_each rib d append_rib = Ok out ->
    forall k, ~ In k (keys rib) -> dict_get out k = dict_get d k.
Proof.
  induction rib as [|[name t] rib IH]; intros d out H k Hk; simpl in *.
  - now injection H as <-.
  - unfold append_rib at 1 in H. simpl in H.
    destruct (py_dict t) as [err|t']; simpl in H; [discriminate|].
    rewrite (IH _ _ H k) by tauto.
    apply dict_get_set_other. intros ->. tauto.
Qed.

Lemma rib_names_apart_not_in fs rib k :
  rib_names_apart fs = true ->
  dict_get (source_details fs) "rib" = Some (PDict rib) ->
  reconciled_name k = true -> ~ In k (keys rib).
Proof.
  unfold rib_names_apart. intros H Hrib Hk Hin. rewrite Hrib in H.
  rewrite forallb_forall in H. unfold keys in Hin. apply in_map_iff in Hin.
  destruct Hin as [[k' t] [Hk' Hin]]. simpl in Hk'. subst k'.
  specialize (H _ Hin). simpl in H. now rewrite Hk in H.
Qed.

(** What a record that was built went through. *)
Lemma neighbor_record_inv fs r :
  neighbor_record fs = Ok r ->
  exists las las2 ras ras2 addr rib d3,
    dict_get (source_details fs) "local_as" = Some las /\
    dict_get (source_details fs) "local_as_2" = Some las2 /\
    dict_get (source_details fs) "remote_as" = Some ras /\
    dict_get (source_details fs) "remote_as_2" = Some ras2 /\
    dict_get (source_details fs) "local_address" = Some (PStr addr) /\
    dict_get (source_details fs) "rib" = Some (PDict rib) /\
    rfor_each rib (dict_remove d3 "rib") append_rib = Ok r /\
    dict_get d3 "local_as" = Some (kept las las2) /\
    dict_get d3 "remote_as" = Some (kept ras ras2) /\
    dict_get d3 "local_as_2" = None /\
    dict_get d3 "remote_as_2" = None /\
    dict_get d3 "local_address" = Some (PStr (split_head "+" addr)).
Proof.
  intros H.
  destruct (supplies fs "local_as_2" && supplies fs "remote_as_2") eqn:Es.
  2:{ rewrite (neighbor_record_missing fs Es) in H. discriminate. }
  apply andb_prop in Es. destruct Es as [E1 E2].
  destruct (source_details_default fs "local_as") as [las Hlas]; [simpl; tauto|].
  destruct (source_details_default fs "remote_as") as [ras Hras]; [simpl; tauto|].
  destruct (source_details_default fs "local_address") as [a Ha]; [simpl; tauto|].
  destruct (source_details_supplied fs "local_as_2" E1) as [las2 Hlas2].
  destruct (source_details_supplied fs "remote_as_2" E2) as [ras2 Hras2].
  unfold neighbor_record in H. simpl in H.
  destruct (reconcile_as (source_details fs) "local_as") as [|d1] eqn:Ed1;
    [discriminate|]. simpl in H.
  destruct (reconcile_as_get _ "local_as" las las2 d1 ltac:(discriminate) Hlas Hlas2 Ed1)
    as (G1 & G1' & R1).
  simpl in G1'.
  assert (Hras1 : dict_get d1 "remote_as" = Some ras)
    by (rewrite R1 by discriminate; exact Hras).
  assert (Hras21 : dict_get d1 ("remote_as" ++ "_2") = Some ras2)
    by (simpl; rewrite R1 by discriminate; exact Hras2).
  destruct (reconcile_as d1 "remote_as") as [|d2] eqn:Ed2; [discriminate|].
  simpl in H.
  destruct (reconcile_as_get _ "remote_as" ras ras2 d2 ltac:(discriminate) Hras1 Hras21 Ed2)
    as (G2 & G2' & R2).
  simpl in G2'.
  assert (Ha2 : dict_get d2 "local_address" = Some a).
  { rewrite R2 by discriminate. rewrite R1 by discriminate. exact Ha. }
  unfold subscript in H at 1. rewrite Ha2 in H. simpl in H.
  destruct a as [| | |addr| | |]; simpl in H; try discriminate.
  set (d3 := dict_set d2 "local_address" (PStr (split_head "+" addr))) in *.
  unfold dict_pop in H.
  assert (Hrib3 : dict_get d3 "rib" = dict_get (source_details fs) "rib").
  { unfold d3. rewrite dict_get_set_other by discriminate.
    rewrite R2 by discriminate. now rewrite R1 by discriminate. }
  rewrite Hrib3 in H.
  destruct (dict_get (source_details fs) "rib") as [ribv|] eqn:Erib;
    simpl in H; [|discriminate].
  destruct ribv as [| | | | | |rib]; simpl in H; try discriminate.
  exists las, las2, ras, ras2, addr, rib, d3.
  repeat split; auto.
  - unfold d3. rewrite dict_get_set_other by discriminate.
    rewrite R2 by discriminate. exact G1.
  - unfold d3. rewrite dict_get_set_other by discriminate. exact G2.
  - unfold d3. rewrite dict_get_set_other by discriminate.
    rewrite R2 by discriminate. exact G1'.
  - unfold d3. rewrite dict_get_set_other by discriminate. exact G2'.
  - unfold d3. apply dict_get_set_same.
Qed.

(** Every record of the result comes from an entry of the table. *)
Lemma bgp_detail_loop_origin table :
  forall acc out,
    rfor_each table acc bgp_detail_entry = Ok out ->
    forall key record,
      dict_get out key = Some record ->
      dict_get acc key = Some record \/
      exists nkey fs r,
        In (nkey, fs) table /\ key = split_head "+" nkey /\
        record = PDict r /\ neighbor_record fs = Ok r.
Proof.
  induction table as [|[nkey fs] table IH]; intros acc out H key record Hget; simpl in H.
  - injection H as <-. now left.
  - unfold bgp_detail_entry at 1 in H. simpl in H.
    destruct (neighbor_record fs) as [|r] eqn:Er; simpl in H; [discriminate|].
    destruct (IH _ _ H key record Hget) as [Hacc|(nkey' & fs' & r' & Hin & Hrest)].
    + destruct (String.eqb_spec (split_head "+" nkey) key) as [<-|Hne].
      * rewrite dict_get_set_same in Hacc. injection Hacc as <-.
        right. exists nkey, fs, r. simpl. auto.
      * rewrite dict_get_set_other in Hacc by assumption. now left.
    + right. exists nkey', fs', r'. simpl. tauto.
Qed.

(** C4, as the code has it.  Every record the BGP-neighbors-detail getter
    returns is stored under a neighbor key without port suffix and comes from
    an entry of the table.  When no routing table of that entry's rib goes by
    the name of a reconciled field, the record's [local_as] and [remote_as]
    each hold exactly one of the two source values, the unsuffixed one when it
    is truthy and the fallback otherwise; the record has neither [local_as_2]
    nor [remote_as_2]; and its [local_address] is the source address up to
    its first [+]. *)
Theorem bgp_detail_reconciled (dev : device) (s s' : driver)
  (table : items string) (out : dict) :
  junos_bgp_neighbors_table dev = Ok table ->
  get_bgp_neighbors_detail dev s = (Ok out, s') ->
  forall key record,
    dict_get out key = Some record ->
    has_char plus_sign key = false /\
    exists nkey fs r,
      In (nkey, fs) table /\ key = split_head "+" nkey /\ record = PDict r /\
      (rib_names_apart fs = true ->
       exists las las2 ras ras2 addr,
         dict_get (source_details fs) "local_as" = Some las /\
         dict_get (source_details fs) "local_as_2" = Some las2 /\
         dict_get (source_details fs) "remote_as" = Some ras /\
         dict_get (source_details fs) "remote_as_2" = Some ras2 /\
         dict_get (source_details fs) "local_address" = Some (PStr addr) /\
         dict_get r "local_as" = Some (kept las las2) /\
         dict_get r "remote_as" = Some (kept ras ras2) /\
         dict_get r "local_as_2" = None /\
         dict_get r "remote_as_2" = None /\
         dict_get r "local_address" = Some (PStr (split_head "+" addr)) /\
         has_char plus_sign (split_head "+" addr) = false).
Proof.
  intros Htable Hrun key record Hget.
  assert (Hloop : rfor_each table [] bgp_detail_entry = Ok out).
  { unfold get_bgp_neighbors_detail, rpc_get, bind, send_rpc, modify, ret, lift in Hrun.
    rewrite Htable in Hrun. simpl in Hrun. now injection Hrun as -> _. }
  destruct (bgp_detail_loop_origin table [] out Hloop key record Hget)
    as [Habs|(nkey & fs & r & Hin & -> & -> & Hr)]; [discriminate|].
  split; [apply has_char_split_head|].
  exists nkey, fs, r. repeat split; auto.
  intros Hapart.
  destruct (neighbor_record_inv fs r Hr)
    as (las & las2 & ras & ras2 & addr & rib & d3 &
        Hlas & Hlas2 & Hras & Hras2 & Haddr & Hrib & Hloop3 &
        G1 & G2 & G3 & G4 & G5).
  exists las, las2, ras, ras2, addr.
  pose proof (fun k Hk => append_rib_elsewhere rib _ _ Hloop3 k
                            (rib_names_apart_not_in fs rib k Hapart Hrib Hk)) as Hout.
  repeat split; auto.
  - rewrite Hout by reflexivity. rewrite dict_get_remove_other by discriminate. exact G1.
  - rewrite Hout by reflexivity. rewrite dict_get_remove_other by discriminate. exact G2.
  - rewrite Hout by reflexivity. rewrite dict_get_remove_other by discriminate. exact G3.
  - rewrite Hout by reflexivity. rewrite dict_get_remove_other by discriminate. exact G4.
  - rewrite Hout by reflexivity. rewrite dict_get_remove_other by discriminate. exact G5.
  - apply has_char_split_head.
Qed.

End BgpReconciliation.

Lemma bgp_detail_reconciled_witness :
  exists out s' record,
    CustomJunOSDriver.get_bgp_neighbors_detail
      (Sample.bgp_device Sample.neighbor_fields) Sample.fresh = (Ok out, s') /\
    dict_get out "192.0.2.2" = Some record /\
    has_char plus_sign "192.0.2.2" = false /\
    exists nkey fs r,
      In (nkey, fs) [("192.0.2.2+52000", Sample.neighbor_fields)] /\
      "192.0.2.2" = split_head "+" nkey /\ record = PDict r /\
      (rib_names_apart fs = true ->
       exists las las2 ras ras2 addr,
         dict_get (CustomJunOSDriver.source_details fs) "local_as" = Some las /\
         dict_get (CustomJunOSDriver.source_details fs) "local_as_2" = Some las2 /\
         dict_get (CustomJunOSDriver.source_details fs) "remote_as" = Some ras /\
         dict_get (CustomJunOSDriver.source_details fs) "remote_as_2" = Some ras2 /\
         dict_get (CustomJunOSDriver.source_details fs) "local_address" = Some (PStr addr) /\
         dict_get r "local_as" = Some (kept las las2) /\
         dict_get r "remote_as" = Some (kept ras ras2) /\
         dict_get r "local_as_2" = None /\
         dict_get r "remote_as_2" = None /\
         dict_get r "local_address" = Some (PStr (split_head "+" addr)) /\
         has_char plus_sign (split_head "+" addr) = false).
Proof.
  eexists _, _, _.
  split; [reflexivity|]. split; [reflexivity|].
  exact (bgp_detail_reconciled
           (Sample.bgp_device Sample.neighbor_fields) Sample.fresh _
           [("192.0.2.2+52000", Sample.neighbor_fields)] _
           eq_refl eq_refl "192.0.2.2" _ eq_refl).
Defined.

(** C4 as stated fails where a routing table of the rib is named
    [local_as_2]: the fallback key, popped during reconciliation, is back in
    the record the getter returns. *)
Lemma bgp_detail_fallback_key_reappears :
  exists out s' r,
    CustomJunOSDriver.get_bgp_neighbors_detail
      (Sample.bgp_device Sample.clashing_fields) Sample.fresh = (Ok out, s') /\
    dict_get out "192.0.2.2" = Some (PDict r) /\
    dict_get r "local_as_2" = Some (PDict [("received_prefix_count", PInt 5)]).
Proof. do 3 eexists. repeat split; reflexivity. Qed.

(** ** The interface merge *)

Section InterfaceMerge.

Import Main.

(** One merge pass keeps the interfaces and adds only fields of its table. *)
Lemma collapse_onto_spec (i : table) :
  forall acc : table,
    keys (collapse_onto acc i) = keys acc /\
    forall k r,
      dict_get (collapse_onto acc i) k = Some r ->
      exists r0,
        dict_get acc k = Some r0 /\
        forall f, In f (keys r) ->
                  In f (keys r0) \/ exists v, In (k, v) i /\ In f (keys v).
Proof.
  unfold collapse_onto.
  induction i as [|[k' v] i IH]; intros acc; simpl.
  - split; [reflexivity|]. intros k r H. exists r. auto.
  - set (acc1 := match dict_get acc k' with
                 | Some r => if truthy (PDict r)
                             then dict_set acc k' (dict_update r v) else acc
                 | None => acc
                 end).
    assert (Hstep : keys acc1 = keys acc /\
                    forall k r1, dict_get acc1 k = Some r1 ->
                      exists r0, dict_get acc k = Some r0 /\
                        forall f, In f (keys r1) ->
                                  In f (keys r0) \/ (k = k' /\ In f (keys v))).
    { unfold acc1. destruct (dict_get acc k') as [r|] eqn:E.
      - destruct (truthy (PDict r)).
        + split.
          * apply keys_set_present. eapply dict_get_some_in_keys; eauto.
          * intros k r1 H1. destruct (String.eqb_spec k' k) as [<-|Hne].
            -- rewrite dict_get_set_same in H1. injection H1 as <-.
               exists r. split; auto. intros f Hf.
               apply keys_update in Hf. tauto.
            -- rewrite dict_get_set_other in H1 by assumption. eauto.
        + split; eauto.
      - split; eauto. }
    destruct Hstep as [Hkeys Hprov].
    destruct (IH acc1) as [IHkeys IHprov].
    split; [eapply eq_trans; [exact IHkeys | exact Hkeys]|].
    intros k r H. destruct (IHprov k r H) as (r1 & H1 & P1).
    destruct (Hprov k r1 H1) as (r0 & H0 & P0).
    exists r0. split; auto. intros f Hf.
    destruct (P1 f Hf) as [Hf1|(v' & Hin & Hfv)].
    + destruct (P0 f Hf1) as [?|[-> ?]]; eauto.
    + eauto.
Qed.

Lemma collapse_sources_spec (sources : list table) :
  forall acc : table,
    keys (fold_left collapse_onto sources acc) = keys acc /\
    forall k r,
      dict_get (fold_left collapse_onto sources acc) k = Some r ->
      exists r0,
        dict_get acc k = Some r0 /\
        forall f, In f (keys r) ->
                  In f (keys r0) \/
                  exists src v, In src sources /\ In (k, v) src /\ In f (keys v).
Proof.
  induction sources as [|src sources IH]; intros acc; simpl.
  - split; [reflexivity|]. intros k r H. exists r. auto.
  - destruct (collapse_onto_spec src acc) as [Hkeys Hprov].
    destruct (IH (collapse_onto acc src)) as [IHkeys IHprov].
    split; [eapply eq_trans; [exact IHkeys | exact Hkeys]|].
    intros k r H. destruct (IHprov k r H) as (r1 & H1 & P1).
    destruct (Hprov k r1 H1) as (r0 & H0 & P0).
    exists r0. split; auto. intros f Hf.
    destruct (P1 f Hf) as [Hf1|(s' & v' & Hs & Hin & Hfv)].
    + destruct (P0 f Hf1) as [?|(v' & Hin & Hfv)]; [now left|].
      right. exists src, v'. simpl. auto.
    + right. exists s', v'. simpl. auto.
Qed.

Lemma filled_refl r : filled r r.
Proof. unfold filled. auto. Qed.

Lemma filled_trans r0 r1 r2 : filled r0 r1 -> filled r1 r2 -> filled r0 r2.
Proof.
  unfold filled. intros (K1 & V1 & P1) (K2 & V2 & P2). repeat split.
  - intros f Hf. destruct (K2 f Hf); auto.
  - intros v Hv. destruct (V2 v Hv); auto.
  - auto.
Qed.

Lemma filled_false r : filled r (dict_update r [("mpls_enabled", PBool false)]).
Proof.
  unfold filled, dict_update. simpl. repeat split.
  - intros f Hf. apply keys_set in Hf. tauto.
  - intros v Hv. rewrite dict_get_set_same in Hv. left. congruence.
  - intros _. rewrite dict_get_set_same. discriminate.
Qed.

(** The fill-in loop over a list of interface names of the table. *)
Lemma fill_loop (l : list string) :
  forall acc : table,
    (forall i, In i l -> In i (keys acc)) ->
    exists out,
      rfor_each l acc
        (fun acc i =>
           r <~ subscript acc i ;;
           if negb (truthy (dict_get_default r "mpls_enabled"))
           then
             r <~ subscript acc i ;;
             Ok (dict_set acc i (dict_update r [("mpls_enabled", PBool false)]))
           else Ok acc) = Ok out /\
      keys out = keys acc /\
      forall k r,
        dict_get out k = Some r ->
        exists r0,
          dict_get acc k = Some r0 /\ filled r0 r /\
          (In k l -> dict_get r "mpls_enabled" <> None).
Proof.
  induction l as [|i l IH]; intros acc Hl.
  - exists acc. simpl. repeat split; auto.
    intros k r H. exists r. split; [exact H|]. split; [apply filled_refl|]. intros [].
  - assert (Hi : In i (keys acc)) by (apply Hl; now left).
    apply dict_get_in_keys in Hi.
    destruct (dict_get acc i) as [ri|] eqn:Ei; [clear Hi|congruence].
    cbn [rfor_each]. unfold subscript at 1. rewrite Ei. cbn [rbind].
    set (acc1 := if negb (truthy (dict_get_default ri "mpls_enabled"))
                 then dict_set acc i (dict_update ri [("mpls_enabled", PBool false)])
                 else acc).
    assert (Hstep :
              (if negb (truthy (dict_get_default ri "mpls_enabled"))
               then r <~ subscript acc i ;;
                    Ok (dict_set acc i (dict_update r [("mpls_enabled", PBool false)]))
               else Ok acc) = Ok acc1).
    { unfold acc1, subscript. rewrite Ei.
      destruct (negb (truthy (dict_get_default ri "mpls_enabled"))); reflexivity. }
    rewrite Hstep. cbn [rbind].
    assert (Hkeys1 : keys acc1 = keys acc).
    { unfold acc1. destruct (negb _); auto.
      apply keys_set_present. eapply dict_get_some_in_keys; eauto. }
    assert (Hrec1 : forall k r1, dict_get acc1 k = Some r1 ->
               exists r0, dict_get acc k = Some r0 /\ filled r0 r1 /\
                          (k = i -> dict_get r1 "mpls_enabled" <> None)).
    { unfold acc1. intros k r1 H1.
      destruct (negb (truthy (dict_get_default ri "mpls_enabled"))) eqn:Et.
      - destruct (String.eqb_spec i k) as [<-|Hne].
        + rewrite dict_get_set_same in H1. injection H1 as <-.
          exists ri. split; [exact Ei|]. split; [apply filled_false|].
          intros _. unfold dict_update. simpl. rewrite dict_get_set_same. discriminate.
        + rewrite dict_get_set_other in H1 by assumption.
          exists r1. split; [exact H1|]. split; [apply filled_refl|]. congruence.
      - exists r1. split; [exact H1|]. split; [apply filled_refl|].
        intros ->. rewrite Ei in H1. injection H1 as <-.
        apply negb_false_iff in Et. unfold dict_get_default in Et.
        destruct (dict_get ri "mpls_enabled"); [discriminate|discriminate]. }
    destruct (IH acc1) as (out & Hrun & Hkeys & Hrec).
    { intros j Hj. rewrite Hkeys1. apply Hl. now right. }
    exists out. split; [exact Hrun|].
    split; [eapply eq_trans; [exact Hkeys | exact Hkeys1]|].
    intros k r H. destruct (Hrec k r H) as (r1 & H1 & F1 & D1).
    destruct (Hrec1 k r1 H1) as (r0 & H0 & F0 & D0).
    exists r0. split; auto. split; [eapply filled_trans; eauto|].
    intros [<-|Hin]; auto.
    destruct F1 as (_ & _ & P). auto.
Qed.

Lemma collapse_all_spec (base : table) (sources : list table) :
  exists out,
    collapse_all base sources = Ok out /\
    keys out = keys base /\
    forall k r,
      dict_get out k = Some r ->
      (exists v, dict_get r "mpls_enabled" = Some v /\
                 (~ reported base sources k "mpls_enabled" -> v = PBool false)) /\
      (forall f, In f (keys r) -> f = "mpls_enabled" \/ reported base sources k f).
Proof.
  unfold collapse_all, fill_mpls.
  destruct (collapse_sources_spec sources base) as [Hkeys Hprov].
  destruct (fill_loop (keys (fold_left collapse_onto sources base))
              (fold_left collapse_onto sources base) (fun i H => H))
    as (out & Hrun & Hkeys' & Hrec).
  exists out. split; [exact Hrun|].
  split; [eapply eq_trans; [exact Hkeys' | exact Hkeys]|].
  intros k r H.
  destruct (Hrec k r H) as (r1 & H1 & (FK & FV & FP) & D).
  destruct (Hprov k r1 H1) as (r0 & H0 & P0).
  assert (Hrep : forall f, In f (keys r1) -> reported base sources k f).
  { intros f Hf. destruct (P0 f Hf) as [?|(src & v & ? & ? & ?)].
    - left. eauto.
    - right. eauto. }
  split.
  - assert (Hk : In k (keys (fold_left collapse_onto sources base)))
      by (eapply dict_get_some_in_keys; eauto).
    specialize (D Hk).
    destruct (dict_get r "mpls_enabled") as [v|] eqn:Ev; [|congruence].
    exists v. split; auto. intros Hnot.
    destruct (FV v eq_refl) as [?|Hv1]; auto.
    exfalso. apply Hnot. apply Hrep. eapply dict_get_some_in_keys; eauto.
  - intros f Hf. destruct (FK f Hf); auto.
Qed.

End InterfaceMerge.

Section CommonGetters.

Import Main.

(** A getter that answers hands its answer on. *)
Lemma ask_ok {A : Type} who getter arg (a : A) s :
  exists s', ask who getter arg (Ok a) s = (Ok a, s').
Proof. unfold ask, bind, pass_time, emit, modify, lift. simpl. eauto. Qed.

(** C9. When the getters have answered, the merge pass returns a mapping with
    exactly the interfaces of the base inventory, in its order: an entry of a
    later table for an interface the inventory lacks goes nowhere.  Every
    record has an [mpls_enabled] field, [False] unless some table reported the
    field for that interface, and every other field of a record was reported
    for that interface by the inventory or by one of the merged tables. *)
Theorem interface_common_getters_merge (ext : externals) (conn : session)
  (extra_inputs : list table) (s : main)
  (base ip_ifaces mpls isis arp nd : table) (raw : pyval) :
  get_interfaces conn = Ok base ->
  get_interfaces_ip conn = Ok raw ->
  format_ip_int ext raw = Ok ip_ifaces ->
  get_mpls_interfaces_custom conn = Ok mpls ->
  get_isis_interfaces_custom conn = Ok isis ->
  get_arp_table_custom conn = Ok arp ->
  get_nd_table_custom conn = Ok nd ->
  exists out s',
    _interface_common_getters ext conn extra_inputs s = (Ok out, s') /\
    merged base ([ip_ifaces; ip_ifaces; mpls; isis; arp; nd] ++ extra_inputs)%list out.
Proof.
  intros Hbase Hraw Hip Hmpls Hisis Harp Hnd.
  destruct (collapse_all_spec base
              ([ip_ifaces; ip_ifaces; mpls; isis; arp; nd] ++ extra_inputs)%list)
    as (out & Hrun & Hmerged).
  exists out.
  unfold _interface_common_getters.
  rewrite Hbase, Hraw, Hmpls, Hisis, Harp, Hnd.
  unfold bind at 1. destruct (ask_ok Primary "get_interfaces" PNone base s) as [s1 ->].
  unfold bind at 1. destruct (ask_ok Primary "get_interfaces_ip" PNone raw s1) as [s2 ->].
  unfold bind at 1. unfold lift at 1. rewrite Hip.
  unfold bind at 1. destruct (ask_ok Primary "get_mpls_interfaces_custom" PNone mpls s2) as [s3 ->].
  unfold bind at 1. destruct (ask_ok Primary "get_isis_interfaces_custom" PNone isis s3) as [s4 ->].
  unfold bind at 1. destruct (ask_ok Primary "get_arp_table_custom" PNone arp s4) as [s5 ->].
  unfold bind at 1. destruct (ask_ok Primary "get_nd_table_custom" PNone nd s5) as [s6 ->].
  unfold lift. rewrite Hrun. exists s6. split; [reflexivity|exact Hmerged].
Qed.

End CommonGetters.

Lemma interface_common_getters_merge_witness :
  exists out s',
    Main._interface_common_getters SampleRun.ext SampleRun.edge
      [SampleRun.counters] SampleRun.start = (Ok out, s') /\
    merged SampleRun.inventory
      [SampleRun.addresses; SampleRun.addresses; SampleRun.mpls_table;
       SampleRun.isis_table; SampleRun.arp_table; SampleRun.nd_table;
       SampleRun.counters] out.
Proof.
  exact (interface_common_getters_merge SampleRun.ext SampleRun.edge
           [SampleRun.counters] SampleRun.start
           SampleRun.inventory SampleRun.addresses SampleRun.mpls_table
           SampleRun.isis_table SampleRun.arp_table SampleRun.nd_table PNone
           eq_refl eq_refl eq_refl eq_refl eq_refl eq_refl eq_refl).
Defined.

(** ** Pacing of the secondary session *)

Section Pacing.

Import Main.




















Local Opaque Z.add Z.sub Z.ltb Z.of_N thirty_seconds.


Local Transparent Z.add Z.sub Z.ltb Z.of_N thirty_seconds.














End Pacing.


(** ** The per-circuit record *)

Section CircuitRecord.

Import Main.

Lemma bind_ok_inv {S A B} (m : M S A) (k : A -> M S B) s b s' :
  bind m k s = (Ok b, s') ->
  exists a s1, m s = (Ok a, s1) /\ k a s1 = (Ok b, s').
Proof.
  unfold bind. destruct (m s) as [[e|a] s1]; [discriminate|]. eauto.
Qed.

Lemma lift_ok_inv {S A} (x : result A) (s s' : S) a :
  lift x s = (Ok a, s') -> x = Ok a /\ s' = s.
Proof. unfold lift. intros H. injection H as -> ->. auto. Qed.

Lemma asked_routes_app tr1 tr2 :
  asked_routes (tr1 ++ tr2) = (asked_routes tr1 ++ asked_routes tr2)%list.
Proof. unfold asked_routes. apply flat_map_app. Qed.

Lemma asking_ret {A} (a : A) : asking [] (ret a).
Proof. intros s x s' H. injection H as _ <-. now rewrite app_nil_r. Qed.

Lemma asking_raise {A} l (e : exn) : asking l (@raise main A e).
Proof. intros s x s' H. discriminate. Qed.

Lemma asking_lift {A} (x : result A) : asking [] (lift x).
Proof.
  intros s a s' H. apply lift_ok_inv in H. destruct H as [_ ->].
  now rewrite app_nil_r.
Qed.

Lemma asking_get_state : asking [] (@get_state main).
Proof. intros s x s' H. injection H as _ <-. now rewrite app_nil_r. Qed.

Lemma asking_time_time : asking [] time_time.
Proof. intros s x s' H. injection H as _ <-. now rewrite app_nil_r. Qed.

Lemma asking_bind {A B} l1 l2 l (c : M main A) (k : A -> M main B) :
  asking l1 c -> (forall a, asking l2 (k a)) -> l = (l1 ++ l2)%list ->
  asking l (bind c k).
Proof.
  intros Hc Hk -> s b s' H. apply bind_ok_inv in H.
  destruct H as (a & s1 & H1 & H2).
  rewrite (Hk a _ _ _ H2), (Hc _ _ _ H1). now rewrite app_assoc.
Qed.

Lemma asking_bind0 {A B} l (c : M main A) (k : A -> M main B) :
  asking [] c -> (forall a, asking l (k a)) -> asking l (bind c k).
Proof. intros Hc Hk. now apply (asking_bind [] l). Qed.

Lemma asking_pass_time : asking [] pass_time.
Proof.
  intros s x s' H. unfold pass_time, modify in H. injection H as _ <-.
  destruct (pending s); simpl; now rewrite app_nil_r.
Qed.

Lemma asking_emit e : asking (asked_routes [e]) (emit e).
Proof.
  intros s x s' H. unfold emit, modify in H. injection H as _ <-.
  simpl trace. apply asked_routes_app.
Qed.

Lemma asking_ask_routes i (answer : result pyval) :
  asking [i] (ask Primary "get_bgp_neighbor_routes_custom" i answer).
Proof.
  unfold ask. apply asking_bind0; [apply asking_pass_time|intros _].
  apply (asking_bind [i] []); [apply asking_emit|intros _; apply asking_lift|reflexivity].
Qed.

Lemma asking_ask_secondary {A} getter arg (answer : result A) :
  asking [] (ask Secondary getter arg answer).
Proof.
  unfold ask. apply asking_bind0; [apply asking_pass_time|intros _].
  apply asking_bind0; [apply asking_emit|intros _; apply asking_lift].
Qed.

Lemma asking_get_dns_name ext ipaddress : asking [] (_get_dns_name ext ipaddress).
Proof.
  unfold _get_dns_name. apply asking_bind0; [apply asking_pass_time|intros _].
  destruct (gethostbyaddr ext ipaddress) as [[]|];
    first [apply asking_ret | apply asking_raise].
Qed.

Lemma asking_interface_block ext c circuit_data :
  asking [] (interface_block ext c circuit_data).
Proof.
  unfold interface_block.
  repeat (apply asking_bind0;
          [first [apply asking_lift | apply asking_get_dns_name]|intro]).
  apply asking_ret.
Qed.

Lemma asking_open_global_router : asking [] open_global_router.
Proof.
  unfold open_global_router, sleep, napalm_connect, open.
  repeat first
    [ apply asking_ret | apply asking_raise | apply asking_time_time
    | apply asking_get_state | apply asking_pass_time
    | apply (asking_emit (Slept _ _ _)) | apply (asking_emit (OneTimeCode _ _))
    | apply (asking_emit (Opened _ _))
    | apply asking_bind0; [|intro]
    | match goal with |- asking _ (if ?b then _ else _) => destruct b end
    | (intros s x s' H; unfold modify in H; injection H as _ <-;
       simpl; now rewrite app_nil_r) ].
Qed.

Lemma asking_two (A : Type) (body : A -> pyval -> M main A) v4 v6 acc :
  (forall a i, asking (if truthy i then [i] else []) (body a i)) ->
  asking (filter truthy [v4; v6]) (for_each [v4; v6] acc body).
Proof.
  intros Hb. simpl for_each.
  eapply asking_bind; [apply Hb|intro|].
  - eapply asking_bind; [apply Hb|intro; apply asking_ret|reflexivity].
  - simpl. destruct (truthy v4), (truthy v6); reflexivity.
Qed.

Lemma asking_junos_routes conn c :
  asking (filter truthy [v4_neighbor c; v6_neighbor c]) (junos_routes conn c).
Proof.
  unfold junos_routes.
  eapply asking_bind; [apply asking_two|intro; apply asking_ret|now rewrite app_nil_r].
  intros a i. destruct (truthy i); [|apply asking_ret].
  eapply asking_bind; [apply asking_ask_routes|intro|reflexivity].
  apply asking_bind0; [apply asking_lift|intro; apply asking_ret].
Qed.

Lemma asking_global_routes conn global counter c :
  asking (filter truthy [v4_neighbor c; v6_neighbor c])
    (global_routes conn global counter c).
Proof.
  unfold global_routes.
  eapply asking_bind; [apply asking_two|intro|now rewrite app_nil_r].
  - intros a i. destruct (truthy i); [|apply asking_ret].
    eapply asking_bind; [apply asking_ask_routes|intro|reflexivity].
    apply asking_bind0; [apply asking_lift|intro; apply asking_ret].
  - apply asking_bind0.
    + destruct (counter =? 0)%nat; [apply asking_open_global_router|apply asking_ret].
    + intros _. apply asking_bind0; [apply asking_get_state|intros st].
      destruct (juniper_connection st);
        [apply asking_ask_secondary|apply asking_raise].
Qed.

Lemma asking_routes conn global data counter c :
  asking (filter truthy [v4_neighbor c; v6_neighbor c])
    (if (device_type data =? "junos")%string
     then junos_routes conn c
     else global_routes conn global counter c).
Proof.
  destruct (device_type data =? "junos")%string;
    [apply asking_junos_routes|apply asking_global_routes].
Qed.

Lemma update_at_record d k r e :
  dict_get d k = Some (PDict r) ->
  update_at d k e = Ok (dict_set d k (PDict (dict_update r e))).
Proof. intros H. unfold update_at, subscript. now rewrite H. Qed.

Lemma infer_neighbors_v4 c circuit_data :
  v4_neighbor (infer_neighbors c circuit_data) =
  or_next_hop (v4_neighbor c) circuit_data "arp_nh".
Proof.
  unfold infer_neighbors, or_next_hop.
  destruct (truthy (v4_neighbor c)) eqn:E4; simpl;
    destruct (truthy (v6_neighbor c)); simpl; rewrite ?E4; reflexivity.
Qed.

Lemma infer_neighbors_v6 c circuit_data :
  v6_neighbor (infer_neighbors c circuit_data) =
  or_next_hop (v6_neighbor c) circuit_data "nd_nh".
Proof.
  unfold infer_neighbors, or_next_hop.
  destruct (truthy (v4_neighbor c)); simpl;
    destruct (truthy (v6_neighbor c)) eqn:E6; simpl; rewrite ?E6; reflexivity.
Qed.

Lemma ask_ok_inv {A} who getter arg (answer : result A) s a s' :
  ask who getter arg answer s = (Ok a, s') -> answer = Ok a.
Proof.
  unfold ask. intros H.
  apply bind_ok_inv in H. destruct H as (? & sa & _ & H).
  apply bind_ok_inv in H. destruct H as (? & sb & _ & H).
  apply lift_ok_inv in H. tauto.
Qed.

(** What the primary session answered for the addresses that are not empty,
    folded as the loop over the two neighbors folds it. *)
Lemma neighbor_lookups_value {A E} (conn : session) (f : pyval -> result E)
  (g : A -> E -> A) (l : list pyval) :
  forall acc s out s',
    for_each l acc
      (fun acc i =>
         if truthy i then
           r <- ask Primary "get_bgp_neighbor_routes_custom" i
                  (get_bgp_neighbor_routes_custom conn i) ;;
           e <- lift (f r) ;;
           ret (g acc e)
         else ret acc) s = (Ok out, s') ->
    rfor_each (filter truthy l) acc
      (fun acc i =>
         r <~ get_bgp_neighbor_routes_custom conn i ;;
         e <~ f r ;;
         Ok (g acc e)) = Ok out.
Proof.
  induction l as [|i l IH]; intros acc s out s' H.
  - simpl in H. now injection H as <- _.
  - cbn [for_each] in H. apply bind_ok_inv in H. destruct H as (acc1 & s1 & Hi & H).
    cbn [filter]. destruct (truthy i).
    + apply bind_ok_inv in Hi. destruct Hi as (r & s2 & Hr & Hi).
      apply ask_ok_inv in Hr.
      apply bind_ok_inv in Hi. destruct Hi as (e & s3 & He & Hi).
      apply lift_ok_inv in He. destruct He as [He _].
      injection Hi as <- _.
      cbn [rfor_each]. rewrite Hr. cbn [rbind]. rewrite He. cbn [rbind].
      eapply IH; eauto.
    + injection Hi as <- <-. eapply IH; eauto.
Qed.

(** The routes stored for a circuit are those of its two neighbor addresses. *)
Lemma routes_value conn global data counter c s routes s' :
  (if (device_type data =? "junos")%string
   then junos_routes conn c
   else global_routes conn global counter c) s = (Ok routes, s') ->
  neighbor_routes conn global data [v4_neighbor c; v6_neighbor c] = Ok routes.
Proof.
  unfold neighbor_routes. destruct (device_type data =? "junos")%string; intros H.
  - unfold junos_routes in H.
    apply bind_ok_inv in H. destruct H as (routes_dict & s1 & Hl & H).
    apply (neighbor_lookups_value conn py_dict (@dict_update pyval)) in Hl.
    rewrite Hl. cbn [rbind]. now injection H as <- _.
  - unfold global_routes in H.
    apply bind_ok_inv in H. destruct H as (routes_list & s1 & Hl & H).
    apply (neighbor_lookups_value conn py_iter (@app pyval)) in Hl.
    rewrite Hl. cbn [rbind].
    apply bind_ok_inv in H. destruct H as (? & s2 & _ & H).
    apply bind_ok_inv in H. destruct H as (st & s3 & _ & H).
    destruct (juniper_connection st); [|discriminate].
    now apply ask_ok_inv in H.
Qed.

(** One round of the loop over the circuits. *)
Lemma circuit_body_inv (ext : externals) (conn global : session)
  (data : run_data) (interfaces_all : table) (output_dict out : dict)
  (counter : nat) (c : circuit) (s s' : main) :
  circuit_body ext conn global data interfaces_all output_dict (counter, c) s
  = (Ok out, s') ->
  exists circuit_data,
    dict_get interfaces_all (port c) = Some circuit_data /\
    circuit_record conn global data circuit_data c out /\
    asked_routes (trace s') =
    (asked_routes (trace s) ++ lookup_neighbors interfaces_all c)%list /\
    forall label, label <> "CLR-" ++ clr c ->
                  dict_get out label = dict_get output_dict label.
Proof.
  intros H. unfold circuit_body in H.
  apply bind_ok_inv in H. destruct H as (circuit_data & s0 & H0 & H).
  apply lift_ok_inv in H0. destruct H0 as [H0 ->].
  unfold subscript in H0.
  destruct (dict_get interfaces_all (port c)) as [cd|] eqn:Hdata; [|discriminate].
  injection H0 as ->.
  exists circuit_data. split; [reflexivity|].
  apply bind_ok_inv in H. destruct H as (interface & s1 & Hi & H).
  pose proof (asking_interface_block _ _ _ _ _ _ Hi) as Ti. rewrite app_nil_r in Ti.
  apply bind_ok_inv in H. destruct H as ([od c'] & s2 & Hb & H).
  apply bind_ok_inv in H. destruct H as (routes & s3 & Hr & H).
  apply lift_ok_inv in H. destruct H as [H ->].
  pose proof (asking_routes _ _ _ _ _ _ _ _ Hr) as Tr.
  pose proof (routes_value _ _ _ _ _ _ _ _ Hr) as Vr.
  unfold lookup_neighbors, circuit_record. rewrite Hdata.
  set (label := "CLR-" ++ clr c) in *.
  destruct (truthy (dict_get_default circuit_data "isis_state")) eqn:Hisis.
  - apply bind_ok_inv in Hb. destruct Hb as (isis & s4 & Hblock & Hb).
    apply lift_ok_inv in Hblock. destruct Hblock as [Hblock ->].
    apply bind_ok_inv in Hb. destruct Hb as (od' & s5 & Hup & Hb).
    apply lift_ok_inv in Hup. destruct Hup as [Hup ->].
    injection Hb as <- <- <-.
    unfold isis_block, subscript in Hblock.
    destruct (dict_get circuit_data "isis_neighbor") as [neighbor|]; [|discriminate].
    destruct (dict_get circuit_data "isis_nh") as [nh|]; [|discriminate].
    destruct (dict_get circuit_data "isis_metric") as [metric|]; [|discriminate].
    destruct (dict_get circuit_data "mpls_enabled") as [mpls|]; [|discriminate].
    simpl in Hblock. injection Hblock as <-.
    rewrite (update_at_record _ _ _ _ (dict_get_set_same _ _ _)) in Hup.
    injection Hup as <-.
    rewrite (update_at_record _ _ _ _ (dict_get_set_same _ _ _)) in H.
    injection H as <-.
    split; [split; [intros _|discriminate]|split].
    + exists interface, neighbor, nh, metric, mpls, routes.
      repeat split; auto. now rewrite dict_get_set_same.
    + rewrite Tr, Ti. reflexivity.
    + intros l Hl. now rewrite !dict_get_set_other by congruence.
  - injection Hb as <- <- <-.
    rewrite (update_at_record _ _ _ _ (dict_get_set_same _ _ _)) in H.
    injection H as <-.
    split; [split; [discriminate|intros _]|split].
    + exists interface, routes.
      rewrite infer_neighbors_v4, infer_neighbors_v6 in Vr.
      split; [exact Vr|]. now rewrite dict_get_set_same.
    + rewrite Tr, Ti. now rewrite infer_neighbors_v4, infer_neighbors_v6.
    + intros l Hl. now rewrite !dict_get_set_other by congruence.
Qed.

Lemma label_inj a b : "CLR-" ++ a = "CLR-" ++ b -> a = b.
Proof. simpl. intros H. now injection H. Qed.

(** The loop over the circuits, from any counter on. *)
Lemma circuits_loop_inv ext conn global data interfaces_all (l : list circuit) :
  forall k acc s out s',
    for_each (combine (seq k (List.length l)) l) acc
      (circuit_body ext conn global data interfaces_all) s = (Ok out, s') ->
    asked_routes (trace s') =
    (asked_routes (trace s) ++ flat_map (lookup_neighbors interfaces_all) l)%list /\
    (forall label, (forall c, In c l -> label <> "CLR-" ++ clr c) ->
                   dict_get out label = dict_get acc label) /\
    (forall before c after,
        l = (before ++ c :: after)%list ->
        (forall c', In c' after -> clr c' <> clr c) ->
        exists circuit_data,
          dict_get interfaces_all (port c) = Some circuit_data /\
          circuit_record conn global data circuit_data c out).
Proof.
  induction l as [|c0 l IH]; intros k acc s out s' H.
  - simpl in H. injection H as <- <-. rewrite app_nil_r.
    split; [reflexivity|]. split; [reflexivity|].
    intros [|b before] c after E; discriminate.
  - cbn [List.length seq combine for_each] in H.
    apply bind_ok_inv in H. destruct H as (acc1 & s1 & Hbody & Hrest).
    apply circuit_body_inv in Hbody.
    destruct Hbody as (cd0 & Hcd0 & Hrec0 & Hasked0 & Hother0).
    destruct (IH _ _ _ _ _ Hrest) as (Hasked & Hkeep & Hrecs).
    split; [|split].
    + rewrite Hasked, Hasked0. simpl. now rewrite app_assoc.
    + intros label Hl. rewrite Hkeep by (intros c Hc; apply Hl; now right).
      apply Hother0. apply Hl. now left.
    + intros before c after E Hlater. destruct before as [|b before].
      * simpl in E. injection E as E1 E2. subst c0 l.
        exists cd0. split; [exact Hcd0|].
        assert (Hsame : dict_get out ("CLR-" ++ clr c) = dict_get acc1 ("CLR-" ++ clr c)).
        { apply Hkeep. intros c' Hc' Heq. apply label_inj in Heq.
          apply (Hlater c' Hc'). congruence. }
        unfold circuit_record in *. rewrite Hsame. exact Hrec0.
      * simpl in E. injection E as E1 E2. subst b l. eapply Hrecs; eauto.
Qed.

Lemma asking_emit_quiet e : asked_routes [e] = [] -> asking [] (emit e).
Proof. intros H. rewrite <- H. apply asking_emit. Qed.

Lemma asking_ask_other {A} getter arg (answer : result A) :
  (getter =? "get_bgp_neighbor_routes_custom")%string = false ->
  asking [] (ask Primary getter arg answer).
Proof.
  intros Hg. unfold ask. apply asking_bind0; [apply asking_pass_time|intros _].
  apply asking_bind0; [|intros _; apply asking_lift].
  apply asking_emit_quiet. simpl. now rewrite Hg.
Qed.

Lemma asking_interface_common_getters ext conn extra_inputs :
  asking [] (_interface_common_getters ext conn extra_inputs).
Proof.
  unfold _interface_common_getters.
  repeat first
    [ apply asking_lift
    | apply asking_ask_other; reflexivity
    | apply asking_bind0; [|intro] ].
Qed.

Lemma asking_close who conn : asking [] (close who conn).
Proof.
  unfold close. apply asking_bind0; [apply asking_pass_time|intros _].
  apply asking_bind0; [apply asking_emit_quiet; reflexivity|intros _].
  destruct (close_raises conn); [apply asking_raise|apply asking_ret].
Qed.

(** Closing asks for no routes, whether the call returns or raises. *)
Lemma close_asks_nothing who conn s r s' :
  close who conn s = (r, s') -> asked_routes (trace s') = asked_routes (trace s).
Proof.
  unfold close, bind, pass_time, emit, modify, raise, ret. intros H.
  destruct (pending s); destruct (close_raises conn); simpl in H;
    injection H as _ <-; simpl; rewrite asked_routes_app; simpl;
    now rewrite app_nil_r.
Qed.

(** C2. When the per-circuit workflow returns, it has collected the interface
    table [interfaces_all] and then gone through the circuits in order.

    The routes it asked the device for are, circuit by circuit, those of the
    neighbor addresses of [lookup_neighbors]: for a circuit whose interface
    record has a truthy [isis_state], the addresses the caller supplied and no
    inferred one; for any other circuit, the interface's [arp_nh] and [nd_nh]
    wherever the caller's address is empty.

    Every circuit whose label no later circuit repeats has its record in the
    result.  With a truthy [isis_state] that record has an "IS-IS" block made
    of the interface record's neighbor, next-hop, metric and MPLS flag, and
    its "BGP" block holds the routes of the addresses the caller supplied:
    nothing in it comes from the interface's ARP or ND next-hop.  Otherwise
    the record has no "IS-IS" block, and its "BGP" block holds the routes of
    the caller's addresses with each empty one replaced by the interface's
    [arp_nh] or [nd_nh]. *)
Theorem circuit_records_by_link_type (ext : externals) (conn global : session)
  (data : run_data) (out : dict) (s s' : main) :
  circuits_pms ext conn global data s = (Ok out, s') ->
  exists counters interfaces_all s0 s1,
    get_interfaces_counters conn = Ok counters /\
    _interface_common_getters ext conn [counters] s0 = (Ok interfaces_all, s1) /\
    asked_routes (trace s') =
    (asked_routes (trace s) ++
     flat_map (lookup_neighbors interfaces_all) (circuits data))%list /\
    forall before c after,
      circuits data = (before ++ c :: after)%list ->
      (forall c', In c' after -> clr c' <> clr c) ->
      exists circuit_data,
        dict_get interfaces_all (port c) = Some circuit_data /\
        circuit_record conn global data circuit_data c out.
Proof.
  intros H. unfold circuits_pms in H.
  apply bind_ok_inv in H. destruct H as (counters & s0 & Hc & H).
  assert (Tc : asked_routes (trace s0) = asked_routes (trace s)).
  { pose proof (asking_ask_other "get_interfaces_counters" PNone
                  (get_interfaces_counters conn) eq_refl _ _ _ Hc) as T.
    now rewrite app_nil_r in T. }
  assert (Hcounters : get_interfaces_counters conn = Ok counters).
  { unfold ask in Hc.
    apply bind_ok_inv in Hc. destruct Hc as (? & sa & Ha & Hc).
    apply bind_ok_inv in Hc. destruct Hc as (? & sb & Hb & Hc).
    apply lift_ok_inv in Hc. tauto. }
  apply bind_ok_inv in H. destruct H as (interfaces_all & s1 & Hg & H).
  pose proof (asking_interface_common_getters _ _ _ _ _ _ Hg) as Tg.
  rewrite app_nil_r in Tg.
  apply bind_ok_inv in H. destruct H as (output_dict & s2 & Hloop & H).
  apply circuits_loop_inv in Hloop. destruct Hloop as (Tl & _ & Hrecs).
  apply bind_ok_inv in H. destruct H as (? & s3 & Hclose & H).
  pose proof (asking_close _ _ _ _ _ Hclose) as T3. rewrite app_nil_r in T3.
  apply bind_ok_inv in H. destruct H as (st & s4 & Hst & H).
  injection Hst as <- <-.
  apply bind_ok_inv in H. destruct H as (? & s5 & Hclose2 & H).
  assert (T5 : asked_routes (trace s5) = asked_routes (trace s3)).
  { destruct (juniper_connection s3).
    - unfold except_attribute_error in Hclose2.
      destruct (close Secondary global s3) as [r6 s6] eqn:E6.
      apply close_asks_nothing in E6.
      destruct r6 as [[]|[]]; try discriminate;
        (assert (Es : s6 = s5) by congruence); now rewrite <- Es.
    - now injection Hclose2 as _ <-. }
  injection H as <- <-.
  exists counters, interfaces_all, s0, s1. repeat split; auto.
  rewrite T5, T3, Tl, Tg, Tc. reflexivity.
Qed.

End CircuitRecord.

Lemma circuit_records_by_link_type_witness :
  exists out s',
    Main.circuits_pms SampleRun.ext SampleRun.edge SampleRun.core SampleRun.data
      SampleRun.start = (Ok out, s') /\
    exists counters interfaces_all s0 s1,
      Main.get_interfaces_counters SampleRun.edge = Ok counters /\
      Main._interface_common_getters SampleRun.ext SampleRun.edge [counters] s0
      = (Ok interfaces_all, s1) /\
      asked_routes (Main.trace s') =
      (asked_routes (Main.trace SampleRun.start) ++
       flat_map (lookup_neighbors interfaces_all)
         (Main.circuits SampleRun.data))%list /\
      forall before c after,
        Main.circuits SampleRun.data = (before ++ c :: after)%list ->
        (forall c', In c' after -> Main.clr c' <> Main.clr c) ->
        exists circuit_data,
          dict_get interfaces_all (Main.port c) = Some circuit_data /\
          circuit_record SampleRun.edge SampleRun.core SampleRun.data
            circuit_data c out.
Proof.
  eexists _, _.
  match goal with
  | |- ?run /\ _ => assert (Hrun : run) by (vm_compute; reflexivity)
  end.
  split; [exact Hrun|].
  exact (circuit_records_by_link_type SampleRun.ext SampleRun.edge SampleRun.core
           SampleRun.data _ SampleRun.start _ Hrun).
Defined.

(** * Further properties *)

(** ** The driver's getters on a failed call *)

Section FailedCalls.

Import CustomJunOSDriver.

Variables (net : netaddr) (dev : device).

Lemma rpc_get_failure_state {K : Type} table (rpc_input : result (items K)) msg rpcerr s :
  rpc_input = Raise (RpcError rpcerr) ->
  rpc_get table rpc_input msg s =
  (Ok EmptyDict, logged (called s table []) (failure_lines msg rpcerr)).
Proof.
  intros ->. unfold rpc_get, bind, send_rpc, log_error, modify, ret, logged, called,
    failure_lines.
  simpl. now rewrite <- app_assoc.
Qed.

(** X1. Each getter that goes through [rpc_get] for a single table turns a
    remote-procedure failure of that table into an empty result.  The call was
    sent once, and the log has gained two lines: the message naming what could
    not be retrieved, and the text of the failure. *)
Theorem single_table_getters_failure (rpcerr : string) (s : driver) :
  (MPLSInterfaceTable dev = Raise (RpcError rpcerr) ->
   get_mpls_interfaces_custom dev s =
   (Ok [], logged (called s "MPLSInterfaceTable" [])
             (failure_lines "MPLS Interfaces" rpcerr))) /\
  (MSDPNeighborTable dev = Raise (RpcError rpcerr) ->
   get_msdp_neighbrs_custom dev s =
   (Ok [], logged (called s "MSDPNeighborTable" [])
             (failure_lines "MSDP Neighbors" rpcerr))) /\
  (PIMNeighborTable dev = Raise (RpcError rpcerr) ->
   get_pim_neighbors_custom dev s =
   (Ok [], logged (called s "PIMNeighborTable" [])
             (failure_lines "PIM Interfaces" rpcerr))) /\
  (ARPTable dev = Raise (RpcError rpcerr) ->
   get_arp_table_custom net dev s =
   (Ok [], logged (called s "ARPTable" []) (failure_lines "ARP" rpcerr))) /\
  (NDTable dev = Raise (RpcError rpcerr) ->
   get_nd_table_custom net dev s =
   (Ok [], logged (called s "NDTable" []) (failure_lines "IPv6 ND" rpcerr))) /\
  (junos_bgp_neighbors_table dev = Raise (RpcError rpcerr) ->
   get_bgp_neighbors_detail dev s =
   (Ok [], logged (called s "junos_bgp_neighbors_table" [])
             (failure_lines "BGP Neighbors" rpcerr))).
Proof.
  repeat split; intros H.
  - unfold get_mpls_interfaces_custom, bind.
    now rewrite (rpc_get_failure_state _ _ _ _ _ H).
  - unfold get_msdp_neighbrs_custom, bind.
    now rewrite (rpc_get_failure_state _ _ _ _ _ H).
  - unfold get_pim_neighbors_custom, bind.
    now rewrite (rpc_get_failure_state _ _ _ _ _ H).
  - unfold get_arp_table_custom, bind.
    now rewrite (rpc_get_failure_state _ _ _ _ _ H).
  - unfold get_nd_table_custom, bind.
    now rewrite (rpc_get_failure_state _ _ _ _ _ H).
  - unfold get_bgp_neighbors_detail, bind.
    now rewrite (rpc_get_failure_state _ _ _ _ _ H).
Qed.

(** X2. A failure of a kind other than the remote-procedure error is not
    caught by [rpc_get]: the getter raises it, having logged nothing. *)
Theorem other_failures_propagate (e : exn) (s : driver) :
  (forall msg, e <> RpcError msg) ->
  (ARPTable dev = Raise e ->
   get_arp_table_custom net dev s = (Raise e, called s "ARPTable" [])) /\
  (junos_bgp_neighbors_table dev = Raise e ->
   get_bgp_neighbors_detail dev s = (Raise e, called s "junos_bgp_neighbors_table" [])) /\
  (ISISAdjacencyTable dev = Raise e ->
   get_isis_interfaces_custom dev s = (Raise e, called s "ISISAdjacencyTable" [])).
Proof.
  intros Hne.
  assert (Hget : forall K table (input : result (items K)) msg,
             input = Raise e ->
             rpc_get table input msg s = (Raise e, called s table [])).
  { intros K table input msg ->.
    unfold rpc_get, bind, send_rpc, modify, raise, called. simpl.
    destruct e; try reflexivity. exfalso. now apply (Hne msg0). }
  repeat split; intros H.
  - unfold get_arp_table_custom, bind. now rewrite (Hget _ _ _ _ H).
  - unfold get_bgp_neighbors_detail, bind. now rewrite (Hget _ _ _ _ H).
  - unfold get_isis_interfaces_custom, bind. now rewrite (Hget _ _ _ _ H).
Qed.

End FailedCalls.

Lemma single_table_getters_failure_witness :
  CustomJunOSDriver.get_arp_table_custom Sample.net Sample.unreachable Sample.fresh =
  (Ok [],
   {| log := ["Unable to retrieve ARP information:"; "timeout"];
      rpc_calls := [("ARPTable", [])] |}).
Proof.
  exact (proj1 (proj2 (proj2 (proj2
           (single_table_getters_failure Sample.net Sample.unreachable
              "timeout" Sample.fresh)))) eq_refl).
Defined.

Lemma other_failures_propagate_witness :
  (forall msg, TypeError "session closed" <> RpcError msg) /\
  CustomJunOSDriver.get_arp_table_custom Sample.net SampleRoutes.closed Sample.fresh =
  (Raise (TypeError "session closed"),
   {| log := []; rpc_calls := [("ARPTable", [])] |}).
Proof.
  assert (H : forall msg, TypeError "session closed" <> RpcError msg)
    by (intros msg; discriminate).
  split; [exact H|].
  exact (proj1 (other_failures_propagate Sample.net SampleRoutes.closed
                  (TypeError "session closed") Sample.fresh H) eq_refl).
Defined.

(** ** The route-to-destinations getter, destination by destination *)

Section RouteTo.

Import CustomJunOSDriver.

Variables (repr : pyval -> string) (net : netaddr) (dev : device).

Lemma for_each_app {S A B} (body : A -> B -> M S A) (l1 l2 : list B) :
  forall acc s,
    for_each (l1 ++ l2) acc body s =
    bind (for_each l1 acc body) (fun acc' => for_each l2 acc' body) s.
Proof.
  induction l1 as [|x l1 IH]; intros acc s; simpl.
  - reflexivity.
  - unfold bind in *.
    destruct (body acc x s) as [[e|acc'] s1]; [reflexivity|].
    apply IH.
Qed.

Lemma format_singleton route_dict destination r :
  _bgp_routes_format repr route_dict destination = Ok r ->
  exists k v, r = [(k, v)].
Proof.
  unfold _bgp_routes_format.
  destruct (dict_pop_default route_dict "prefix_length" (PInt 32)) as [pl rd].
  destruct (match dict_get_default rd "as_path" with
            | PNone => Ok PNone
            | PStr s => Ok (PStr (trim_as_path s))
            | _ => Raise (AttributeError "split")
            end); simpl; [discriminate|].
  destruct (subscript rd "next_hop"); simpl; [discriminate|].
  destruct (subscript rd "local_preference"); simpl; [discriminate|].
  destruct (subscript rd "metric"); simpl; [discriminate|].
  intros H. injection H as <-. eauto.
Qed.

Lemma dict_update_twice (d r : dict) k v :
  r = [(k, v)] -> dict_update (dict_update d r) r = dict_update d r.
Proof.
  intros ->. unfold dict_update. simpl.
  induction d as [|[k' v'] d IH]; simpl.
  - now rewrite String.eqb_refl.
  - destruct (k' =? k)%string eqn:E; simpl; rewrite E; [reflexivity|].
    now rewrite IH.
Qed.

(** One destination that is answered. *)
Lemma route_to_body_answered l route s :
  routes_table_is_table l = true ->
  answered repr net dev route = true ->
  exists l',
    route_to_body repr net dev l route s =
    (Ok l', {| log := log s; rpc_calls := rpc_calls s ++ [destination_call net route] |}) /\
    routes_table_is_table l' = true /\
    routes l' = destination_records repr net dev [route] (routes l) /\
    route_output l' <> None /\
    settled repr l'.
Proof.
  intros Ht Ha. unfold answered, destination_record in Ha.
  unfold destination_records, destination_record, destination_call. simpl.
  unfold route_to_body, bind, lift, send_rpc, modify, ret, raise, index.
  destruct (IPNetwork_version net route) as [|version]; [discriminate|].
  rewrite Ht. simpl.
  destruct (junos_bgp_route_table dev route (inet_table version))
    as [|[|first rest]] eqn:Et; try discriminate.
  simpl.
  destruct (dict_pop_default (dict_of_fields (snd first)) "destination" (PStr ""))
    as [destination route_dict] eqn:Ep.
  destruct (_bgp_routes_format repr route_dict destination) as [|r] eqn:Ef;
    [discriminate|].
  simpl.
  eexists. split; [reflexivity|]. simpl.
  split; [reflexivity|]. split; [reflexivity|]. split; [discriminate|].
  intros t Hsome. injection Hsome as <-.
  exists first, rest, r. split; [reflexivity|]. rewrite Ep. split; [exact Ef|].
  destruct (format_singleton _ _ _ Ef) as (k & v & Hr).
  now apply dict_update_twice with k v.
Qed.

(** The destinations before the first one that is not answered. *)
Lemma route_to_loop_answered (l : list pyval) :
  forall locals s,
    routes_table_is_table locals = true ->
    settled repr locals ->
    forallb (answered repr net dev) l = true ->
    exists locals',
      for_each l locals (route_to_body repr net dev) s =
      (Ok locals', after_calls net s l) /\
      routes_table_is_table locals' = true /\
      routes locals' = destination_records repr net dev l (routes locals) /\
      (l <> [] -> route_output locals' <> None) /\
      settled repr locals'.
Proof.
  induction l as [|route l IH]; intros locals s Ht Hs Ha.
  - exists locals. unfold after_calls. simpl. rewrite app_nil_r.
    destruct s. simpl.
    split; [reflexivity|]. split; [exact Ht|]. split; [reflexivity|].
    split; [congruence|exact Hs].
  - simpl in Ha. apply andb_prop in Ha. destruct Ha as [Ha Hl].
    destruct (route_to_body_answered locals route s Ht Ha)
      as (l1 & Hstep & Ht1 & Hr1 & Ho1 & Hs1).
    destruct (IH l1 {| log := log s;
                       rpc_calls := rpc_calls s ++ [destination_call net route] |}
                Ht1 Hs1 Hl)
      as (l2 & Hloop & Ht2 & Hr2 & Ho2 & Hs2).
    exists l2. simpl for_each. unfold bind. rewrite Hstep, Hloop.
    unfold after_calls. simpl. rewrite <- app_assoc. simpl.
    repeat split; auto.
    + rewrite Hr2, Hr1. reflexivity.
    + intros _. destruct l as [|x l'].
      * simpl in Hloop. injection Hloop as <- _. exact Ho1.
      * apply Ho2. discriminate.
Qed.

Lemma settled_start :
  settled repr {| routes := []; routes_table_is_table := true; route_output := None |}.
Proof. intros t H. discriminate. Qed.

(** X3. When every destination of the list is answered with a route that can
    be formatted, the getter returns the records of the first route listed for
    each destination, merged in the order of the list.  It has sent one call
    per destination, in that order, to the table of the destination's address
    family, and logged nothing.  In particular the empty list gives the empty
    result without any call. *)
Theorem get_route_to_answered (l : list pyval) (s : driver) :
  forallb (answered repr net dev) l = true ->
  get_route_to repr net dev (PList l) s =
  (Ok (destination_records repr net dev l []), after_calls net s l).
Proof.
  intros Ha. unfold get_route_to, bind.
  destruct (route_to_loop_answered l
              {| routes := []; routes_table_is_table := true; route_output := None |}
              s eq_refl settled_start Ha)
    as (locals & -> & _ & Hr & _). unfold ret. now rewrite Hr.
Qed.

(** X4. A destination the device lists no route for makes the getter raise
    [IndexError], once the destinations before it have been answered: the
    records collected so far are lost. *)
Theorem get_route_to_unknown_destination (before after : list pyval)
  (route : pyval) (version : Z) (s : driver) :
  forallb (answered repr net dev) before = true ->
  IPNetwork_version net route = Ok version ->
  junos_bgp_route_table dev route (inet_table version) = Ok [] ->
  get_route_to repr net dev (PList (before ++ route :: after)) s =
  (Raise IndexError, after_calls net s (before ++ [route])).
Proof.
  intros Ha Hv Ht. unfold get_route_to. unfold bind at 1. rewrite for_each_app.
  unfold bind at 1.
  destruct (route_to_loop_answered before
              {| routes := []; routes_table_is_table := true; route_output := None |}
              s eq_refl settled_start Ha)
    as (locals & -> & Htab & _).
  simpl for_each. unfold bind at 1.
  assert (Hstep : route_to_body repr net dev locals route (after_calls net s before) =
                  (Raise IndexError, after_calls net s (before ++ [route]))).
  { unfold route_to_body, bind, lift, send_rpc, modify, ret, raise, index.
    rewrite Hv, Htab. simpl. rewrite Ht. simpl.
    unfold after_calls, destination_call. rewrite map_app. simpl. rewrite Hv.
    now rewrite app_assoc. }
  now rewrite Hstep.
Qed.

(** X5. A remote-procedure failure on a destination that is not the first,
    the ones before it answered.  If it is the last destination, the getter
    returns the records of the destinations before it: the failure is logged
    and the output of the previous call is formatted once more, which changes
    nothing.  If another destination follows, the getter raises a type error
    on it, because [routes_table] is by then a plain dict. *)
Theorem get_route_to_later_failure (before after : list pyval)
  (route : pyval) (version : Z) (rpcerr : string) (s : driver) :
  before <> [] ->
  forallb (answered repr net dev) before = true ->
  IPNetwork_version net route = Ok version ->
  junos_bgp_route_table dev route (inet_table version) = Raise (RpcError rpcerr) ->
  let s' := logged (after_calls net s (before ++ [route]))
              ["Unable to retrieve BGP Rx Routes information:"; rpcerr] in
  (after = [] ->
   get_route_to repr net dev (PList (before ++ route :: after)) s =
   (Ok (destination_records repr net dev before []), s')) /\
  (forall next rest version',
      after = next :: rest ->
      IPNetwork_version net next = Ok version' ->
      get_route_to repr net dev (PList (before ++ route :: after)) s =
      (Raise (TypeError "get() takes no keyword arguments"), s')).
Proof.
  intros Hne Ha Hv Ht s'.
  destruct (route_to_loop_answered before
              {| routes := []; routes_table_is_table := true; route_output := None |}
              s eq_refl settled_start Ha)
    as (locals & Hloop & Htab & Hr & Ho & Hs).
  specialize (Ho Hne).
  destruct (route_output locals) as [t|] eqn:Eo; [clear Ho|congruence].
  destruct (Hs t Eo) as (first & rest0 & r & -> & Hf & Hsame).
  assert (Hstep :
            route_to_body repr net dev locals route (after_calls net s before) =
            (Ok {| routes := routes locals;
                   routes_table_is_table := false;
                   route_output := Some (first :: rest0) |}, s')).
  { unfold route_to_body, bind, lift, send_rpc, log_error, modify, ret, raise, index.
    rewrite Hv, Htab. simpl. rewrite Ht. simpl. rewrite Eo. simpl.
    destruct (dict_pop_default (dict_of_fields (snd first)) "destination" (PStr ""))
      as [destination route_dict].
    rewrite Hf. simpl. rewrite Hsame.
    unfold s', logged, after_calls, destination_call. simpl.
    rewrite map_app. simpl. rewrite Hv. now rewrite <- !app_assoc. }
  split.
  - intros ->. unfold get_route_to. unfold bind at 1. rewrite for_each_app.
    unfold bind at 1. rewrite Hloop. simpl for_each. unfold bind at 1.
    rewrite Hstep. unfold ret. simpl. now rewrite Hr.
  - intros next rest version' -> Hv'. unfold get_route_to. unfold bind at 1.
    rewrite for_each_app. unfold bind at 1. rewrite Hloop. simpl for_each.
    unfold bind at 1. rewrite Hstep. unfold bind at 1.
    assert (Hnext : forall l0 st,
               routes_table_is_table l0 = false ->
               route_to_body repr net dev l0 next st =
               (Raise (TypeError "get() takes no keyword arguments"), st)).
    { intros l0 st Hl0. unfold route_to_body, bind, lift, raise.
      now rewrite Hv', Hl0. }
    now rewrite Hnext.
Qed.

End RouteTo.

Lemma get_route_to_answered_witness :
  forallb (answered Sample.repr Sample.net SampleRoutes.router)
    [PStr "198.51.100.0/24"; PStr "203.0.113.0/24"] = true /\
  CustomJunOSDriver.get_route_to Sample.repr Sample.net SampleRoutes.router
    (PList [PStr "198.51.100.0/24"; PStr "203.0.113.0/24"]) Sample.fresh =
  (Ok (destination_records Sample.repr Sample.net SampleRoutes.router
         [PStr "198.51.100.0/24"; PStr "203.0.113.0/24"] []),
   after_calls Sample.net Sample.fresh
     [PStr "198.51.100.0/24"; PStr "203.0.113.0/24"]).
Proof.
  split; [reflexivity|].
  exact (get_route_to_answered Sample.repr Sample.net SampleRoutes.router
           [PStr "198.51.100.0/24"; PStr "203.0.113.0/24"] Sample.fresh eq_refl).
Defined.

Lemma get_route_to_unknown_destination_witness :
  CustomJunOSDriver.get_route_to Sample.repr Sample.net SampleRoutes.router
    (PList [PStr "198.51.100.0/24"; PStr "192.0.2.128/25"; PStr "203.0.113.0/24"])
    Sample.fresh =
  (Raise IndexError,
   after_calls Sample.net Sample.fresh
     [PStr "198.51.100.0/24"; PStr "192.0.2.128/25"]).
Proof.
  exact (get_route_to_unknown_destination Sample.repr Sample.net SampleRoutes.router
           [PStr "198.51.100.0/24"] [PStr "203.0.113.0/24"] (PStr "192.0.2.128/25")
           4 Sample.fresh eq_refl eq_refl eq_refl).
Defined.

Lemma get_route_to_later_failure_witness :
  CustomJunOSDriver.get_route_to Sample.repr Sample.net SampleRoutes.router
    (PList [PStr "198.51.100.0/24"; PStr "10.0.0.0/8"]) Sample.fresh =
  (Ok (destination_records Sample.repr Sample.net SampleRoutes.router
         [PStr "198.51.100.0/24"] []),
   logged (after_calls Sample.net Sample.fresh
             [PStr "198.51.100.0/24"; PStr "10.0.0.0/8"])
     ["Unable to retrieve BGP Rx Routes information:"; "timeout"]) /\
  CustomJunOSDriver.get_route_to Sample.repr Sample.net SampleRoutes.router
    (PList [PStr "198.51.100.0/24"; PStr "10.0.0.0/8"; PStr "203.0.113.0/24"])
    Sample.fresh =
  (Raise (TypeError "get() takes no keyword arguments"),
   logged (after_calls Sample.net Sample.fresh
             [PStr "198.51.100.0/24"; PStr "10.0.0.0/8"])
     ["Unable to retrieve BGP Rx Routes information:"; "timeout"]).
Proof.
  assert (Hne : [PStr "198.51.100.0/24"] <> []) by discriminate.
  split.
  - exact (proj1 (get_route_to_later_failure Sample.repr Sample.net
                    SampleRoutes.router [PStr "198.51.100.0/24"] []
                    (PStr "10.0.0.0/8") 4 "timeout" Sample.fresh
                    Hne eq_refl eq_refl eq_refl) eq_refl).
  - exact (proj2 (get_route_to_later_failure Sample.repr Sample.net
                    SampleRoutes.router [PStr "198.51.100.0/24"]
                    [PStr "203.0.113.0/24"]
                    (PStr "10.0.0.0/8") 4 "timeout" Sample.fresh
                    Hne eq_refl eq_refl eq_refl)
             (PStr "203.0.113.0/24") [] 4 eq_refl eq_refl).
Defined.

(** ** The received-routes getter *)

Section ReceivedRoutes.

Import CustomJunOSDriver.

Variables (repr : pyval -> string) (net : netaddr) (dev : device).

Lemma received_route_stores table :
  (forall route, In route table ->
      exists r, _bgp_routes_format repr (dict_of_fields (snd route)) (PStr (fst route)) = Ok r) ->
  forall route, In route table -> forall routes,
      (r <~ _bgp_routes_format repr (dict_of_fields (snd route)) (PStr (fst route)) ;;
       Ok (dict_update routes r)) =
      Ok (dict_set routes (received_route_key repr route) (received_route_record repr route)).
Proof.
  intros Hall route Hin routes. destruct (Hall route Hin) as [r Hr].
  unfold received_route_key, received_route_record. rewrite Hr.
  destruct (format_singleton repr _ _ _ Hr) as (k & v & ->). reflexivity.
Qed.

(** X6. When the peer address parses and the device answers with routes that
    can all be formatted, the received-routes getter returns one record per
    destination key, having sent one call and logged nothing; of two routes
    listed under the same destination key the later one is kept. *)
Theorem get_bgp_neighbor_routes_received (peer : string) (version : Z)
  (table : items string) (s : driver) :
  IPAddress_version net peer = Ok version ->
  junos_bgp_rx_route_table dev peer (inet_table version) = Ok table ->
  (forall route, In route table ->
      exists r, _bgp_routes_format repr (dict_of_fields (snd route)) (PStr (fst route)) = Ok r) ->
  exists out,
    get_bgp_neighbor_routes repr net dev peer s =
    (Ok out, called s "junos_bgp_rx_route_table" [PStr peer; PStr (inet_table version)]) /\
    (forall k, In k (keys out) <-> In k (map (received_route_key repr) table)) /\
    (forall before route after,
        table = (before ++ route :: after)%list ->
        ~ In (received_route_key repr route) (map (received_route_key repr) after) ->
        dict_get out (received_route_key repr route) =
        Some (received_route_record repr route)).
Proof.
  intros Hv Ht Hall.
  exists (stored (received_route_key repr) (received_route_record repr) table []).
  split; [|split].
  - unfold get_bgp_neighbor_routes, bind, lift, send_rpc, modify, ret, called.
    rewrite Hv. simpl. rewrite Ht. simpl.
    match goal with
    | |- (_, ?st) = _ => apply (f_equal (fun r : result dict => (r, st)))
    end.
    apply (rfor_each_stores (received_route_key repr) (received_route_record repr)).
    exact (received_route_stores table Hall).
  - intros k. unfold stored.
    assert (G : forall l acc,
               In k (keys (fold_left
                             (fun a e => dict_set a (received_route_key repr e)
                                           (received_route_record repr e)) l acc)) <->
               In k (keys acc) \/ In k (map (received_route_key repr) l)).
    { induction l as [|e l IH]; intros acc; simpl; [tauto|].
      rewrite IH, keys_set. intuition. }
    rewrite G. simpl. tauto.
  - intros before route after -> Hlast. now apply stored_last.
Qed.

(** X7. The received-routes getter parses the peer address before anything
    else: when [netaddr] rejects it, the exception is raised with no call sent
    and nothing logged.  Otherwise exactly one call goes out, whatever happens
    afterwards, to table inet.0 for an IPv4 peer and inet6.0 for any other. *)
Theorem get_bgp_neighbor_routes_call (peer : string) (s : driver) :
  (forall e, IPAddress_version net peer = Raise e ->
             get_bgp_neighbor_routes repr net dev peer s = (Raise e, s)) /\
  (forall version,
      IPAddress_version net peer = Ok version ->
      rpc_calls (snd (get_bgp_neighbor_routes repr net dev peer s)) =
      (rpc_calls s ++
       [("junos_bgp_rx_route_table",
         [PStr peer; PStr (if version =? 4 then "inet.0" else "inet6.0")])])%list).
Proof.
  split.
  - intros e He. unfold get_bgp_neighbor_routes, bind, lift. now rewrite He.
  - intros version Hv.
    unfold get_bgp_neighbor_routes, bind, lift, send_rpc, log_error, modify, ret, raise.
    rewrite Hv. simpl.
    assert (Ei : inet_table version = if version =? 4 then "inet.0" else "inet6.0").
    { unfold inet_table. destruct (version =? 4); reflexivity. }
    rewrite <- Ei.
    destruct (junos_bgp_rx_route_table dev peer (inet_table version)) as [[]|t];
      simpl; try reflexivity.
Qed.

End ReceivedRoutes.

Lemma get_bgp_neighbor_routes_received_witness :
  exists out,
    CustomJunOSDriver.get_bgp_neighbor_routes Sample.repr Sample.net
      SampleRoutes.router "192.0.2.1" Sample.fresh =
    (Ok out, called Sample.fresh "junos_bgp_rx_route_table"
               [PStr "192.0.2.1"; PStr (CustomJunOSDriver.inet_table 4)]) /\
    (forall k, In k (keys out) <->
               In k (map (received_route_key Sample.repr)
                       (SampleRoutes.listed "198.51.100.0" ++
                        SampleRoutes.listed "203.0.113.0")%list)) /\
    (forall before route after,
        (SampleRoutes.listed "198.51.100.0" ++ SampleRoutes.listed "203.0.113.0")%list
        = (before ++ route :: after)%list ->
        ~ In (received_route_key Sample.repr route)
            (map (received_route_key Sample.repr) after) ->
        dict_get out (received_route_key Sample.repr route) =
        Some (received_route_record Sample.repr route)).
Proof.
  apply (get_bgp_neighbor_routes_received Sample.repr Sample.net
           SampleRoutes.router "192.0.2.1" 4
           (SampleRoutes.listed "198.51.100.0" ++ SampleRoutes.listed "203.0.113.0")%list
           Sample.fresh eq_refl eq_refl).
  intros route [<-|[<-|[]]]; eexists; reflexivity.
Defined.

(** ** BGP neighbor detail: what a record keeps and what stops the getter *)

Section BgpDetailMore.

Import CustomJunOSDriver.

Lemma reconcile_as_keeps d i d1 k :
  reconcile_as d i = Ok d1 ->
  In k (keys d) -> k <> i ++ "_2" -> In k (keys d1).
Proof.
  unfold reconcile_as, subscript, dict_pop. intros H Hin Hne.
  destruct (dict_get d i) as [u|]; simpl in H; [|discriminate].
  destruct (dict_get d (i ++ "_2")) as [v2|];
    destruct (truthy u); simpl in H; try discriminate; injection H as <-.
  - apply keys_remove. auto.
  - apply keys_set. right. apply keys_remove. auto.
Qed.

Lemma append_rib_keeps rib :
  forall d out k,
    rfor_each rib d append_rib = Ok out -> In k (keys d) -> In k (keys out).
Proof.
  induction rib as [|[name t] rib IH]; intros d out k H Hin; simpl in H.
  - now injection H as <-.
  - unfold append_rib at 1 in H. simpl in H.
    destruct (py_dict t); simpl in H; [discriminate|].
    eapply IH; eauto. apply keys_set. now right.
Qed.

(** A record keeps every key of the source details but the three it pops. *)
Lemma neighbor_record_keeps fs r k :
  neighbor_record fs = Ok r ->
  In k (keys (source_details fs)) ->
  k <> "local_as_2" -> k <> "remote_as_2" -> k <> "rib" ->
  In k (keys r).
Proof.
  unfold neighbor_record. simpl. intros H Hin H1 H2 H3.
  destruct (reconcile_as (source_details fs) "local_as") as [|d1] eqn:E1;
    simpl in H; [discriminate|].
  destruct (reconcile_as d1 "remote_as") as [|d2] eqn:E2; simpl in H; [discriminate|].
  destruct (subscript d2 "local_address") as [|addr]; simpl in H; [discriminate|].
  destruct (split_plus addr) as [|addr']; simpl in H; [discriminate|].
  unfold dict_pop in H.
  destruct (dict_get (dict_set d2 "local_address" addr') "rib") as [ribv|];
    simpl in H; [|discriminate].
  destruct (py_items ribv) as [|rib]; simpl in H; [discriminate|].
  eapply append_rib_keeps; [exact H|].
  apply keys_remove. split; [assumption|].
  apply keys_set. right.
  eapply reconcile_as_keeps; [exact E2| |assumption].
  eapply reconcile_as_keeps; [exact E1|assumption|assumption].
Qed.

(** X8. Every record the BGP-neighbors-detail getter returns has the eight
    fields of the default template ([up], [local_as], [remote_as],
    [router_id], [local_address], [routing_table], [import_policy],
    [export_policy]) and every field the device reported with a value that is
    not null, [local_as_2], [remote_as_2] and [rib] apart. *)
Theorem bgp_detail_fields_kept (dev : device) (s s' : driver)
  (table : items string) (out : dict) :
  junos_bgp_neighbors_table dev = Ok table ->
  get_bgp_neighbors_detail dev s = (Ok out, s') ->
  forall key record,
    dict_get out key = Some record ->
    exists nkey fs r,
      In (nkey, fs) table /\ key = split_head "+" nkey /\ record = PDict r /\
      (forall k, In k (keys default_neighbor_details) -> In k (keys r)) /\
      (forall k, supplies fs k = true ->
                 k <> "local_as_2" -> k <> "remote_as_2" -> k <> "rib" ->
                 In k (keys r)).
Proof.
  intros Htable Hrun key record Hget.
  assert (Hloop : rfor_each table [] bgp_detail_entry = Ok out).
  { unfold get_bgp_neighbors_detail, rpc_get, bind, send_rpc, modify, ret, lift in Hrun.
    rewrite Htable in Hrun. simpl in Hrun. now injection Hrun as -> _. }
  destruct (bgp_detail_loop_origin table [] out Hloop key record Hget)
    as [Habs|(nkey & fs & r & Hin & -> & -> & Hr)]; [discriminate|].
  exists nkey, fs, r. repeat split; auto.
  - intros k Hk. apply (neighbor_record_keeps fs r k Hr).
    + apply source_details_keys. now left.
    + intros ->. simpl in Hk. intuition discriminate.
    + intros ->. simpl in Hk. intuition discriminate.
    + intros ->. simpl in Hk. intuition discriminate.
  - intros k Hk H1 H2 H3. apply (neighbor_record_keeps fs r k Hr); auto.
    apply source_details_keys. now right.
Qed.

Lemma bgp_detail_entry_stores table :
  (forall e, In e table -> exists r, neighbor_record (snd e) = Ok r) ->
  forall e, In e table -> forall a,
      bgp_detail_entry a e = Ok (dict_set a (neighbor_key e) (neighbor_value e)).
Proof.
  intros Hall e He a. destruct (Hall e He) as [r Hr].
  unfold bgp_detail_entry, neighbor_key, neighbor_value. now rewrite Hr.
Qed.

Lemma rfor_each_all_ok {A B} (body : A -> B -> result A) (ok : B -> Prop) (l : list B) :
  (forall acc e, (exists acc', body acc e = Ok acc') -> ok e) ->
  forall acc out, rfor_each l acc body = Ok out -> forall e, In e l -> ok e.
Proof.
  intros Hok. induction l as [|x l IH]; intros acc out H e He; simpl in *; [tauto|].
  destruct (body acc x) as [err|acc'] eqn:E; simpl in H; [discriminate|].
  destruct He as [<-|He]; eauto.
Qed.

(** X9. When the BGP-neighbors-detail getter returns, its result has a record
    for every neighbor of the table under the neighbor's address without the
    port, and no other key.  Entries whose addresses differ only in the port
    share a key: the record of the last such entry is the one kept. *)
Theorem bgp_detail_one_record_per_address (dev : device) (s s' : driver)
  (table : items string) (out : dict) :
  junos_bgp_neighbors_table dev = Ok table ->
  get_bgp_neighbors_detail dev s = (Ok out, s') ->
  (forall k, In k (keys out) <-> In k (map neighbor_key table)) /\
  (forall before entry after r,
      table = (before ++ entry :: after)%list ->
      ~ In (neighbor_key entry) (map neighbor_key after) ->
      neighbor_record (snd entry) = Ok r ->
      dict_get out (neighbor_key entry) = Some (PDict r)).
Proof.
  intros Htable Hrun.
  assert (Hloop : rfor_each table [] bgp_detail_entry = Ok out).
  { unfold get_bgp_neighbors_detail, rpc_get, bind, send_rpc, modify, ret, lift in Hrun.
    rewrite Htable in Hrun. simpl in Hrun. now injection Hrun as -> _. }
  assert (Hall : forall e, In e table -> exists r, neighbor_record (snd e) = Ok r).
  { apply (rfor_each_all_ok bgp_detail_entry
             (fun e => exists r, neighbor_record (snd e) = Ok r) table) with [] out;
      [|exact Hloop].
    intros acc e [acc' H]. unfold bgp_detail_entry in H.
    destruct (neighbor_record (snd e)); [discriminate|eauto]. }
  pose proof (rfor_each_stores neighbor_key neighbor_value bgp_detail_entry table []
                (bgp_detail_entry_stores table Hall)) as Hst.
  assert (Hout : out = stored neighbor_key neighbor_value table [])
    by (apply (eq_trans (eq_sym Hloop)) in Hst; now injection Hst).
  subst out. clear Hst. split.
  - intros k. unfold stored.
    assert (G : forall l acc,
               In k (keys (fold_left
                             (fun a e => dict_set a (neighbor_key e) (neighbor_value e))
                             l acc)) <->
               In k (keys acc) \/ In k (map neighbor_key l)).
    { induction l as [|e l IH]; intros acc; simpl; [tauto|].
      rewrite IH, keys_set. intuition. }
    rewrite G. simpl. tauto.
  - intros before entry after r -> Hlast Hr.
    rewrite stored_last by exact Hlast. unfold neighbor_value. now rewrite Hr.
Qed.

(** An entry that supplies both fallback fields gets as far as its address. *)
Lemma neighbor_record_address fs :
  supplies fs "local_as_2" && supplies fs "remote_as_2" = true ->
  exists d2,
    rfor_each ["local_as"; "remote_as"] (source_details fs) reconcile_as = Ok d2 /\
    dict_get d2 "local_address" = dict_get (source_details fs) "local_address" /\
    forall v, dict_get (dict_set d2 "local_address" v) "rib" =
              dict_get (source_details fs) "rib".
Proof.
  intros Es. apply andb_prop in Es. destruct Es as [E1 E2].
  destruct (source_details_default fs "local_as") as [las Hlas]; [simpl; tauto|].
  destruct (source_details_default fs "remote_as") as [ras Hras]; [simpl; tauto|].
  destruct (source_details_supplied fs "local_as_2" E1) as [las2 Hlas2].
  destruct (source_details_supplied fs "remote_as_2" E2) as [ras2 Hras2].
  simpl.
  destruct (reconcile_as (source_details fs) "local_as") as [|d1] eqn:Ed1.
  { rewrite (reconcile_as_present _ "local_as" las las2 Hlas Hlas2) in Ed1. discriminate. }
  destruct (reconcile_as_get _ "local_as" las las2 d1 ltac:(discriminate) Hlas Hlas2 Ed1)
    as (_ & _ & R1).
  assert (Hras1 : dict_get d1 "remote_as" = Some ras)
    by (rewrite R1 by discriminate; exact Hras).
  assert (Hras21 : dict_get d1 ("remote_as" ++ "_2") = Some ras2)
    by (simpl; rewrite R1 by discriminate; exact Hras2).
  simpl.
  destruct (reconcile_as d1 "remote_as") as [|d2] eqn:Ed2.
  { rewrite (reconcile_as_present _ "remote_as" ras ras2 Hras1 Hras21) in Ed2. discriminate. }
  destruct (reconcile_as_get _ "remote_as" ras ras2 d2 ltac:(discriminate) Hras1 Hras21 Ed2)
    as (_ & _ & R2).
  exists d2. simpl. split; [reflexivity|]. split.
  - rewrite R2 by discriminate. now rewrite R1 by discriminate.
  - intros v. rewrite dict_get_set_other by discriminate.
    rewrite R2 by discriminate. now rewrite R1 by discriminate.
Qed.

Lemma neighbor_record_no_rib fs addr :
  supplies fs "local_as_2" && supplies fs "remote_as_2" = true ->
  dict_get (source_details fs) "local_address" = Some (PStr addr) ->
  supplies fs "rib" = false ->
  neighbor_record fs = Raise (KeyError "rib").
Proof.
  intros Es Ha Hrib.
  destruct (neighbor_record_address fs Es) as (d2 & Hrec & Haddr & Hr).
  unfold neighbor_record. rewrite Hrec. simpl.
  unfold subscript. rewrite Haddr, Ha. simpl.
  unfold dict_pop. rewrite Hr.
  rewrite source_details_unsupplied; [reflexivity| |assumption].
  simpl. intuition discriminate.
Qed.

Lemma neighbor_record_bad_address fs v :
  supplies fs "local_as_2" && supplies fs "remote_as_2" = true ->
  dict_get (source_details fs) "local_address" = Some v ->
  (forall a, v <> PStr a) ->
  neighbor_record fs = Raise (AttributeError "split").
Proof.
  intros Es Ha Hv.
  destruct (neighbor_record_address fs Es) as (d2 & Hrec & Haddr & Hr).
  unfold neighbor_record. rewrite Hrec. simpl.
  unfold subscript. rewrite Haddr, Ha. simpl.
  destruct v; try reflexivity. exfalso. now apply (Hv s).
Qed.

(** X10. Two more ways a single entry stops the BGP-neighbors-detail getter,
    the entries before it processed and its two fallback fields supplied: an
    entry without a non-null [rib] raises the key error of ["rib"], and an
    entry whose [local_address] is not a string raises an attribute error. *)
Theorem bgp_detail_stopped_by_entry (dev : device) (s : driver)
  (before after : items string) (key : string) (fs : fields) :
  junos_bgp_neighbors_table dev = Ok (before ++ (key, fs) :: after)%list ->
  (forall b, In b before -> exists r, neighbor_record (snd b) = Ok r) ->
  supplies fs "local_as_2" && supplies fs "remote_as_2" = true ->
  (forall addr,
      dict_get (source_details fs) "local_address" = Some (PStr addr) ->
      supplies fs "rib" = false ->
      exists s', get_bgp_neighbors_detail dev s = (Raise (KeyError "rib"), s')) /\
  (forall v,
      dict_get (source_details fs) "local_address" = Some v ->
      (forall a, v <> PStr a) ->
      exists s', get_bgp_neighbors_detail dev s = (Raise (AttributeError "split"), s')).
Proof.
  intros Htable Hbefore Es.
  assert (Hrun : exists s',
             get_bgp_neighbors_detail dev s =
             (rfor_each (before ++ (key, fs) :: after)%list [] bgp_detail_entry, s')).
  { unfold get_bgp_neighbors_detail, rpc_get, bind, send_rpc, modify, ret, lift.
    rewrite Htable. simpl. eexists. reflexivity. }
  destruct Hrun as [s' Hrun].
  assert (Hb : forall b, In b before -> forall acc, exists acc', bgp_detail_entry acc b = Ok acc').
  { intros b Hin acc. destruct (Hbefore b Hin) as [r Hr].
    unfold bgp_detail_entry. rewrite Hr. simpl. eauto. }
  split.
  - intros addr Ha Hrib. exists s'. rewrite Hrun.
    apply (f_equal (fun r => (r, s'))).
    apply rfor_each_first_raise; [exact Hb|].
    intros acc. unfold bgp_detail_entry. simpl.
    now rewrite (neighbor_record_no_rib fs addr Es Ha Hrib).
  - intros v Ha Hv. exists s'. rewrite Hrun.
    apply (f_equal (fun r => (r, s'))).
    apply rfor_each_first_raise; [exact Hb|].
    intros acc. unfold bgp_detail_entry. simpl.
    now rewrite (neighbor_record_bad_address fs v Es Ha Hv).
Qed.

End BgpDetailMore.

Lemma bgp_detail_fields_kept_witness :
  exists out s' record,
    CustomJunOSDriver.get_bgp_neighbors_detail
      (Sample.bgp_device Sample.neighbor_fields) Sample.fresh = (Ok out, s') /\
    dict_get out "192.0.2.2" = Some record /\
    exists nkey fs r,
      In (nkey, fs) [("192.0.2.2+52000", Sample.neighbor_fields)] /\
      "192.0.2.2" = split_head "+" nkey /\ record = PDict r /\
      (forall k, In k (keys CustomJunOSDriver.default_neighbor_details) -> In k (keys r)) /\
      (forall k, supplies fs k = true ->
                 k <> "local_as_2" -> k <> "remote_as_2" -> k <> "rib" ->
                 In k (keys r)).
Proof.
  eexists _, _, _.
  split; [reflexivity|]. split; [reflexivity|].
  exact (bgp_detail_fields_kept
           (Sample.bgp_device Sample.neighbor_fields) Sample.fresh _
           [("192.0.2.2+52000", Sample.neighbor_fields)] _
           eq_refl eq_refl "192.0.2.2" _ eq_refl).
Defined.

Lemma bgp_detail_one_record_per_address_witness :
  exists out s',
    CustomJunOSDriver.get_bgp_neighbors_detail
      (SampleNeighbors.peers SampleNeighbors.two_sessions) Sample.fresh = (Ok out, s') /\
    keys out = ["192.0.2.2"] /\
    (forall k, In k (keys out) <-> In k (map neighbor_key SampleNeighbors.two_sessions)) /\
    (forall before entry after r,
        SampleNeighbors.two_sessions = (before ++ entry :: after)%list ->
        ~ In (neighbor_key entry) (map neighbor_key after) ->
        CustomJunOSDriver.neighbor_record (snd entry) = Ok r ->
        dict_get out (neighbor_key entry) = Some (PDict r)).
Proof.
  eexists _, _.
  split; [reflexivity|]. split; [reflexivity|].
  exact (bgp_detail_one_record_per_address
           (SampleNeighbors.peers SampleNeighbors.two_sessions) Sample.fresh _
           SampleNeighbors.two_sessions _ eq_refl eq_refl).
Defined.

Lemma bgp_detail_stopped_by_entry_witness :
  (exists s',
      CustomJunOSDriver.get_bgp_neighbors_detail
        (SampleNeighbors.peers
           [("192.0.2.2+52000", Sample.neighbor_fields);
            ("192.0.2.6", SampleNeighbors.no_rib_fields)]) Sample.fresh =
      (Raise (KeyError "rib"), s')) /\
  (exists s',
      CustomJunOSDriver.get_bgp_neighbors_detail
        (SampleNeighbors.peers
           [("192.0.2.2+52000", Sample.neighbor_fields);
            ("192.0.2.6", SampleNeighbors.numeric_address_fields)]) Sample.fresh =
      (Raise (AttributeError "split"), s')).
Proof.
  assert (Hb : forall b, In b [("192.0.2.2+52000", Sample.neighbor_fields)] ->
                         exists r, CustomJunOSDriver.neighbor_record (snd b) = Ok r).
  { intros b [<-|[]]. eexists. vm_compute. reflexivity. }
  split.
  - apply (proj1 (bgp_detail_stopped_by_entry
                    (SampleNeighbors.peers
                       [("192.0.2.2+52000", Sample.neighbor_fields);
                        ("192.0.2.6", SampleNeighbors.no_rib_fields)]) Sample.fresh
                    [("192.0.2.2+52000", Sample.neighbor_fields)] []
                    "192.0.2.6" SampleNeighbors.no_rib_fields eq_refl Hb eq_refl)
                 "192.0.2.1+179" eq_refl eq_refl).
  - apply (proj2 (bgp_detail_stopped_by_entry
                    (SampleNeighbors.peers
                       [("192.0.2.2+52000", Sample.neighbor_fields);
                        ("192.0.2.6", SampleNeighbors.numeric_address_fields)]) Sample.fresh
                    [("192.0.2.2+52000", Sample.neighbor_fields)] []
                    "192.0.2.6" SampleNeighbors.numeric_address_fields eq_refl Hb eq_refl)
                 (PInt 3221225985) eq_refl).
    intros a. discriminate.
Defined.

(** ** The IS-IS getter when one of its two calls fails *)

Section IsisFailedCalls.

Import CustomJunOSDriver.

Variable dev : device.

Lemma rpc_get_answer {K : Type} table (t : items K) msg s :
  rpc_get table (Ok t) msg s = (Ok (Table t), called s table []).
Proof. reflexivity. Qed.

(** X11. When the adjacency call of the IS-IS getter fails with the
    remote-procedure error, the getter still sends the interface call and
    returns an empty result, whatever the interface table lists; when both
    calls fail, the log has the same message twice, as both calls are logged
    as ["IS-IS neighbors"]. *)
Theorem isis_adjacency_call_fails (rpcerr : string) (s : driver) :
  ISISAdjacencyTable dev = Raise (RpcError rpcerr) ->
  let s1 := logged (called s "ISISAdjacencyTable" [])
              (failure_lines "IS-IS neighbors" rpcerr) in
  (forall ints,
      ISISInterfaceTable dev = Ok ints ->
      forallb interface_shaped ints = true ->
      get_isis_interfaces_custom dev s = (Ok [], called s1 "ISISInterfaceTable" [])) /\
  (forall rpcerr',
      ISISInterfaceTable dev = Raise (RpcError rpcerr') ->
      get_isis_interfaces_custom dev s =
      (Ok [], logged (called s1 "ISISInterfaceTable" [])
                (failure_lines "IS-IS neighbors" rpcerr'))).
Proof.
  intros Hadj s1. split.
  - intros ints Hints Hshape.
    unfold get_isis_interfaces_custom, bind.
    rewrite (rpc_get_failure_state _ _ _ _ _ Hadj). fold s1.
    rewrite Hints, rpc_get_answer. simpl. unfold lift.
    rewrite (rfor_each_stores entry_name _ _ _ _ (isis_int_entry_stores ints Hshape)).
    reflexivity.
  - intros rpcerr' Hints.
    unfold get_isis_interfaces_custom, bind.
    rewrite (rpc_get_failure_state _ _ _ _ _ Hadj). fold s1.
    rewrite (rpc_get_failure_state _ _ _ _ _ Hints). reflexivity.
Qed.

(** X12. When only the interface call of the IS-IS getter fails with the
    remote-procedure error, the failure is logged and the join runs against an
    empty interface table: with no adjacency the result is empty, and
    otherwise the getter raises the key error of the first adjacency's
    interface name. *)
Theorem isis_interface_call_fails (adj : items (list string)) (rpcerr : string)
  (s : driver) :
  ISISAdjacencyTable dev = Ok adj ->
  ISISInterfaceTable dev = Raise (RpcError rpcerr) ->
  let s2 := logged (called (called s "ISISAdjacencyTable" []) "ISISInterfaceTable" [])
              (failure_lines "IS-IS neighbors" rpcerr) in
  (adj = [] -> get_isis_interfaces_custom dev s = (Ok [], s2)) /\
  (forall name ks fs rest,
      adj = (name :: ks, fs) :: rest ->
      adjacency_shaped (name :: ks, fs) = true ->
      get_isis_interfaces_custom dev s = (Raise (KeyError name), s2)).
Proof.
  intros Hadj Hints s2.
  assert (Hrun : get_isis_interfaces_custom dev s =
                 (rfor_each adj [] (isis_entry []), s2)).
  { unfold get_isis_interfaces_custom, bind.
    rewrite Hadj, rpc_get_answer.
    rewrite (rpc_get_failure_state _ _ _ _ _ Hints). reflexivity. }
  split.
  - intros ->. exact Hrun.
  - intros name ks fs rest -> Hshape. rewrite Hrun.
    apply (f_equal (fun r => (r, s2))).
    destruct fs as [|f0 [|f1 [|f2 [|f3 fs]]]]; try discriminate.
    reflexivity.
Qed.

End IsisFailedCalls.

Lemma isis_adjacency_call_fails_witness :
  CustomJunOSDriver.get_isis_interfaces_custom Sample.unreachable Sample.fresh =
  (Ok [],
   {| log := ["Unable to retrieve IS-IS neighbors information:"; "timeout";
              "Unable to retrieve IS-IS neighbors information:"; "timeout"];
      rpc_calls := [("ISISAdjacencyTable", []); ("ISISInterfaceTable", [])] |}).
Proof.
  exact (proj2 (isis_adjacency_call_fails Sample.unreachable "timeout" Sample.fresh
                  eq_refl) "timeout" eq_refl).
Defined.

Lemma isis_interface_call_fails_witness :
  CustomJunOSDriver.get_isis_interfaces_custom SampleNeighbors.adjacent Sample.fresh =
  (Raise (KeyError "ge-0/0/0.0"),
   {| log := ["Unable to retrieve IS-IS neighbors information:"; "timeout"];
      rpc_calls := [("ISISAdjacencyTable", []); ("ISISInterfaceTable", [])] |}).
Proof.
  exact (proj2 (isis_interface_call_fails SampleNeighbors.adjacent Sample.adjacencies
                  "timeout" Sample.fresh eq_refl eq_refl)
           "ge-0/0/0.0" ["core1"] _ [] eq_refl eq_refl).
Defined.

(** ** Which sessions the per-circuit workflow touches, and when it closes them *)

Section Confined.

Import Main.

Variables (P : event -> Prop) (fixed : bool).

Lemma confined_refl s : confined P fixed s s.
Proof.
  split; [reflexivity|]. exists []. now rewrite app_nil_r.
Qed.

Lemma confined_trans s s1 s2 :
  confined P fixed s s1 -> confined P fixed s1 s2 -> confined P fixed s s2.
Proof.
  intros (F1 & new1 & T1 & L1) (F2 & new2 & T2 & L2). split.
  - intros Hf. now rewrite F2, F1.
  - exists (new1 ++ new2)%list. split.
    + now rewrite T2, T1, app_assoc.
    + apply Forall_app. now split.
Qed.

Lemma within_ret {A} (a : A) : within P fixed (ret a).
Proof. intros s r s' H. injection H as _ <-. apply confined_refl. Qed.

Lemma within_raise {A} (e : exn) : within P fixed (@raise main A e).
Proof. intros s r s' H. injection H as _ <-. apply confined_refl. Qed.

Lemma within_lift {A} (x : result A) : within P fixed (lift x).
Proof. intros s r s' H. injection H as _ <-. apply confined_refl. Qed.

Lemma within_get_state : within P fixed (@get_state main).
Proof. intros s r s' H. injection H as _ <-. apply confined_refl. Qed.

Lemma within_time_time : within P fixed time_time.
Proof. intros s r s' H. injection H as _ <-. apply confined_refl. Qed.

Lemma within_bind {A B} (c : M main A) (k : A -> M main B) :
  within P fixed c -> (forall a, within P fixed (k a)) -> within P fixed (bind c k).
Proof.
  intros Hc Hk s r s' H. unfold bind in H.
  destruct (c s) as [[e|a] s1] eqn:E.
  - injection H as _ <-. eapply Hc; eauto.
  - eapply confined_trans; [eapply Hc; eauto | eapply Hk; eauto].
Qed.

Lemma within_for_each {A B} (body : A -> B -> M main A) (l : list B) :
  (forall acc x, In x l -> within P fixed (body acc x)) ->
  forall acc, within P fixed (for_each l acc body).
Proof.
  induction l as [|x l IH]; intros Hb acc; simpl.
  - apply within_ret.
  - apply within_bind; [apply Hb; now left|].
    intros acc'. apply IH. intros a y Hy. apply Hb. now right.
Qed.

(** A change of the object that adds no event, and with [fixed] leaves the
    attribute alone. *)
Lemma within_modify (f : main -> main) :
  (forall s, trace (f s) = trace s) ->
  (fixed = true -> forall s, juniper_connection (f s) = juniper_connection s) ->
  within P fixed (modify f).
Proof.
  intros Ht Hj s r s' H. injection H as _ <-. split.
  - intros Hf. now apply Hj.
  - exists []. now rewrite Ht, app_nil_r.
Qed.

Lemma within_pass_time : within P fixed pass_time.
Proof.
  unfold pass_time. apply within_modify.
  - intros s. now destruct (pending s).
  - intros _ s. now destruct (pending s).
Qed.

Lemma within_emit e : P e -> within P fixed (emit e).
Proof.
  intros He s r s' H. injection H as _ <-. split; [reflexivity|].
  exists [e]. split; [reflexivity|]. now constructor.
Qed.

Lemma within_ask {A} who getter arg (answer : result A) :
  P (Asked who getter arg) -> within P fixed (ask who getter arg answer).
Proof.
  intros He. unfold ask.
  apply within_bind; [apply within_pass_time|intros _].
  apply within_bind; [now apply within_emit|intros _]. apply within_lift.
Qed.

Lemma within_close who sess : P (Closed who) -> within P fixed (close who sess).
Proof.
  intros He. unfold close.
  apply within_bind; [apply within_pass_time|intros _].
  apply within_bind; [now apply within_emit|intros _].
  destruct (close_raises sess); [apply within_raise|apply within_ret].
Qed.

Lemma within_napalm_connect who :
  (forall t, P (OneTimeCode who t)) -> within P fixed (napalm_connect who).
Proof.
  intros He. unfold napalm_connect.
  apply within_bind; [apply within_pass_time|intros _].
  apply within_bind; [apply within_time_time|intros now]. now apply within_emit.
Qed.

Lemma within_open who :
  (forall t, P (Opened who t)) -> within P fixed (open who).
Proof.
  intros He. unfold open.
  apply within_bind; [apply within_pass_time|intros _].
  apply within_bind; [apply within_time_time|intros now]. now apply within_emit.
Qed.

Lemma within_sleep d :
  (forall from until, P (Slept d from until)) -> within P fixed (sleep d).
Proof.
  intros He. unfold sleep. destruct (d <? 0); [apply within_raise|].
  apply within_bind; [apply within_time_time|intros from].
  apply within_bind; [apply within_modify; auto|intros _].
  apply within_bind; [apply within_pass_time|intros _].
  apply within_bind; [apply within_time_time|intros now]. now apply within_emit.
Qed.

Lemma within_get_dns_name ext ipaddress : within P fixed (_get_dns_name ext ipaddress).
Proof.
  unfold _get_dns_name.
  apply within_bind; [apply within_pass_time|intros _].
  destruct (gethostbyaddr ext ipaddress) as [[]|];
    first [apply within_ret | apply within_raise].
Qed.

Lemma within_interface_block ext c circuit_data :
  within P fixed (interface_block ext c circuit_data).
Proof.
  unfold interface_block.
  repeat (apply within_bind;
          [first [apply within_lift | apply within_get_dns_name]|intro]).
  apply within_ret.
Qed.

Lemma within_init data :
  (forall t, P (OneTimeCode Primary t)) -> (forall t, P (Opened Primary t)) ->
  within P fixed (__init__ data).
Proof.
  intros Hc Ho. unfold __init__.
  apply within_bind; [apply within_pass_time|intros _].
  apply within_bind; [apply within_pass_time|intros _].
  apply within_bind; [apply within_time_time|intros now].
  apply within_bind; [apply within_modify; auto|intros _].
  apply within_bind; [now apply within_napalm_connect|intros _].
  now apply within_open.
Qed.

Hypothesis primary_asks : forall getter arg, P (Asked Primary getter arg).

Lemma within_interface_common_getters ext conn extra_inputs :
  within P fixed (_interface_common_getters ext conn extra_inputs).
Proof.
  unfold _interface_common_getters.
  repeat (apply within_bind;
          [first [apply within_ask; apply primary_asks | apply within_lift]|intro]).
  apply within_lift.
Qed.

Lemma within_junos_routes conn c : within P fixed (junos_routes conn c).
Proof.
  unfold junos_routes.
  apply within_bind; [|intro; apply within_ret].
  apply within_for_each. intros acc i _.
  destruct (truthy i); [|apply within_ret].
  apply within_bind; [apply within_ask; apply primary_asks|intro].
  apply within_bind; [apply within_lift|intro]. apply within_ret.
Qed.

(** What surrounds the route lookup in the body of the loop. *)
Lemma within_circuit_body ext conn global data interfaces_all output_dict item :
  (forall c, within P fixed
               (if (device_type data =? "junos")%string
                then junos_routes conn c
                else global_routes conn global (fst item) c)) ->
  within P fixed (circuit_body ext conn global data interfaces_all output_dict item).
Proof.
  intros Hroutes. destruct item as [counter c]. unfold circuit_body.
  apply within_bind; [apply within_lift|intro].
  apply within_bind; [apply within_interface_block|intro].
  apply within_bind.
  - destruct (truthy _); [|apply within_ret].
    apply within_bind; [apply within_lift|intro].
    apply within_bind; [apply within_lift|intro]. apply within_ret.
  - intros [output_dict' c'].
    apply within_bind; [apply Hroutes|intro]. apply within_lift.
Qed.

End Confined.

Section Sessions.

Import Main.

Variables (ext : externals) (conn global : session) (data : run_data).

Lemma within_open_global_router : within not_closed false open_global_router.
Proof.
  unfold open_global_router.
  apply within_bind; [apply within_time_time|intros now].
  apply within_bind; [apply within_get_state|intros st].
  apply within_bind.
  - destruct (_ <? _); [|apply within_ret]. apply within_sleep. intros; exact I.
  - intros _.
    apply within_bind; [apply within_napalm_connect; intros; exact I|intros _].
    apply within_bind; [apply within_modify; [reflexivity|discriminate]|intros _].
    apply within_open. intros; exact I.
Qed.

Lemma within_global_routes counter c :
  within not_closed false (global_routes conn global counter c).
Proof.
  unfold global_routes.
  apply within_bind.
  - apply within_for_each. intros acc i _.
    destruct (truthy i); [|apply within_ret].
    apply within_bind; [apply within_ask; exact I|intro].
    apply within_bind; [apply within_lift|intro]. apply within_ret.
  - intros routes_list.
    apply within_bind.
    + destruct (counter =? 0)%nat; [apply within_open_global_router|apply within_ret].
    + intros _. apply within_bind; [apply within_get_state|intros st].
      destruct (juniper_connection st); [apply within_ask; exact I|apply within_raise].
Qed.

(** The workflow is its collecting part followed by the closing of the
    sessions. *)
Lemma circuits_pms_split s :
  circuits_pms ext conn global data s =
  match circuits_collected ext conn global data s with
  | (Raise e, s3) => (Raise e, s3)
  | (Ok output_dict, s3) =>
      (close Primary conn ;;;
       st <- get_state ;;
       (if juniper_connection st
        then except_attribute_error (close Secondary global)
        else ret tt) ;;;
       ret output_dict) s3
  end.
Proof.
  unfold circuits_pms, circuits_collected, bind.
  destruct (ask Primary "get_interfaces_counters" PNone (get_interfaces_counters conn) s)
    as [[e|iface_counters] s1]; [reflexivity|].
  destruct (_interface_common_getters ext conn [iface_counters] s1)
    as [[e|interfaces_all] s2]; [reflexivity|].
  destruct (for_each (enumerate (circuits data)) []
              (circuit_body ext conn global data interfaces_all) s2)
    as [[e|output_dict] s3]; reflexivity.
Qed.

(** Up to the end of the loop no session is closed. *)
Lemma within_collected :
  within not_closed false (circuits_collected ext conn global data).
Proof.
  unfold circuits_collected.
  apply within_bind; [apply within_ask; exact I|intro].
  apply within_bind;
    [apply within_interface_common_getters; intros; exact I|intros interfaces_all].
  apply within_for_each. intros acc item _.
  apply within_circuit_body.
  intros c. destruct (device_type data =? "junos")%string.
  - apply within_junos_routes. intros; exact I.
  - apply within_global_routes.
Qed.

(** On the Junos device type it leaves the secondary session alone. *)
Lemma within_junos_collected :
  device_type data = "junos" ->
  within primary_only true (circuits_collected ext conn global data).
Proof.
  intros Hj. unfold circuits_collected.
  apply within_bind; [apply within_ask; exact I|intro].
  apply within_bind;
    [apply within_interface_common_getters; intros; exact I|intros interfaces_all].
  apply within_for_each. intros acc item _.
  apply within_circuit_body.
  intros c. rewrite Hj. simpl.
  apply within_junos_routes. intros; exact I.
Qed.

(** [close()] is called, and raises what the session makes it raise. *)
Lemma close_effect who sess s :
  exists s1,
    close who sess s =
    (match close_raises sess with Some e => Raise e | None => Ok tt end, s1) /\
    trace s1 = (trace s ++ [Closed who])%list /\
    juniper_connection s1 = juniper_connection s.
Proof.
  unfold close, bind, pass_time, emit, modify, raise, ret.
  destruct (pending s); destruct (close_raises sess); simpl; eexists; repeat split.
Qed.

(** X13. How the per-circuit workflow ends.  When it returns, the events it
    has added end with the closing of the primary session, followed by the
    closing of the secondary session if that session was ever set up, and no
    session was closed before that.  When it raises, one of three things has
    happened.  The exception came up before the loop over the circuits had
    ended, and then no session has been closed: the sessions opened are left
    open.  Or [close()] of the primary session raised it, and then the
    secondary session has not been closed.  Or [close()] of the secondary
    session raised it, and it is no [AttributeError]. *)
Theorem circuits_pms_closes_on_return (s s' : main) (r : result dict) :
  circuits_pms ext conn global data s = (r, s') ->
  exists new,
    trace s' = (trace s ++ new)%list /\
    match r with
    | Ok _ => exists before, new = (before ++ closing s')%list /\ Forall not_closed before
    | Raise e =>
        (circuits_collected ext conn global data s = (Raise e, s') /\
         Forall not_closed new) \/
        (exists before,
            Forall not_closed before /\
            new = (before ++ [Closed Primary])%list /\
            close_raises conn = Some e) \/
        (exists before,
            Forall not_closed before /\
            new = (before ++ [Closed Primary; Closed Secondary])%list /\
            close_raises global = Some e /\
            forall msg, e <> AttributeError msg)
    end.
Proof.
  rewrite circuits_pms_split. intros H.
  destruct (circuits_collected ext conn global data s) as [[e|output_dict] s3] eqn:E;
    destruct (within_collected _ _ _ E) as (_ & before & T & L).
  { injection H as <- <-. exists before. split; [exact T|]. left. now split. }
  unfold bind at 1 in H.
  destruct (close_effect Primary conn s3) as (s4 & Ec4 & T4 & J4). rewrite Ec4 in H.
  destruct (close_raises conn) as [e1|] eqn:Ep.
  { injection H as <- <-. exists (before ++ [Closed Primary])%list. split.
    - rewrite T4, T. now rewrite <- app_assoc.
    - right. left. exists before. auto. }
  unfold bind at 1 in H. unfold get_state at 1 in H.
  unfold bind at 1 in H.
  destruct (juniper_connection s4) eqn:Ej.
  - unfold except_attribute_error in H.
    destruct (close_effect Secondary global s4) as (s5 & Ec & T5 & J5).
    rewrite Ec in H.
    assert (T' : trace s5 = (trace s ++ before ++ [Closed Primary; Closed Secondary])%list)
      by (rewrite T5, T4, T; now rewrite <- !app_assoc).
    assert (C5 : closing s5 = [Closed Primary; Closed Secondary])
      by (unfold closing; now rewrite J5, Ej).
    destruct (close_raises global) as [e2|] eqn:Eg.
    + destruct e2; injection H as <- <-; eexists; (split; [exact T'|]);
        try (right; right; exists before; repeat split; auto; discriminate).
      exists before. now rewrite C5.
    + injection H as <- <-. eexists. split; [exact T'|].
      exists before. now rewrite C5.
  - injection H as <- <-.
    exists (before ++ [Closed Primary])%list. split.
    + rewrite T4, T. now rewrite <- app_assoc.
    + exists before. split; [|exact L].
      unfold closing. now rewrite Ej.
Qed.

(** X14. On the Junos device type a run never sets up the secondary session:
    if the attribute was unset when the run began it still is when the run
    ends, and the run generated no one-time code for that session, opened,
    asked or closed it at no point, and never slept. *)
Theorem junos_run_primary_only (s s' : main) (r : result dict) :
  device_type data = "junos" ->
  juniper_connection s = false ->
  run ext conn global data s = (r, s') ->
  juniper_connection s' = false /\
  exists new, trace s' = (trace s ++ new)%list /\ Forall primary_only new.
Proof.
  intros Hj Hs H.
  unfold run in H. unfold bind at 1 in H.
  destruct (__init__ data s) as [[e|[]] s1] eqn:E1;
    pose proof (within_init primary_only true data (fun _ => I) (fun _ => I) _ _ _ E1)
      as C1.
  { injection H as <- <-. destruct C1 as (F & new & T & L).
    split; [now rewrite F|]. exists new. now split. }
  rewrite circuits_pms_split in H.
  destruct (circuits_collected ext conn global data s1) as [[e|output_dict] s3] eqn:E3;
    pose proof (within_junos_collected Hj _ _ _ E3) as C3;
    pose proof (confined_trans _ _ _ _ _ C1 C3) as C.
  { injection H as <- <-. destruct C as (F & new & T & L).
    split; [now rewrite F|]. exists new. now split. }
  destruct C as (F & new & T & L).
  unfold bind at 1 in H.
  destruct (close_effect Primary conn s3) as (s4 & Ec4 & T4 & J4). rewrite Ec4 in H.
  assert (Ej : juniper_connection s4 = false) by (now rewrite J4, F).
  assert (Hs4 : s' = s4).
  { destruct (close_raises conn); [now injection H as _ <-|].
    unfold bind at 1 in H. unfold get_state at 1 in H.
    unfold bind at 1 in H. rewrite Ej in H. now injection H as _ <-. }
  subst s'. split; [exact Ej|].
  exists (new ++ [Closed Primary])%list. split.
  - rewrite T4, T. now rewrite <- app_assoc.
  - apply Forall_app. split; [exact L|]. now constructor.
Qed.

End Sessions.

Lemma circuits_pms_closes_on_return_witness :
  (exists out s' new,
      Main.circuits_pms SampleRun.ext SampleRun.edge SampleRun.core SampleRun.data
        SampleRun.start = (Ok out, s') /\
      Main.trace s' = (Main.trace SampleRun.start ++ new)%list /\
      exists before,
        new = (before ++ [Main.Closed Main.Primary; Main.Closed Main.Secondary])%list /\
        Forall not_closed before) /\
  (exists s' new,
      Main.circuits_pms SampleRun.ext SampleRun.edge SampleRun.core
        SampleSessions.stray_data SampleRun.start = (Raise (KeyError "ge-0/0/7"), s') /\
      Main.juniper_connection s' = true /\
      Main.trace s' = (Main.trace SampleRun.start ++ new)%list /\
      Forall not_closed new) /\
  (exists s' new before,
      Main.circuits_pms SampleRun.ext SampleSessions.lost_edge SampleRun.core
        SampleRun.data SampleRun.start = (Raise (RpcError "connection lost"), s') /\
      Main.juniper_connection s' = true /\
      Main.trace s' = (Main.trace SampleRun.start ++ new)%list /\
      new = (before ++ [Main.Closed Main.Primary])%list /\
      Forall not_closed before).
Proof.
  split; [|split].
  - eexists _, _.
    match goal with
    | |- exists new, ?run /\ _ => assert (Hrun : run) by (vm_compute; reflexivity)
    end.
    destruct (circuits_pms_closes_on_return SampleRun.ext SampleRun.edge SampleRun.core
                SampleRun.data SampleRun.start _ _ Hrun) as (new & T & before & E & L).
    exists new. split; [exact Hrun|]. split; [exact T|].
    exists before. split; [exact E|exact L].
  - eexists.
    match goal with
    | |- exists new, ?run /\ _ => assert (Hrun : run) by (vm_compute; reflexivity)
    end.
    destruct (circuits_pms_closes_on_return SampleRun.ext SampleRun.edge SampleRun.core
                SampleSessions.stray_data SampleRun.start _ _ Hrun)
      as (new & T & [[_ L]|[(before & _ & _ & Hc)|(before & _ & _ & Hc & _)]]);
      try discriminate Hc.
    exists new. split; [exact Hrun|]. split; [reflexivity|]. split; [exact T|exact L].
  - eexists.
    match goal with
    | |- exists new before, ?run /\ _ =>
        assert (Hrun : run) by (vm_compute; reflexivity)
    end.
    destruct (circuits_pms_closes_on_return SampleRun.ext SampleSessions.lost_edge
                SampleRun.core SampleRun.data SampleRun.start _ _ Hrun)
      as (new & T & [[Hc _]|[(before & L & E & _)|(before & _ & _ & Hc & _)]]);
      try discriminate Hc.
    exists new, before. split; [exact Hrun|]. split; [reflexivity|].
    split; [exact T|]. split; [exact E|exact L].
Defined.

Lemma junos_run_primary_only_witness :
  exists out s',
    Main.run SampleRun.ext SampleSessions.junos_edge SampleRun.core
      SampleSessions.junos_data SampleRun.start = (Ok out, s') /\
    Main.juniper_connection s' = false /\
    exists new,
      Main.trace s' = (Main.trace SampleRun.start ++ new)%list /\
      Forall primary_only new.
Proof.
  eexists _, _.
  match goal with
  | |- ?run /\ _ => assert (Hrun : run) by (vm_compute; reflexivity)
  end.
  split; [exact Hrun|].
  exact (junos_run_primary_only SampleRun.ext SampleSessions.junos_edge SampleRun.core
           SampleSessions.junos_data SampleRun.start _ _ eq_refl eq_refl Hrun).
Defined.

(** ** The interfaces the device-wide planning keeps *)

Section Planning.

Import MigrationData.

Lemma dict_get_nodup {V} (d : list (string * V)) k v :
  NoDup (keys d) -> In (k, v) d -> dict_get d k = Some v.
Proof.
  induction d as [|[k' v'] d IH]; intros Hn Hin; simpl in *; [tauto|].
  inversion Hn as [|? ? Hk Hd]; subst.
  destruct Hin as [E|Hin].
  - injection E as -> ->. now rewrite String.eqb_refl.
  - destruct (String.eqb_spec k' k) as [->|Hne]; [|auto].
    exfalso. apply Hk. change (In (fst (k, v)) (map fst d)). now apply in_map.
Qed.

Lemma dict_set_absent {V} (d : list (string * V)) k v :
  ~ In k (keys d) -> dict_set d k v = (d ++ [(k, v)])%list.
Proof.
  induction d as [|[k' v'] d IH]; intros Hk; simpl in *; [reflexivity|].
  destruct (String.eqb_spec k' k) as [->|Hne]; [tauto|].
  rewrite IH; tauto.
Qed.

Lemma keys_filter_subset {V} (f : string * V -> bool) (d : list (string * V)) k :
  In k (keys (filter f d)) -> In k (keys d).
Proof.
  unfold keys. rewrite !in_map_iff. intros ([k' v] & E & Hin).
  apply filter_In in Hin. exists (k', v). tauto.
Qed.

(** A round of the loop on an interface it gets past. *)
Lemma keep_interface_readable interfaces_all acc k r :
  dict_get interfaces_all k = Some r ->
  readable (k, r) = true ->
  keep_interface interfaces_all acc k =
  Ok (if needed (k, r) then dict_update acc [(k, r)] else acc).
Proof.
  intros Hget Hr. unfold keep_interface, readable, needed, dict_get_default in *.
  cbn [fst snd] in *.
  destruct (startswith unneeded_prefixes k); simpl in *; [reflexivity|].
  unfold subscript. rewrite Hget. simpl.
  destruct (dict_get r "is_enabled") as [en|]; [|discriminate]. simpl.
  destruct (truthy en); simpl; [reflexivity|].
  destruct (dict_get r "is_up") as [up|]; [|discriminate]. simpl.
  now destruct (truthy up).
Qed.

Lemma interfaces_loop interfaces_all :
  NoDup (keys interfaces_all) ->
  forall rest before,
    interfaces_all = (before ++ rest)%list ->
    forallb readable rest = true ->
    rfor_each (keys rest) (filter needed before) (keep_interface interfaces_all) =
    Ok (filter needed interfaces_all).
Proof.
  intros Hn. induction rest as [|[k r] rest IH]; intros before E Hr; simpl in *.
  - now rewrite E, app_nil_r.
  - apply andb_prop in Hr. destruct Hr as [Hkr Hr].
    assert (Hget : dict_get interfaces_all k = Some r).
    { apply dict_get_nodup; [exact Hn|]. rewrite E. apply in_or_app. right. now left. }
    rewrite (keep_interface_readable _ _ _ _ Hget Hkr). cbn [rbind].
    assert (Hstep : (if needed (k, r)
                     then dict_update (filter needed before) [(k, r)]
                     else filter needed before) =
                    filter needed (before ++ [(k, r)])).
    { rewrite filter_app. simpl. destruct (needed (k, r)); [|now rewrite app_nil_r].
      unfold dict_update. simpl. apply dict_set_absent.
      intros Hin. apply keys_filter_subset in Hin.
      rewrite E in Hn. unfold keys in Hn. rewrite map_app in Hn.
      apply NoDup_remove_2 in Hn. apply Hn. apply in_or_app. now left. }
    rewrite Hstep. apply IH; [|exact Hr].
    now rewrite <- app_assoc.
Qed.

(** X15. The loop of the device-wide planning that removes un-needed
    interfaces keeps, in the order of the interface table and with their
    records untouched, the interfaces whose name starts with none of [Mgmt],
    [Null], [nVFab], [Loop] and [PTP] and which are enabled or up.  It
    returns whenever every interface not excluded by its name has an
    [is_enabled] field, and an [is_up] field where [is_enabled] is falsy; an
    interface excluded by its name is not read at all. *)
Theorem planning_keeps_needed_interfaces (interfaces_all : Main.table) :
  NoDup (keys interfaces_all) ->
  forallb readable interfaces_all = true ->
  interfaces interfaces_all = Ok (filter needed interfaces_all).
Proof.
  intros Hn Hr. unfold interfaces.
  exact (interfaces_loop interfaces_all Hn interfaces_all [] eq_refl Hr).
Qed.

Lemma interfaces_before interfaces_all before :
  NoDup (keys interfaces_all) ->
  (forall e, In e before -> In e interfaces_all) ->
  forallb readable before = true ->
  forall b, In b (keys before) ->
            forall acc, exists acc', keep_interface interfaces_all acc b = Ok acc'.
Proof.
  intros Hn Hsub Hr b Hb acc.
  unfold keys in Hb. apply in_map_iff in Hb. destruct Hb as ([k r] & <- & Hin).
  rewrite forallb_forall in Hr. cbn [fst].
  rewrite (keep_interface_readable interfaces_all acc k r);
    [eauto| |now apply Hr].
  apply dict_get_nodup; auto.
Qed.

(** X16. The loop stops at the first interface, not excluded by its name,
    whose record lacks a field the condition reads: it raises the key error of
    [is_enabled] when that field is missing, and of [is_up] when
    [is_enabled] is there and falsy and [is_up] is missing. *)
Theorem planning_stops_at_unread_field (before after : Main.table) (k : string)
  (r : dict) :
  NoDup (keys (before ++ (k, r) :: after)%list) ->
  forallb readable before = true ->
  startswith unneeded_prefixes k = false ->
  (dict_get r "is_enabled" = None ->
   interfaces (before ++ (k, r) :: after)%list = Raise (KeyError "is_enabled")) /\
  (forall v,
      dict_get r "is_enabled" = Some v -> truthy v = false ->
      dict_get r "is_up" = None ->
      interfaces (before ++ (k, r) :: after)%list = Raise (KeyError "is_up")).
Proof.
  intros Hn Hr Hk.
  set (interfaces_all := (before ++ (k, r) :: after)%list) in *.
  assert (Hget : dict_get interfaces_all k = Some r).
  { apply dict_get_nodup; [exact Hn|]. apply in_or_app. right. now left. }
  assert (Hb : forall b, In b (keys before) ->
                         forall acc, exists acc', keep_interface interfaces_all acc b = Ok acc').
  { apply interfaces_before; auto. intros e He. apply in_or_app. now left. }
  assert (Hkeys : keys interfaces_all = (keys before ++ k :: keys after)%list).
  { unfold interfaces_all, keys. now rewrite map_app. }
  unfold interfaces. rewrite Hkeys. split.
  - intros Hen. apply rfor_each_first_raise; [exact Hb|].
    intros acc. unfold keep_interface, subscript. rewrite Hk, Hget. simpl.
    now rewrite Hen.
  - intros v Hen Hv Hup. apply rfor_each_first_raise; [exact Hb|].
    intros acc. unfold keep_interface, subscript. rewrite Hk, Hget. simpl.
    rewrite Hen. simpl. rewrite Hv. simpl. now rewrite Hup.
Qed.

End Planning.

Lemma planning_keeps_needed_interfaces_witness :
  MigrationData.interfaces SamplePlanning.ports =
  Ok [("TenGigE0/0/0/0", [("is_enabled", PBool true); ("is_up", PBool false)]);
      ("Bundle-Ether1", [("is_enabled", PBool false); ("is_up", PBool true)])].
Proof.
  apply (planning_keeps_needed_interfaces SamplePlanning.ports).
  - repeat constructor; simpl; intuition discriminate.
  - reflexivity.
Defined.

Lemma planning_stops_at_unread_field_witness :
  MigrationData.interfaces SamplePlanning.unread = Raise (KeyError "is_up").
Proof.
  apply (proj2 (planning_stops_at_unread_field
                  [("TenGigE0/0/0/0", [("is_enabled", PBool true)])] []
                  "TenGigE0/0/0/1" [("is_enabled", PBool false)]
                  ltac:(repeat constructor; simpl; intuition discriminate)
                  eq_refl eq_refl) (PBool false)); reflexivity.
Defined.

(** ** The values the merge pass leaves in a record *)

Section MergedValues.

Import Main.

Lemma dict_set_same_value {V} (d : list (string * V)) k v :
  dict_get d k = Some v -> dict_set d k v = d.
Proof.
  induction d as [|[k' v'] d IH]; simpl; [discriminate|].
  destruct (k' =? k)%string eqn:E.
  - intros H. injection H as ->. reflexivity.
  - intros H. now rewrite IH.
Qed.

Lemma dict_update_contained {V} (v r : list (string * V)) :
  (forall f x, In (f, x) v -> dict_get r f = Some x) -> dict_update r v = r.
Proof.
  unfold dict_update. induction v as [|[f x] v IH]; intros H; simpl; [reflexivity|].
  rewrite dict_set_same_value by (apply H; now left).
  apply IH. intros f' x' Hin. apply H. now right.
Qed.

Lemma dict_get_update_nodup {V} (v r : list (string * V)) f x :
  NoDup (keys v) -> In (f, x) v -> dict_get (dict_update r v) f = Some x.
Proof.
  unfold dict_update. revert r.
  induction v as [|[f' x'] v IH]; intros r Hn Hin; simpl in *; [tauto|].
  inversion Hn as [|? ? Hf Hv]; subst.
  destruct Hin as [E|Hin].
  - injection E as -> ->.
    change (dict_get (dict_update (dict_set r f x) v) f = Some x).
    rewrite dict_get_update_absent by exact Hf. apply dict_get_set_same.
  - now apply IH.
Qed.

Lemma dict_update_truthy (r v : dict) : r <> [] -> dict_update r v <> [].
Proof.
  intros Hr E. destruct r as [|[a b] r]; [congruence|].
  assert (H : In a (keys (dict_update ((a, b) :: r) v)))
    by (apply keys_update; left; now left).
  rewrite E in H. exact H.
Qed.

Lemma truthy_record (r : dict) : truthy (PDict r) = true <-> r <> [].
Proof. destruct r; simpl; split; congruence. Qed.

(** One entry of a table merged onto the inventory. *)
Lemma collapse_onto_cons (acc : table) k v (i : table) :
  collapse_onto acc ((k, v) :: i) =
  collapse_onto
    (match dict_get acc k with
     | Some r => if truthy (PDict r) then dict_set acc k (dict_update r v) else acc
     | None => acc
     end) i.
Proof. reflexivity. Qed.

Lemma collapse_onto_other (i : table) k :
  forall acc : table,
    ~ In k (keys i) -> dict_get (collapse_onto acc i) k = dict_get acc k.
Proof.
  induction i as [|[k' v] i IH]; intros acc Hk; [reflexivity|].
  rewrite collapse_onto_cons. simpl in Hk.
  rewrite IH by tauto.
  destruct (dict_get acc k') as [r|]; [|reflexivity].
  destruct (truthy (PDict r)); [|reflexivity].
  apply dict_get_set_other. tauto.
Qed.

(** The record of an interface after a table that lists it is merged. *)
Lemma collapse_onto_get (i : table) k v :
  NoDup (keys i) -> In (k, v) i ->
  forall acc : table,
    dict_get (collapse_onto acc i) k =
    match dict_get acc k with
    | Some r0 => Some (if truthy (PDict r0) then dict_update r0 v else r0)
    | None => None
    end.
Proof.
  induction i as [|[k' v'] i IH]; intros Hn Hin acc; [destruct Hin|].
  inversion Hn as [|? ? Hk Hi]; subst.
  rewrite collapse_onto_cons. destruct Hin as [E|Hin].
  - injection E as -> ->. rewrite collapse_onto_other by exact Hk.
    destruct (dict_get acc k) as [r0|] eqn:E0; [|exact E0].
    destruct (truthy (PDict r0)); [apply dict_get_set_same|exact E0].
  - assert (Hne : k' <> k).
    { intros ->. apply Hk. change (In (fst (k, v)) (map fst i)). now apply in_map. }
    rewrite (IH Hi Hin).
    destruct (dict_get acc k') as [r|]; [|reflexivity].
    destruct (truthy (PDict r)); [|reflexivity].
    now rewrite dict_get_set_other.
Qed.

(** A table that says nothing of a field leaves the field as it is, and a
    record that has fields keeps having some. *)
Lemma collapse_onto_field (i : table) k f :
  (forall v, In (k, v) i -> ~ In f (keys v)) ->
  forall (acc : table) r0,
    dict_get acc k = Some r0 ->
    exists r,
      dict_get (collapse_onto acc i) k = Some r /\
      dict_get r f = dict_get r0 f /\ (r0 <> [] -> r <> []).
Proof.
  induction i as [|[k' v'] i IH]; intros Hf acc r0 H0.
  - exists r0. auto.
  - rewrite collapse_onto_cons.
    assert (Hf' : forall v, In (k, v) i -> ~ In f (keys v))
      by (intros v Hv; apply Hf; now right).
    destruct (String.eqb_spec k' k) as [->|Hne].
    + rewrite H0. destruct (truthy (PDict r0)) eqn:Et.
      * destruct (IH Hf' (dict_set acc k (dict_update r0 v')) (dict_update r0 v')
                    (dict_get_set_same _ _ _)) as (r & Hr & Hfr & Hne).
        exists r. split; [exact Hr|]. split.
        -- rewrite Hfr. apply dict_get_update_absent. apply Hf. now left.
        -- intros H. apply Hne. now apply dict_update_truthy.
      * now apply IH.
    + apply IH; [exact Hf'|].
      destruct (dict_get acc k') as [r|]; [|exact H0].
      destruct (truthy (PDict r)); [|exact H0].
      now rewrite dict_get_set_other.
Qed.

Lemma collapse_sources_field (sources : list table) k f :
  (forall src v, In src sources -> In (k, v) src -> ~ In f (keys v)) ->
  forall (acc : table) r0,
    dict_get acc k = Some r0 ->
    exists r,
      dict_get (fold_left collapse_onto sources acc) k = Some r /\
      dict_get r f = dict_get r0 f /\ (r0 <> [] -> r <> []).
Proof.
  induction sources as [|src sources IH]; intros Hf acc r0 H0; simpl.
  - exists r0. auto.
  - destruct (collapse_onto_field src k f (fun v => Hf src v (or_introl eq_refl))
                acc r0 H0) as (r1 & H1 & F1 & N1).
    destruct (IH (fun s v Hs => Hf s v (or_intror Hs)) _ r1 H1) as (r & Hr & Fr & Nr).
    exists r. split; [exact Hr|]. split; [congruence|auto].
Qed.

(** Whatever is merged, a record that has fields keeps having some. *)
Lemma collapse_sources_truthy (sources : list table) k :
  forall (acc : table) r0,
    dict_get acc k = Some r0 -> r0 <> [] ->
    exists r, dict_get (fold_left collapse_onto sources acc) k = Some r /\ r <> [].
Proof.
  induction sources as [|src sources IH]; intros acc r0 H0 Hne; simpl; [eauto|].
  assert (H1 : exists r1, dict_get (collapse_onto acc src) k = Some r1 /\ r1 <> []).
  { clear IH. revert acc r0 H0 Hne.
    induction src as [|[k' v'] src IH]; intros acc r0 H0 Hne; [eauto|].
    rewrite collapse_onto_cons.
    destruct (String.eqb_spec k' k) as [->|Hk].
    - rewrite H0. destruct (truthy (PDict r0)).
      + apply (IH _ (dict_update r0 v')); [apply dict_get_set_same|].
        now apply dict_update_truthy.
      + eapply IH; eauto.
    - apply (IH _ r0); [|exact Hne].
      destruct (dict_get acc k') as [r|]; [|exact H0].
      destruct (truthy (PDict r)); [|exact H0].
      now rewrite dict_get_set_other. }
  destruct H1 as (r1 & H1 & N1). eapply IH; eauto.
Qed.

(** An interface whose record is empty is passed over by every table. *)
Lemma collapse_sources_empty (sources : list table) k :
  forall acc : table,
    dict_get acc k = Some [] ->
    dict_get (fold_left collapse_onto sources acc) k = Some [].
Proof.
  induction sources as [|src sources IH]; intros acc H0; simpl; [exact H0|].
  apply IH. clear IH. revert acc H0.
  induction src as [|[k' v'] src IH]; intros acc H0; [exact H0|].
  rewrite collapse_onto_cons. apply IH.
  destruct (String.eqb_spec k' k) as [->|Hk].
  - now rewrite H0.
  - destruct (dict_get acc k') as [r|]; [|exact H0].
    destruct (truthy (PDict r)); [|exact H0].
    now rewrite dict_get_set_other.
Qed.

Lemma fill_record_twice r : fill_record (fill_record r) = fill_record r.
Proof.
  unfold fill_record.
  destruct (negb (truthy (dict_get_default r "mpls_enabled"))) eqn:E.
  - unfold dict_get_default, dict_update. simpl.
    rewrite dict_get_set_same. simpl.
    apply dict_set_same_value. apply dict_get_set_same.
  - now rewrite E.
Qed.

(** The fill-in loop over a list of interface names of the table. *)
Lemma fill_loop_get (l : list string) :
  forall acc out : table,
    rfor_each l acc
      (fun acc i =>
         r <~ subscript acc i ;;
         if negb (truthy (dict_get_default r "mpls_enabled"))
         then
           r <~ subscript acc i ;;
           Ok (dict_set acc i (dict_update r [("mpls_enabled", PBool false)]))
         else Ok acc) = Ok out ->
    forall k,
      (In k l -> dict_get out k = option_map fill_record (dict_get acc k)) /\
      (~ In k l -> dict_get out k = dict_get acc k).
Proof.
  induction l as [|i l IH]; intros acc out H k.
  - simpl in H. injection H as <-. split; [intros []|reflexivity].
  - cbn [rfor_each] in H. unfold subscript at 1 in H.
    destruct (dict_get acc i) as [ri|] eqn:Ei; [|discriminate].
    cbn [rbind] in H.
    set (acc1 := dict_set acc i (fill_record ri)).
    assert (Hstep :
              (if negb (truthy (dict_get_default ri "mpls_enabled"))
               then r <~ subscript acc i ;;
                    Ok (dict_set acc i (dict_update r [("mpls_enabled", PBool false)]))
               else Ok acc) = Ok acc1).
    { unfold acc1, fill_record, subscript. rewrite Ei.
      destruct (negb (truthy (dict_get_default ri "mpls_enabled"))); [reflexivity|].
      now rewrite dict_set_same_value. }
    rewrite Hstep in H. cbn [rbind] in H.
    destruct (IH acc1 out H k) as [Hin Hout].
    destruct (String.eqb_spec i k) as [->|Hne].
    + assert (E1 : dict_get acc1 k = Some (fill_record ri))
        by apply dict_get_set_same.
      split; [|intros Hk; exfalso; apply Hk; now left].
      intros _. rewrite Ei. simpl.
      destruct (in_dec string_dec k l) as [Hl|Hl].
      * rewrite (Hin Hl), E1. simpl. now rewrite fill_record_twice.
      * now rewrite (Hout Hl).
    + assert (E1 : dict_get acc1 k = dict_get acc k)
        by (apply dict_get_set_other; exact Hne).
      rewrite <- E1. split.
      * intros [?|Hl]; [contradiction|auto].
      * intros Hk. apply Hout. intros Hl. apply Hk. now right.
Qed.

(** The merge pass, record by record: the tables are merged in order, then
    the record is filled in. *)
Lemma collapse_all_get (base : table) (sources : list table) (out : table) k :
  collapse_all base sources = Ok out ->
  dict_get out k =
  option_map fill_record (dict_get (fold_left collapse_onto sources base) k).
Proof.
  unfold collapse_all, fill_mpls. intros H.
  destruct (fill_loop_get _ _ _ H k) as [Hin Hout].
  destruct (dict_get (fold_left collapse_onto sources base) k) as [r|] eqn:E.
  - apply Hin. eapply dict_get_some_in_keys; eauto.
  - apply Hout. now apply dict_get_none_not_in.
Qed.

(** Merging a table a second time changes nothing. *)
Lemma collapse_onto_twice (i : table) (acc : table) :
  well_keyed i -> collapse_onto (collapse_onto acc i) i = collapse_onto acc i.
Proof.
  intros [Hn Hrec].
  assert (H : forall l, (forall e, In e l -> In e i) ->
                        collapse_onto (collapse_onto acc i) l = collapse_onto acc i).
  { induction l as [|[k v] l IH]; intros Hl; [reflexivity|].
    rewrite collapse_onto_cons.
    assert (Hin : In (k, v) i) by (apply Hl; now left).
    rewrite (collapse_onto_get i k v Hn Hin acc).
    assert (Hl' : forall e, In e l -> In e i) by (intros e He; apply Hl; now right).
    destruct (dict_get acc k) as [r0|] eqn:E0; [|now apply IH].
    destruct (truthy (PDict r0)) eqn:Et.
    - assert (Ht : truthy (PDict (dict_update r0 v)) = true).
      { apply truthy_record. apply dict_update_truthy. now apply truthy_record. }
      rewrite Ht.
      rewrite (dict_update_contained v (dict_update r0 v)).
      + rewrite dict_set_same_value; [now apply IH|].
        rewrite (collapse_onto_get i k v Hn Hin acc), E0. now rewrite Et.
      + intros f x Hfx. apply dict_get_update_nodup; [|exact Hfx].
        now apply (Hrec k v).
    - rewrite Et. now apply IH. }
  apply H. auto.
Qed.

(** X17. The merge pass merges the address table twice in a row; the second
    merge changes nothing.  More generally a table merged twice in a row
    gives what merging it once gives, no key occurring twice in the table or
    in one of its records. *)
Theorem merge_twice_same (base : table) (before rest : list table) (i : table) :
  well_keyed i ->
  collapse_all base (before ++ i :: i :: rest)%list =
  collapse_all base (before ++ i :: rest)%list.
Proof.
  intros Hi. unfold collapse_all. rewrite !fold_left_app. simpl.
  now rewrite collapse_onto_twice.
Qed.

(** X18. Where tables disagree the later one wins.  For an interface of the
    inventory whose record is not empty, a field of the last merged table
    that reports the field for that interface has that table's value in the
    result, a falsy [mpls_enabled] apart, which comes out as [False]. *)
Theorem merge_last_table_wins (base out : table) (before after : list table)
  (src : table) (k f : string) (r0 v : dict) (x : pyval) :
  collapse_all base (before ++ src :: after)%list = Ok out ->
  dict_get base k = Some r0 -> r0 <> [] ->
  well_keyed src -> In (k, v) src -> In (f, x) v ->
  (forall src' v', In src' after -> In (k, v') src' -> ~ In f (keys v')) ->
  f <> "mpls_enabled" \/ truthy x = true ->
  exists r, dict_get out k = Some r /\ dict_get r f = Some x.
Proof.
  intros Hrun H0 Hne [Hn Hrec] Hin Hfx Hafter Hf.
  rewrite (collapse_all_get _ _ _ k Hrun). rewrite fold_left_app. simpl.
  destruct (collapse_sources_truthy before k base r0 H0 Hne) as (r1 & H1 & N1).
  assert (H2 : dict_get (collapse_onto (fold_left collapse_onto before base) src) k =
               Some (dict_update r1 v)).
  { rewrite (collapse_onto_get src k v Hn Hin), H1.
    apply truthy_record in N1. now rewrite N1. }
  destruct (collapse_sources_field after k f Hafter _ _ H2) as (r & Hr & Fr & _).
  rewrite Hr. simpl. exists (fill_record r). split; [reflexivity|].
  assert (Hx : dict_get r f = Some x).
  { rewrite Fr. apply dict_get_update_nodup; [|exact Hfx]. now apply (Hrec k v). }
  unfold fill_record.
  destruct (negb (truthy (dict_get_default r "mpls_enabled"))) eqn:Em; [|exact Hx].
  destruct Hf as [Hf|Hf].
  - rewrite dict_get_update_absent; [exact Hx|]. simpl. intuition.
  - destruct (String.eqb_spec f "mpls_enabled") as [->|Hf'].
    + unfold dict_get_default in Em. rewrite Hx, Hf in Em. discriminate.
    + rewrite dict_get_update_absent; [exact Hx|]. simpl. intuition.
Qed.

(** X19. An interface the inventory lists with an empty record gets nothing
    from any table: the merge condition reads the record's truth value, and
    the record comes out with [mpls_enabled: False] as its only field. *)
Theorem merge_passes_over_empty_record (base out : table) (sources : list table)
  (k : string) :
  collapse_all base sources = Ok out ->
  dict_get base k = Some [] ->
  dict_get out k = Some [("mpls_enabled", PBool false)].
Proof.
  intros Hrun H0. rewrite (collapse_all_get _ _ _ k Hrun).
  now rewrite (collapse_sources_empty sources k base H0).
Qed.

End MergedValues.

Lemma merge_twice_same_witness :
  well_keyed SampleRun.addresses /\
  Main.collapse_all SampleRun.inventory
    [SampleRun.addresses; SampleRun.addresses; SampleRun.mpls_table;
     SampleRun.isis_table; SampleRun.arp_table; SampleRun.nd_table;
     SampleRun.counters] =
  Main.collapse_all SampleRun.inventory
    [SampleRun.addresses; SampleRun.mpls_table;
     SampleRun.isis_table; SampleRun.arp_table; SampleRun.nd_table;
     SampleRun.counters].
Proof.
  assert (W : well_keyed SampleRun.addresses).
  { split.
    - repeat constructor; simpl; intuition discriminate.
    - intros k v [E|[E|[]]]; injection E as <- <-;
        repeat constructor; simpl; intuition discriminate. }
  split; [exact W|].
  exact (merge_twice_same SampleRun.inventory []
           [SampleRun.mpls_table; SampleRun.isis_table; SampleRun.arp_table;
            SampleRun.nd_table; SampleRun.counters]
           SampleRun.addresses W).
Defined.

Lemma merge_last_table_wins_witness :
  exists out r,
    Main.collapse_all SampleMerge.bare_inventory
      [SampleMerge.relabel; SampleMerge.overrides] = Ok out /\
    dict_get out "ge-0/0/0" = Some r /\
    dict_get r "description" = Some (PStr "core1 100G").
Proof.
  assert (W : well_keyed SampleMerge.relabel).
  { split.
    - repeat constructor; simpl; intuition discriminate.
    - intros k v [E|[E|[]]]; injection E as <- <-;
        repeat constructor; simpl; intuition discriminate. }
  eexists.
  match goal with
  | |- exists r, ?run /\ _ => assert (Hrun : run) by (vm_compute; reflexivity)
  end.
  destruct (merge_last_table_wins SampleMerge.bare_inventory _
              [] [SampleMerge.overrides] SampleMerge.relabel
              "ge-0/0/0" "description" _ _ (PStr "core1 100G")
              Hrun eq_refl ltac:(discriminate) W
              (or_introl eq_refl) (or_introl eq_refl)) as (r & Hr & Hx).
  - intros src' v' [<-|[]] [E|[]]. injection E as <-. simpl. intuition discriminate.
  - left. discriminate.
  - exists r. split; [exact Hrun|]. split; [exact Hr|exact Hx].
Defined.

Lemma merge_passes_over_empty_record_witness :
  exists out,
    Main.collapse_all SampleMerge.bare_inventory
      [SampleMerge.relabel; SampleMerge.overrides] = Ok out /\
    dict_get out "ge-0/0/5" = Some [("mpls_enabled", PBool false)].
Proof.
  eexists.
  match goal with
  | |- ?run /\ _ => assert (Hrun : run) by (vm_compute; reflexivity)
  end.
  split; [exact Hrun|].
  exact (merge_passes_over_empty_record SampleMerge.bare_inventory _
           [SampleMerge.relabel; SampleMerge.overrides] "ge-0/0/5" Hrun eq_refl).
Defined.

Lemma get_bgp_neighbor_routes_call_witness :
  rpc_calls
    (snd (CustomJunOSDriver.get_bgp_neighbor_routes Sample.repr Sample.net
            SampleRoutes.router "2001:db8::1" Sample.fresh)) =
  [("junos_bgp_rx_route_table", [PStr "2001:db8::1"; PStr "inet6.0"])].
Proof.
  exact (proj2 (get_bgp_neighbor_routes_call Sample.repr Sample.net
                  SampleRoutes.router "2001:db8::1" Sample.fresh) 6 eq_refl).
Defined.

(** ** The name lookup *)

Section DnsName.

Import Main.

Lemma prefix_dot c s : String.prefix "." (String c s) = Ascii.eqb dot c.
Proof.
  change (String.prefix "." (String c s))
    with (if ascii_dec "." c then String.prefix "" s else false).
  destruct (ascii_dec "." c) as [E|Hne].
  - rewrite <- E. now destruct s.
  - symmetry. apply Ascii.eqb_neq. exact Hne.
Qed.

Lemma split_head_dot s :
  has_char dot (split_head "." s) = false /\
  exists rest,
    s = (split_head "." s ++ rest)%string /\
    (rest = "" \/ exists tail, rest = String dot tail).
Proof.
  induction s as [|c s [IH (rest & Hrest & Hcut)]].
  - split; [reflexivity|]. exists "". auto.
  - cbn [split_head]. rewrite prefix_dot.
    destruct (Ascii.eqb dot c) eqn:E.
    + split; [reflexivity|]. exists (String c s). split; [reflexivity|].
      right. exists s. apply Ascii.eqb_eq in E. now rewrite E.
    + cbn [has_char]. rewrite E, IH. split; [reflexivity|].
      exists rest. split; [|exact Hcut]. simpl. now rewrite <- Hrest.
Qed.

(** The first label is the only way to cut a name before its first dot. *)
Lemma first_label_unique (label label' rest rest' : string) :
  (label ++ rest)%string = (label' ++ rest')%string ->
  has_char dot label = false -> has_char dot label' = false ->
  (rest = "" \/ exists tail, rest = String dot tail) ->
  (rest' = "" \/ exists tail, rest' = String dot tail) ->
  label = label'.
Proof.
  revert label'. induction label as [|c label IH]; intros label' E H H' Hr Hr'.
  - destruct label' as [|c' label']; [reflexivity|]. exfalso.
    simpl in E. cbn [has_char] in H'. apply orb_false_iff in H'. destruct H' as [Hc' _].
    destruct Hr as [->|[tail ->]]; [discriminate|].
    injection E as <- _. now rewrite Ascii.eqb_refl in Hc'.
  - cbn [has_char] in H. apply orb_false_iff in H. destruct H as [Hc H].
    destruct label' as [|c' label'].
    + exfalso. simpl in E.
      destruct Hr' as [->|[tail ->]]; [discriminate|].
      injection E as -> _. now rewrite Ascii.eqb_refl in Hc.
    + simpl in E. cbn [has_char] in H'. apply orb_false_iff in H'. destruct H' as [_ H'].
      injection E as <- E. f_equal. now apply (IH label').
Qed.

(** X20. The name lookup of a circuit's address adds no event to the trace
    and leaves the start time alone.  When the resolver answers, the result is
    the first label of the name: the name up to its first dot, or all of it
    when it has none; no other string is at once free of dots and followed in
    the name by nothing or by a dot.  When the resolver raises [gaierror], the
    result is the sentence naming the address, returned and not raised.  Any
    other exception of the resolver is raised. *)
Theorem get_dns_name_label (ext : externals) (ipaddress : string) (s : main) :
  let (r, s') := _get_dns_name ext ipaddress s in
  trace s' = trace s /\ start_time s' = start_time s /\
  match gethostbyaddr ext ipaddress with
  | Ok name =>
      exists label rest,
        r = Ok label /\ name = (label ++ rest)%string /\
        has_char dot label = false /\
        (rest = "" \/ exists tail, rest = String dot tail) /\
        forall label' rest',
          name = (label' ++ rest')%string ->
          has_char dot label' = false ->
          (rest' = "" \/ exists tail, rest' = String dot tail) ->
          label' = label
  | Raise (GaiError _) => r = Ok ("A record not configured for " ++ ipaddress)%string
  | Raise e => r = Raise e
  end.
Proof.
  unfold _get_dns_name, bind, pass_time, modify, ret, raise.
  destruct (gethostbyaddr ext ipaddress) as [e|name].
  - destruct e; destruct (pending s); simpl; auto.
  - destruct (split_head_dot name) as [Hdot (rest & Hrest & Hcut)].
    assert (Hu : forall label' rest',
               name = (label' ++ rest')%string ->
               has_char dot label' = false ->
               (rest' = "" \/ exists tail, rest' = String dot tail) ->
               label' = split_head "." name).
    { intros label' rest' E H' Hr'.
      apply (first_label_unique label' (split_head "." name) rest' rest); auto.
      now rewrite <- E, <- Hrest. }
    destruct (pending s); simpl; (split; [reflexivity|]); (split; [reflexivity|]);
      exists (split_head "." name), rest; repeat split; auto.
Qed.

End DnsName.

(** ** How often the global router is used *)

Section Adds.

Import Main.

Variable f : event -> bool.

Lemma occurrences_app tr1 tr2 :
  occurrences f (tr1 ++ tr2) = (occurrences f tr1 + occurrences f tr2)%nat.
Proof. unfold occurrences. now rewrite filter_app, length_app. Qed.

Lemma adds_ret {A} (a : A) : adds f 0 (ret a).
Proof. intros s a' s' H. injection H as _ <-. lia. Qed.

Lemma adds_raise {A} n (e : exn) : adds f n (@raise main A e).
Proof. intros s a s' H. discriminate. Qed.

Lemma adds_lift {A} (x : result A) : adds f 0 (lift x).
Proof. intros s a s' H. injection H as _ <-. lia. Qed.

Lemma adds_get_state : adds f 0 (@get_state main).
Proof. intros s a s' H. injection H as _ <-. lia. Qed.

Lemma adds_time_time : adds f 0 time_time.
Proof. intros s a s' H. injection H as _ <-. lia. Qed.

Lemma adds_modify (g : main -> main) :
  (forall s, trace (g s) = trace s) -> adds f 0 (modify g).
Proof. intros Hg s a s' H. injection H as _ <-. rewrite Hg. lia. Qed.

Lemma adds_pass_time : adds f 0 pass_time.
Proof.
  unfold pass_time. apply adds_modify. intros s. now destruct (pending s).
Qed.

Lemma adds_emit e : adds f (if f e then 1 else 0) (emit e).
Proof.
  intros s a s' H. injection H as _ <-. simpl.
  rewrite occurrences_app. unfold occurrences. simpl. now destruct (f e).
Qed.

Lemma adds_bind {A B} n m (c : M main A) (k : A -> M main B) :
  adds f n c -> (forall a, adds f m (k a)) -> adds f (n + m) (bind c k).
Proof.
  intros Hc Hk s b s' H. unfold bind in H.
  destruct (c s) as [[e|a] s1] eqn:E; [discriminate|].
  rewrite (Hk a _ _ _ H), (Hc _ _ _ E). lia.
Qed.

Lemma adds_bind_l {A B} n (c : M main A) (k : A -> M main B) :
  adds f 0 c -> (forall a, adds f n (k a)) -> adds f n (bind c k).
Proof. intros Hc Hk. now apply (adds_bind 0 n). Qed.

Lemma adds_bind_r {A B} n (c : M main A) (k : A -> M main B) :
  adds f n c -> (forall a, adds f 0 (k a)) -> adds f n (bind c k).
Proof.
  intros Hc Hk. replace n with (n + 0)%nat by lia. now apply adds_bind.
Qed.

Lemma adds_for_each {A B} n (body : A -> B -> M main A) (l : list B) :
  (forall acc x, In x l -> adds f n (body acc x)) ->
  forall acc, adds f (n * List.length l) (for_each l acc body).
Proof.
  induction l as [|x l IH]; intros Hb acc; simpl.
  - rewrite Nat.mul_0_r. apply adds_ret.
  - replace (n * S (List.length l))%nat with (n + n * List.length l)%nat by lia.
    apply adds_bind; [apply Hb; now left|].
    intros acc'. apply IH. intros a y Hy. apply Hb. now right.
Qed.

Lemma adds_for_each_none {A B} (body : A -> B -> M main A) (l : list B) :
  (forall acc x, In x l -> adds f 0 (body acc x)) ->
  forall acc, adds f 0 (for_each l acc body).
Proof.
  intros Hb acc. apply (adds_for_each 0 body l Hb acc).
Qed.

Lemma adds_ask {A} who getter arg (answer : result A) :
  adds f (if f (Asked who getter arg) then 1 else 0) (ask who getter arg answer).
Proof.
  unfold ask. apply adds_bind_l; [apply adds_pass_time|intros _].
  apply adds_bind_r; [apply adds_emit|intros _]. apply adds_lift.
Qed.

Lemma adds_ask_none {A} who getter arg (answer : result A) :
  f (Asked who getter arg) = false -> adds f 0 (ask who getter arg answer).
Proof.
  intros Hf. pose proof (adds_ask who getter arg answer) as H.
  now rewrite Hf in H.
Qed.

(** Closing adds the event of the call, whether the call returns, raises, or
    raises an exception that is passed over. *)
Lemma adds_close who sess : f (Closed who) = false -> adds f 0 (close who sess).
Proof.
  intros Hf s a s' H.
  destruct (close_effect who sess s) as (s1 & Ec & T & _). rewrite Ec in H.
  assert (Es : s' = s1) by (destruct (close_raises sess); congruence).
  rewrite Es, T, occurrences_app. unfold occurrences. simpl. rewrite Hf. simpl. lia.
Qed.

Lemma adds_close_passed_over who sess :
  f (Closed who) = false -> adds f 0 (except_attribute_error (close who sess)).
Proof.
  intros Hf s a s' H. unfold except_attribute_error in H.
  destruct (close_effect who sess s) as (s1 & Ec & T & _). rewrite Ec in H.
  assert (Es : s' = s1) by (destruct (close_raises sess) as [[]|]; congruence).
  rewrite Es, T, occurrences_app. unfold occurrences. simpl. rewrite Hf. simpl. lia.
Qed.

Lemma adds_napalm_connect who :
  (forall t, f (OneTimeCode who t) = false) -> adds f 0 (napalm_connect who).
Proof.
  intros Hf. unfold napalm_connect.
  apply adds_bind_l; [apply adds_pass_time|intros _].
  apply adds_bind_l; [apply adds_time_time|intros now].
  pose proof (adds_emit (OneTimeCode who now)) as H. now rewrite Hf in H.
Qed.

Lemma adds_sleep d :
  (forall from until, f (Slept d from until) = false) -> adds f 0 (sleep d).
Proof.
  intros Hf. unfold sleep. destruct (d <? 0); [apply adds_raise|].
  apply adds_bind_l; [apply adds_time_time|intros from].
  apply adds_bind_l; [apply adds_modify; auto|intros _].
  apply adds_bind_l; [apply adds_pass_time|intros _].
  apply adds_bind_l; [apply adds_time_time|intros now].
  pose proof (adds_emit (Slept d from now)) as H. now rewrite Hf in H.
Qed.

Lemma adds_get_dns_name ext ipaddress : adds f 0 (_get_dns_name ext ipaddress).
Proof.
  unfold _get_dns_name.
  apply adds_bind_l; [apply adds_pass_time|intros _].
  destruct (gethostbyaddr ext ipaddress) as [[]|];
    first [apply adds_ret | apply adds_raise].
Qed.

Lemma adds_interface_block ext c circuit_data :
  adds f 0 (interface_block ext c circuit_data).
Proof.
  unfold interface_block.
  repeat (apply adds_bind_l;
          [first [apply adds_lift | apply adds_get_dns_name]|intro]).
  apply adds_ret.
Qed.

Hypothesis primary_asks : forall getter arg, f (Asked Primary getter arg) = false.

Lemma adds_interface_common_getters ext conn extra_inputs :
  adds f 0 (_interface_common_getters ext conn extra_inputs).
Proof.
  unfold _interface_common_getters.
  repeat (apply adds_bind_l;
          [first [apply adds_ask_none; apply primary_asks | apply adds_lift]|intro]).
  apply adds_lift.
Qed.

(** The routes the primary session is asked of a circuit's neighbors. *)
Lemma adds_neighbor_routes {A} (conn : session) (c : circuit) (acc : A)
  (merge : A -> pyval -> M main A) :
  (forall a r, adds f 0 (merge a r)) ->
  adds f 0
    (for_each [v4_neighbor c; v6_neighbor c] acc
       (fun acc i =>
          if truthy i then
            r <- ask Primary "get_bgp_neighbor_routes_custom" i
                   (get_bgp_neighbor_routes_custom conn i) ;;
            merge acc r
          else ret acc)).
Proof.
  intros Hm. apply adds_for_each_none. intros a i _.
  destruct (truthy i); [|apply adds_ret].
  apply adds_bind_l; [apply adds_ask_none; apply primary_asks|intro]. apply Hm.
Qed.

(** What the secondary session adds on a device type other than Junos comes
    from the route lookup of each circuit. *)
Lemma adds_circuit_body ext conn global data interfaces_all output_dict counter c n :
  (device_type data =? "junos")%string = false ->
  (forall c', adds f n (global_routes conn global counter c')) ->
  adds f n (circuit_body ext conn global data interfaces_all output_dict (counter, c)).
Proof.
  intros Hd Hroutes. unfold circuit_body. rewrite Hd.
  apply adds_bind_l; [apply adds_lift|intro].
  apply adds_bind_l; [apply adds_interface_block|intro].
  apply adds_bind_l.
  - destruct (truthy _); [|apply adds_ret].
    apply adds_bind_l; [apply adds_lift|intro].
    apply adds_bind_l; [apply adds_lift|intro]. apply adds_ret.
  - intros [output_dict' c'].
    apply adds_bind_r; [apply Hroutes|intro]. apply adds_lift.
Qed.

End Adds.

Section GlobalRouter.

Import Main.

Variables (ext : externals) (conn global : session) (data : run_data).

Lemma adds_lookup_open_global_router : adds is_route_lookup 0 open_global_router.
Proof.
  unfold open_global_router.
  apply adds_bind_l; [apply adds_time_time|intros now].
  apply adds_bind_l; [apply adds_get_state|intros st].
  apply adds_bind_l.
  - destruct (_ <? _); [|apply adds_ret]. now apply adds_sleep.
  - intros _.
    apply adds_bind_l; [now apply adds_napalm_connect|intros _].
    apply adds_bind_l; [now apply adds_modify|intros _].
    unfold open. apply adds_bind_l; [apply adds_pass_time|intros _].
    apply adds_bind_l; [apply adds_time_time|intros t].
    exact (adds_emit is_route_lookup (Opened Secondary t)).
Qed.

Lemma adds_open_open_global_router : adds is_secondary_open 1 open_global_router.
Proof.
  unfold open_global_router.
  apply adds_bind_l; [apply adds_time_time|intros now].
  apply adds_bind_l; [apply adds_get_state|intros st].
  apply adds_bind_l.
  - destruct (_ <? _); [|apply adds_ret]. now apply adds_sleep.
  - intros _.
    apply adds_bind_l; [now apply adds_napalm_connect|intros _].
    apply adds_bind_l; [now apply adds_modify|intros _].
    unfold open. apply adds_bind_l; [apply adds_pass_time|intros _].
    apply adds_bind_l; [apply adds_time_time|intros t].
    exact (adds_emit is_secondary_open (Opened Secondary t)).
Qed.

Lemma adds_lookup_global_routes counter c :
  adds is_route_lookup 1 (global_routes conn global counter c).
Proof.
  unfold global_routes.
  apply adds_bind_l.
  - apply adds_neighbor_routes; [reflexivity|].
    intros a r. apply adds_bind_l; [apply adds_lift|intro]. apply adds_ret.
  - intros routes_list.
    apply adds_bind_l.
    + destruct (counter =? 0)%nat;
        [apply adds_lookup_open_global_router|apply adds_ret].
    + intros _. apply adds_bind_l; [apply adds_get_state|intros st].
      destruct (juniper_connection st); [|apply adds_raise].
      exact (adds_ask is_route_lookup Secondary "get_route_to_custom" _ _).
Qed.

Lemma adds_open_global_routes counter c :
  adds is_secondary_open (if (counter =? 0)%nat then 1 else 0)
    (global_routes conn global counter c).
Proof.
  unfold global_routes.
  apply adds_bind_l.
  - apply adds_neighbor_routes; [reflexivity|].
    intros a r. apply adds_bind_l; [apply adds_lift|intro]. apply adds_ret.
  - intros routes_list.
    apply adds_bind_r.
    + destruct (counter =? 0)%nat;
        [apply adds_open_open_global_router|apply adds_ret].
    + intros _. apply adds_bind_l; [apply adds_get_state|intros st].
      destruct (juniper_connection st); [|apply adds_raise].
      now apply adds_ask_none.
Qed.

Lemma length_enumerate {A} (l : list A) : List.length (enumerate l) = List.length l.
Proof. unfold enumerate. rewrite length_combine, length_seq. lia. Qed.

Lemma adds_lookup_collected :
  (device_type data =? "junos")%string = false ->
  adds is_route_lookup (List.length (circuits data))
    (circuits_collected ext conn global data).
Proof.
  intros Hd. unfold circuits_collected.
  apply adds_bind_l; [now apply adds_ask_none|intro].
  apply adds_bind_l; [now apply adds_interface_common_getters|intros interfaces_all].
  rewrite <- (length_enumerate (circuits data)).
  replace (List.length (enumerate (circuits data)))
    with (1 * List.length (enumerate (circuits data)))%nat by lia.
  apply adds_for_each. intros acc [counter c] _.
  apply adds_circuit_body; [exact Hd|]. intros c'. apply adds_lookup_global_routes.
Qed.

Lemma adds_open_collected :
  (device_type data =? "junos")%string = false ->
  adds is_secondary_open (match circuits data with [] => 0 | _ => 1 end)
    (circuits_collected ext conn global data).
Proof.
  intros Hd. unfold circuits_collected.
  apply adds_bind_l; [now apply adds_ask_none|intro].
  apply adds_bind_l; [now apply adds_interface_common_getters|intros interfaces_all].
  unfold enumerate.
  destruct (circuits data) as [|c l]; cbn [List.length seq combine for_each].
  - apply adds_ret.
  - apply adds_bind_r.
    + apply adds_circuit_body; [exact Hd|]. intros c'.
      exact (adds_open_global_routes 0 c').
    + intros acc. apply adds_for_each_none. intros acc' [counter c'] Hin.
      apply in_combine_l in Hin. apply in_seq in Hin.
      apply adds_circuit_body; [exact Hd|]. intros c''.
      pose proof (adds_open_global_routes counter c'') as H.
      destruct counter; [lia|exact H].
Qed.

(** X21. On a device type other than Junos, a per-circuit workflow that
    returns has asked the global router for routes exactly once per circuit,
    also for a circuit without neighbors, and has opened the secondary session
    exactly once if there is a circuit and not at all if there is none. *)
Theorem global_router_asked_per_circuit (s s' : main) (out : dict) :
  device_type data <> "junos" ->
  circuits_pms ext conn global data s = (Ok out, s') ->
  occurrences is_route_lookup (trace s') =
  (occurrences is_route_lookup (trace s) + List.length (circuits data))%nat /\
  occurrences is_secondary_open (trace s') =
  (occurrences is_secondary_open (trace s)
   + match circuits data with [] => 0 | _ => 1 end)%nat.
Proof.
  intros Hd H. apply String.eqb_neq in Hd.
  rewrite circuits_pms_split in H.
  destruct (circuits_collected ext conn global data s) as [[e|output_dict] s3] eqn:E;
    [discriminate|].
  assert (Htail : forall g,
             g (Closed Primary) = false -> g (Closed Secondary) = false ->
             occurrences g (trace s') = occurrences g (trace s3)).
  { intros g Hp Hs.
    assert (A : adds g 0
                  (close Primary conn ;;;
                   st <- get_state ;;
                   (if juniper_connection st
                    then except_attribute_error (close Secondary global)
                    else ret tt) ;;;
                   ret output_dict)).
    { apply adds_bind_l; [now apply adds_close|intros _].
      apply adds_bind_l; [apply adds_get_state|intros st].
      apply adds_bind_l; [|intros _; apply adds_ret].
      destruct (juniper_connection st);
        [now apply adds_close_passed_over|apply adds_ret]. }
    rewrite (A _ _ _ H). lia. }
  split.
  - rewrite (Htail is_route_lookup eq_refl eq_refl).
    exact (adds_lookup_collected Hd _ _ _ E).
  - rewrite (Htail is_secondary_open eq_refl eq_refl).
    exact (adds_open_collected Hd _ _ _ E).
Qed.

End GlobalRouter.

Lemma global_router_asked_per_circuit_witness :
  exists out s',
    Main.circuits_pms SampleRun.ext SampleRun.edge SampleRun.core SampleRun.data
      SampleRun.start = (Ok out, s') /\
    occurrences is_route_lookup (Main.trace s') = 2%nat /\
    occurrences is_secondary_open (Main.trace s') = 1%nat.
Proof.
  eexists _, _.
  match goal with
  | |- ?run /\ _ => assert (Hrun : run) by (vm_compute; reflexivity)
  end.
  split; [exact Hrun|].
  exact (global_router_asked_per_circuit SampleRun.ext SampleRun.edge SampleRun.core
           SampleRun.data SampleRun.start _ _ ltac:(discriminate) Hrun).
Defined.
